(** * DendroPy [dendropy/model/birthdeath.py]: birth-death tree simulation
    and pure-birth model fitting.

    A shallow embedding of [birth_death_tree], [discrete_birth_death_tree],
    [uniform_pure_birth_tree], [fit_pure_birth_model] and
    [fit_pure_birth_model_to_tree].

    Conventions of the embedding:
    - Python floats are exact rationals ([Q]); the only transcendental
      operation, [math.log], lands in [R].  A rational is a finite float
      without rounding, overflow or underflow: a statement that equates
      two sums of floats is one of exact arithmetic, which the program
      meets up to rounding, and the statements about
      [fit_pure_birth_model] that depend on the magnitude of the ages
      bound them ([Fit.in_float_range]).
    - Python ints are [Z]; [len] results are [nat].
    - Node objects live in a store (a list indexed by node identity); the
      sets [extant_tips] / [extinct_tips] are finite sets of node
      identities, iterated in the order of their [elements].  Python
      fixes no order for a set of nodes: [SetOrder] embeds the same lines
      with the order as a parameter, for the statements that depend on
      it.
    - A random generator is a position in a sequence of draws, threaded
      through the calls that advance it.
    - A raised exception is the [Raise] branch of [res]; a loop that may
      not terminate takes fuel and returns [None] when it runs out. *)

From Stdlib Require Import QArith Qround Reals Psatz Lia Sorted Permutation.
From stdpp Require Import gmap strings list fin_maps pretty.

(** ** Python-level plumbing: exceptions and results *)

Module Py.

Inductive exn : Type :=
| TypeError
| ValueError
| IndexError
| ZeroDivisionError
| AttributeError
| AssertionError
| TreeSimTotalExtinctionException.

Inductive res (A : Type) : Type :=
| Ok (a : A)
| Raise (e : exn).
Arguments Ok {A} a.
Arguments Raise {A} e.

Definition bind {A B} (m : res A) (k : A -> res B) : res B :=
  match m with
  | Ok a => k a
  | Raise e => Raise e
  end.

Definition is_ok {A} (m : res A) : bool :=
  match m with Ok _ => true | Raise _ => false end.

#[global] Instance res_ret : MRet res := fun A a => Ok a.
#[global] Instance res_bind : MBind res := fun A B k m => bind m k.

End Py.

Import Py.

(** ** [fit_pure_birth_model] *)

Module Fit.

Open Scope Q_scope.

(** [sorted(internal_node_ages, reverse=True)]: a stable descending
    sort. *)
Fixpoint insert_desc (a : Q) (l : list Q) : list Q :=
  match l with
  | [] => [a]
  | b :: l' => if Qle_bool b a then a :: b :: l' else b :: insert_desc a l'
  end.

Definition sorted_desc (l : list Q) : list Q := foldr insert_desc [] l.

(** [enumerate(x)] *)
Definition enumerate {A} (x : list A) : list (nat * A) :=
  zip (seq 0 (length x)) x.

(** [nvec = range(2, len(x)+2)]; [nvec[idx]] for an index of [x]. *)
Definition nvec (idx : nat) : Z := (2 + Z.of_nat idx)%Z.

(** [max(...)] of a generator of ints; the empty generator raises
    [ValueError]. *)
Definition py_max (l : list Z) : res Z :=
  match l with
  | [] => Raise ValueError
  | a :: l' => Ok (foldl Z.max a l')
  end.

Definition Qlt_bool (a b : Q) : bool := negb (Qle_bool b a).

(** [sum(...)] over floats and over logs of ints. *)
Definition sumQ (l : list Q) : Q := foldl Qplus 0 l.

Definition sum_log (l : list Z) : R := foldl (fun acc i => (acc + ln (IZR i))%R) 0%R l.

(** [range(lo, up)] *)
Definition py_range (lo up : Z) : list Z :=
  map (fun i => (lo + Z.of_nat i)%Z) (seq 0 (Z.to_nat (up - lo))).

(** [nv[1:stop]]: a negative [stop] counts from the end of the list. *)
Definition slice_from_1 (nv : list Q) (stop : Z) : list Q :=
  if (stop <? 0)%Z
  then drop 1 (take (length nv - Z.to_nat (- stop)) nv)
  else drop 1 (take (Z.to_nat stop) nv).

(** The log-likelihood is a float or [float("-inf")]. *)
Inductive loglik : Type :=
| Finite (r : R)
| NegInf.

Record estimate : Type := MkEstimate {
  birth_rate : Q;
  log_likelihood : loglik
}.

(** The keyword arguments read by [fit_pure_birth_model].  The ages of
    a [tree] argument come from [tree.internal_node_ages], which is the
    tree library's; a tree is represented by the ages it yields. *)
Record kwargs : Type := MkKwargs {
  kw_tree : option (list Q);
  kw_internal_node_ages : option (list Q);
  kw_ignore_likelihood_calculation_failure : option bool
}.

(** The [try] block: [math.log] raises [ValueError] on a non-positive
    argument; the arguments of the first sum are ints from [lo >= 2]. *)
Definition log_terms (lo up : Z) (smax : Q) : res R :=
  if forallb (fun i => (0 <? i)%Z) (py_range lo up) then
    let s1 := sum_log (py_range lo up) in
    if Qlt_bool 0 smax then
      let s2 := (IZR (up - lo) * ln (Q2R smax))%R in
      let s3 := IZR (lo - up) in
      Ok (s1 + s2 + s3)%R
    else Raise ValueError
  else Raise ValueError.

(** Lines 659-674: the rate estimate [smax], with the two tip counts [lo]
    and [up] it is computed from. *)
Definition rate_estimate (internal_node_ages : list Q) : res (Z * Z * Q) :=
  let x := sorted_desc internal_node_ages in
  st1 ← match x with [] => Raise IndexError | a :: _ => Ok a end;
  let st2 := 0 in
  let nv := List.filter (fun i => Qlt_bool i st1 && Qle_bool st2 i) x in
  lo ← py_max (omap (fun '(idx, i) =>
                         if Qle_bool st1 i then Some (nvec idx) else None)
                      (enumerate x));
  up ← py_max (omap (fun '(idx, i) =>
                         if Qle_bool st2 i then Some (nvec idx) else None)
                      (enumerate x));
  let nv :=
    if Qle_bool st1 (hd 0 x)
    then map (fun i => i - st2) (st1 :: nv)
    else map (fun i => i - st2) nv in
  let t1 := (up - lo)%Z in
  nv0 ← match nv with [] => Raise IndexError | a :: _ => Ok a end;
  let t2 := inject_Z lo * nv0 in
  let t3 := sumQ (slice_from_1 nv (up - lo + 1)) in
  if Qeq_bool (t2 + t3) 0 then Raise ZeroDivisionError
  else Ok (lo, up, inject_Z t1 / (t2 + t3)).

(** Lines 651-691. *)
Definition fit_pure_birth_model (kw : kwargs) : res estimate :=
  internal_node_ages ←
    match kw_tree kw with
    | Some ages => Ok ages
    | None =>
        match kw_internal_node_ages kw with
        | Some ages => Ok ages
        | None => Raise TypeError
        end
    end;
  '(lo, up, smax) ← rate_estimate internal_node_ages;
  lh ←
    match log_terms lo up smax with
    | Ok lh => Ok (Finite lh)
    | Raise ValueError =>
        if default false (kw_ignore_likelihood_calculation_failure kw)
        then Raise ValueError
        else Ok NegInf
    | Raise e => Raise e
    end;
  Ok {| birth_rate := smax; log_likelihood := lh |}.

Definition ages_only (ages : list Q) : kwargs :=
  {| kw_tree := None; kw_internal_node_ages := Some ages;
     kw_ignore_likelihood_calculation_failure := None |}.

(** Vocabulary of the statements: the number of tips of a tree with the
    given internal-node ages, the number of ages equal to the largest one,
    and the condition under which a log term is undefined. *)
Definition tips (ages : list Q) : Z := Z.of_nat (length ages) + 1.

Definition count_largest (t : list Q) : Z :=
  Z.of_nat (length (List.filter (Qle_bool (hd 0 t)) t)).

Definition log_undefined (lo up : Z) (smax : Q) : Prop :=
  smax <= 0 \/ Exists (fun i => (i <= 0)%Z) (py_range lo up).

Definition desc : list Q -> Prop := StronglySorted (fun u v => v <= u).

(** The ages on which the binary64 arithmetic of lines 671-680 neither
    overflows nor underflows, so that the rationals follow it up to
    rounding: no age is above [2^500], no positive age is below
    [2^-500], and the list has fewer than [2^63] entries, as every Python
    list has.  The denominator [t2 + t3] of line 674 then stays below
    [2^565], and a quotient [smax] other than 0 between [2^-565] and
    [2^562].  Beyond this range the floats part from the rationals:
    with an age near [2^1023] the product [lo*nv[0]] is [inf] and [smax]
    is [0.0]. *)
Definition age_bound : Q := inject_Z (2 ^ 500).

Definition in_float_range (ages : list Q) : bool :=
  (Z.of_nat (length ages) <? 2 ^ 63)%Z
  && forallb (fun a => Qle_bool a age_bound
                       && (Qle_bool a 0 || Qle_bool (/ age_bound) a)) ages.

End Fit.


(** ** The random number generator

    A [random.Random] object is a state; every method call reads the
    current state and advances it.  A state is a position in a sequence of
    draws; a draw fixes what each method would return from that state:
    [random()] in the unit interval, a unit-rate exponential variate and a
    standard normal variate. *)

Module Rng.

Open Scope Q_scope.

Record draw : Type := MkDraw {
  u01 : Q;
  exp1 : Q;
  gauss01 : Q
}.

Record rng : Type := MkRng {
  draws : nat -> draw;
  pos : nat
}.

Definition next (r : rng) : draw * rng :=
  (draws r (pos r), {| draws := draws r; pos := S (pos r) |}).

(** [rng.random()] *)
Definition random (r : rng) : Q * rng :=
  let '(d, r') := next r in (u01 d, r').

(** [rng.uniform(a, b)] is [a + (b-a) * random()]. *)
Definition uniform (a b : Q) (r : rng) : Q * rng :=
  let '(d, r') := next r in (a + (b - a) * u01 d, r').

(** [rng.expovariate(lambd)] is [-log(1 - random())/lambd]; a zero rate
    divides by zero. *)
Definition expovariate (lambd : Q) (r : rng) : res (Q * rng) :=
  let '(d, r') := next r in
  if Qeq_bool lambd 0 then Raise ZeroDivisionError
  else Ok (exp1 d / lambd, r').

(** [rng.gauss(mu, sigma)] is [mu + z*sigma] for a standard normal [z]. *)
Definition gauss (mu sigma : Q) (r : rng) : Q * rng :=
  let '(d, r') := next r in (mu + gauss01 d * sigma, r').

(** A generator whose draws are in range: what a real generator
    delivers. *)
Definition well_formed (r : rng) : Prop :=
  forall i, 0 <= u01 (draws r i) /\ u01 (draws r i) < 1 /\ 0 <= exp1 (draws r i).

End Rng.

(** ** Weighted event selection *)

Module Probability.

Open Scope Q_scope.

(** Modelled from the spec: the selection loop of
    [dendropy.calculate.probability.weighted_choice], which is not among
    the sources.  Spec 4.1, cumulative-weight selection: walk the events,
    subtracting each weight from the scaled draw, and return the event at
    which the remainder becomes negative. *)
Fixpoint select {A} (seq : list A) (weights : list Q) (rnd : Q) : option A :=
  match seq, weights with
  | a :: seq', w :: weights' =>
      let rnd' := rnd - w in
      if Fit.Qlt_bool rnd' 0 then Some a else select seq' weights' rnd'
  | _, _ => None
  end.

(** Modelled from the spec: [dendropy.calculate.probability.weighted_choice]
    is not among the sources.  Spec 4.1: parallel sequences of events and
    non-negative weights and a source of uniform randomness; returns exactly
    one event, by cumulative-weight selection against one uniform draw
    scaled to the sum of the weights; fails when no event can be selected
    (no events, or the sum of the weights is not positive). *)
Definition weighted_choice {A} (seq : list A) (weights : list Q) (r : Rng.rng)
  : res (A * Rng.rng) :=
  let '(u, r') := Rng.random r in
  match select seq weights (u * Fit.sumQ weights) with
  | Some a => Ok (a, r')
  | None => Raise TypeError
  end.

End Probability.

(** ** Trees: the node store and the node-graph interface *)

Module Tree.

Open Scope Q_scope.

(** The dynamic extinction attribute of a node: absent, [None], or a
    bool. *)
Inductive attr : Type :=
| Unset
| IsNone
| IsBool (b : bool).

(** [getattr(nd, extinct_attr_name, False)] in a boolean context. *)
Definition attr_truthy (a : attr) : bool :=
  match a with IsBool b => b | _ => false end.

Record node : Type := MkNode {
  parent_node : option nat;
  child_nodes : list nat;
  edge_length : option Q;      (* [nd.edge.length]; [None] is Python's None *)
  birth_rate : option Q;       (* [None]: the attribute is not set *)
  death_rate : option Q;
  extinct_attr : attr;
  taxon : option string
}.

Definition new_node : node :=
  {| parent_node := None; child_nodes := []; edge_length := None;
     birth_rate := None; death_rate := None; extinct_attr := Unset;
     taxon := None |}.

Record namespace : Type := MkNamespace {
  ns_id : nat;                 (* object identity, for [is] *)
  labels : list string
}.

Record tree : Type := MkTree {
  nodes : list node;           (* the store: node identity = index *)
  seed_node : nat;
  taxon_namespace : namespace;
  is_rooted : bool
}.

Definition node_at (ns : list node) (id : nat) : node :=
  default new_node (ns !! id).

Definition update (f : node -> node) (id : nat) (ns : list node) : list node :=
  alter f id ns.

Definition set_parent (p : option nat) (nd : node) : node :=
  {| parent_node := p; child_nodes := child_nodes nd;
     edge_length := edge_length nd; birth_rate := birth_rate nd;
     death_rate := death_rate nd; extinct_attr := extinct_attr nd;
     taxon := taxon nd |}.

Definition set_children (c : list nat) (nd : node) : node :=
  {| parent_node := parent_node nd; child_nodes := c;
     edge_length := edge_length nd; birth_rate := birth_rate nd;
     death_rate := death_rate nd; extinct_attr := extinct_attr nd;
     taxon := taxon nd |}.

Definition set_length (l : option Q) (nd : node) : node :=
  {| parent_node := parent_node nd; child_nodes := child_nodes nd;
     edge_length := l; birth_rate := birth_rate nd;
     death_rate := death_rate nd; extinct_attr := extinct_attr nd;
     taxon := taxon nd |}.

Definition set_rates (b d : option Q) (nd : node) : node :=
  {| parent_node := parent_node nd; child_nodes := child_nodes nd;
     edge_length := edge_length nd; birth_rate := b;
     death_rate := d; extinct_attr := extinct_attr nd;
     taxon := taxon nd |}.

Definition set_extinct_attr (a : attr) (nd : node) : node :=
  {| parent_node := parent_node nd; child_nodes := child_nodes nd;
     edge_length := edge_length nd; birth_rate := birth_rate nd;
     death_rate := death_rate nd; extinct_attr := a;
     taxon := taxon nd |}.

Definition set_taxon (t : option string) (nd : node) : node :=
  {| parent_node := parent_node nd; child_nodes := child_nodes nd;
     edge_length := edge_length nd; birth_rate := birth_rate nd;
     death_rate := death_rate nd; extinct_attr := extinct_attr nd;
     taxon := t |}.

(** Modelled from the spec: [Node.new_child] is the tree library's
    (spec 6, create-children-on-a-node): a fresh node is allocated, made
    the last child of [p], and returned. *)
Definition new_child (p : nat) (ns : list node) : nat * list node :=
  let c := length ns in
  (c, update (fun nd => set_children (child_nodes nd ++ [c]) nd) p ns
        ++ [set_parent (Some p) new_node]).

(** Modelled from the spec: [Node.clear_child_nodes] is the tree library's
    (spec 4.3, restore the endpoint as a childless tip). *)
Definition clear_child_nodes (p : nat) (ns : list node) : list node :=
  update (set_children []) p ns.

(** Modelled from the spec: pre-order traversal (spec 6), the order of
    [for nd in tree] and of [nd.preorder_iter()].  The fuel bounds the
    depth; the number of nodes of the store is enough for a tree. *)
Fixpoint preorder (fuel : nat) (ns : list node) (id : nat) : list nat :=
  match fuel with
  | O => []
  | S fuel' => id :: flat_map (preorder fuel' ns) (child_nodes (node_at ns id))
  end.

Definition preorder_iter (ns : list node) (id : nat) : list nat :=
  preorder (length ns) ns id.

(** Modelled from the spec: enumerate-current-leaves (spec 6),
    [tree.leaf_nodes()]. *)
Definition leaf_nodes (ns : list node) (seed : nat) : list nat :=
  List.filter (fun id => bool_decide (child_nodes (node_at ns id) = []))
              (preorder_iter ns seed).

(** The sum of the edge lengths from a node up to and including the seed
    node's own edge. *)
Fixpoint root_distance (fuel : nat) (ns : list node) (id : nat) : Q :=
  match fuel with
  | O => 0
  | S fuel' =>
      let nd := node_at ns id in
      default 0 (edge_length nd) +
      match parent_node nd with
      | Some p => root_distance fuel' ns p
      | None => 0
      end
  end.

End Tree.

(** ** Keyword arguments *)

Module Kw.

Open Scope Q_scope.

(** The Python values that travel in [**kwargs]. *)
Inductive value : Type :=
| VNone
| VBool (b : bool)
| VInt (z : Z)
| VFloat (q : Q)
| VStr (s : string)
| VTree (t : Tree.tree)
| VNamespace (ns : Tree.namespace)
| VRng (r : Rng.rng).

Definition is_None (v : value) : bool :=
  match v with VNone => true | _ => false end.

(** Truth value of an object in a condition. *)
Definition truthy (v : value) : bool :=
  match v with
  | VNone => false
  | VBool b => b
  | VInt z => negb (z =? 0)%Z
  | VFloat q => negb (Qeq_bool q 0)
  | VStr s => negb (String.eqb s "")
  | VTree _ | VNamespace _ | VRng _ => true
  end.

(** The number behind a value, for ordering comparisons; a bool is an
    int. *)
Definition as_num (v : value) : option Q :=
  match v with
  | VBool b => Some (if b then 1 else 0)
  | VInt z => Some (inject_Z z)
  | VFloat q => Some q
  | _ => None
  end.

(** [a < b], [a <= b], [a >= b]: ordering a number against a value that is
    not a number raises [TypeError]. *)
Definition py_lt (a b : value) : res bool :=
  match as_num a, as_num b with
  | Some x, Some y => Ok (Fit.Qlt_bool x y)
  | _, _ => Raise TypeError
  end.

Definition py_le (a b : value) : res bool :=
  match as_num a, as_num b with
  | Some x, Some y => Ok (Qle_bool x y)
  | _, _ => Raise TypeError
  end.

Definition py_ge (a b : value) : res bool := py_le b a.

(** [a == b] for a number [a]: never raises. *)
Definition py_eq_num (a : Q) (b : value) : bool :=
  match as_num b with
  | Some y => Qeq_bool a y
  | None => false
  end.

Definition len (n : nat) : value := VInt (Z.of_nat n).

Definition has_key (k : string) (kw : gmap string value) : bool :=
  bool_decide (is_Some (kw !! k)).

(** [kwargs.get(k, d)] and [kwargs.pop(k, d)]. *)
Definition get (k : string) (d : value) (kw : gmap string value) : value :=
  default d (kw !! k).

Definition pop (k : string) (d : value) (kw : gmap string value)
  : value * gmap string value :=
  (default d (kw !! k), delete k kw).

(** A dict in a condition is true when it is not empty. *)
Definition nonempty (kw : gmap string value) : bool :=
  negb (bool_decide (size kw = 0%nat)).

End Kw.

(** ** [birth_death_tree] *)

Module BirthDeath.

Import Tree Kw.
Open Scope Q_scope.

(** The local variables bound by the argument handling (lines 132-183).
    The flags are kept as the truth values the later conditions read.
    [extinct_attr_name] only names the extinction attribute, which the
    node record holds in one slot. *)
Record config : Type := MkConfig {
  target_num_extant_tips : value;
  target_num_extinct_tips : value;
  target_num_total_tips : value;
  max_time : value;
  gsa_ntax : value;
  is_add_extinct_attr : bool;
  is_retain_extinct_tips : bool;
  is_assign_extant_taxa : bool;
  is_assign_extinct_taxa : bool;
  repeat_until_success : bool;
  tree_arg : value;
  taxon_namespace_arg : value;
  rng_arg : option value;             (* [None]: [GLOBAL_RNG] *)
  terminate_at_full_tree : bool
}.

(** Lines 171-183. *)
Definition gsa_validation (gsa_ntax target_num_extant_tips
    target_num_extinct_tips target_num_total_tips : value) : res bool :=
  if is_None gsa_ntax then Ok true
  else if is_None target_num_extant_tips then Raise ValueError
  else if negb (is_None target_num_extinct_tips) then Raise ValueError
  else if negb (is_None target_num_total_tips) then Raise ValueError
  else
    b ← py_lt gsa_ntax target_num_extant_tips;
    if (b : bool) then Raise ValueError else Ok false.

(** Lines 132-183. *)
Definition parse_kwargs (kwargs : gmap string value) : res config :=
  if has_key "assign_taxa" kwargs then Raise ValueError
  else if has_key "ntax" kwargs then Raise ValueError
  else if negb (has_key "num_extant_tips" kwargs)
          && negb (has_key "num_extinct_tips" kwargs)
          && negb (has_key "num_total_tips" kwargs)
          && negb (has_key "max_time" kwargs)
  then Raise ValueError
  else
    let '(target_num_extant_tips, kwargs) := pop "num_extant_tips" VNone kwargs in
    let '(target_num_extinct_tips, kwargs) := pop "num_extinct_tips" VNone kwargs in
    let '(target_num_total_tips, kwargs) := pop "num_total_tips" VNone kwargs in
    let '(max_time, kwargs) := pop "max_time" VNone kwargs in
    let '(gsa_ntax, kwargs) := pop "gsa_ntax" VNone kwargs in
    let '(is_add_extinct_attr, kwargs) := pop "is_add_extinct_attr" (VBool true) kwargs in
    let '(extinct_attr_name, kwargs) := pop "extinct_attr_name" (VStr "is_extinct") kwargs in
    let '(is_retain_extinct_tips, kwargs) := pop "is_retain_extinct_tips" (VBool false) kwargs in
    let '(is_assign_extant_taxa, kwargs) := pop "is_assign_extant_taxa" (VBool true) kwargs in
    let '(is_assign_extinct_taxa, kwargs) := pop "is_assign_extinct_taxa" (VBool true) kwargs in
    let '(repeat_until_success, kwargs) := pop "repeat_until_success" (VBool true) kwargs in
    let tree := get "tree" VNone kwargs in
    let taxon_namespace := get "taxon_namespace" VNone kwargs in
    let '(rng, kwargs) := (kwargs !! "rng", delete "rng" kwargs) in
    let '(ignore_unrecognized_keyword_arguments, kwargs) :=
      pop "ignore_unrecognized_keyword_arguments" (VBool false) kwargs in
    if nonempty kwargs && negb (truthy ignore_unrecognized_keyword_arguments)
    then Raise ValueError
    else
      terminate_at_full_tree ←
        gsa_validation gsa_ntax target_num_extant_tips
                       target_num_extinct_tips target_num_total_tips;
      Ok {| target_num_extant_tips := target_num_extant_tips;
            target_num_extinct_tips := target_num_extinct_tips;
            target_num_total_tips := target_num_total_tips;
            max_time := max_time;
            gsa_ntax := gsa_ntax;
            is_add_extinct_attr := truthy is_add_extinct_attr;
            is_retain_extinct_tips := truthy is_retain_extinct_tips;
            is_assign_extant_taxa := truthy is_assign_extant_taxa;
            is_assign_extinct_taxa := truthy is_assign_extinct_taxa;
            repeat_until_success := truthy repeat_until_success;
            tree_arg := tree;
            taxon_namespace_arg := taxon_namespace;
            rng_arg := rng;
            terminate_at_full_tree := terminate_at_full_tree |}.

(** A recorded GSA time slice: the waiting time and, for every extant
    edge (named by its head node), the edge length at the start of the
    slice. *)
Definition time_slice : Type := (Q * list (nat * option Q))%type.

(** The mutable state of a run. *)
Record sim : Type := MkSim {
  store : list node;
  namespace_of : namespace;
  extant_tips : gset nat;
  extinct_tips : gset nat;
  total_time : Q;
  targetted_time_slices : list time_slice;
  rng : Rng.rng
}.

Fixpoint fold_res {A B} (f : A -> B -> res A) (a : A) (l : list B) : res A :=
  match l with
  | [] => Ok a
  | b :: l' => a' ← f a b; fold_res f a' l'
  end.

(** The body of [for nd in tree] at lines 193-204.  [extinct_tips] is a
    set, and [extinct_tips.append] raises [AttributeError]. *)
Definition classify_node (is_add_extinct_attr : bool)
    (acc : list node * gset nat * gset nat) (nd : nat)
  : res (list node * gset nat * gset nat) :=
  let '(ns, extant_tips, extinct_tips) := acc in
  if bool_decide (child_nodes (node_at ns nd) = []) then
    if attr_truthy (extinct_attr (node_at ns nd)) then
      Ok (if is_add_extinct_attr
          then update (set_extinct_attr (IsBool false)) nd ns else ns,
          extant_tips ∪ {[nd]}, extinct_tips)
    else Raise AttributeError
  else if is_add_extinct_attr
       then Ok (update (set_extinct_attr IsNone) nd ns, extant_tips, extinct_tips)
       else Ok acc.

(** Modelled from the spec: [dendropy.TaxonNamespace()], the empty
    namespace of the tree library. *)
Definition fresh_namespace : namespace := {| ns_id := 0; labels := [] |}.

(** Lines 185-216: the tree, its namespace and the two tip sets. *)
Definition initialize (cfg : config) (birth_rate death_rate : Q)
  : res (tree * gset nat * gset nat) :=
  match tree_arg cfg with
  | VTree tree =>
      taxon_namespace ←
        match taxon_namespace_arg cfg with
        | VNone => Ok (Tree.taxon_namespace tree)
        | VNamespace n =>
            if (ns_id n =? ns_id (Tree.taxon_namespace tree))%nat
            then Ok n else Raise AssertionError
        | _ => Raise AssertionError
        end;
      '(ns, extant_tips, extinct_tips) ←
        fold_res (classify_node (is_add_extinct_attr cfg))
                 (nodes tree, ∅, ∅)
                 (preorder_iter (nodes tree) (seed_node tree));
      Ok ({| nodes := ns; seed_node := seed_node tree;
             taxon_namespace := taxon_namespace;
             is_rooted := is_rooted tree |}, extant_tips, extinct_tips)
  | VNone =>
      taxon_namespace ←
        match taxon_namespace_arg cfg with
        | VNone => Ok fresh_namespace
        | VNamespace n => Ok n
        | _ => Raise TypeError
        end;
      let seed :=
        {| parent_node := None; child_nodes := [];
           edge_length := Some 0;
           birth_rate := Some birth_rate;
           death_rate := Some death_rate;
           extinct_attr := if is_add_extinct_attr cfg then IsBool false else Unset;
           taxon := None |} in
      Ok ({| nodes := [seed]; seed_node := 0;
             taxon_namespace := taxon_namespace;
             is_rooted := true |}, {[0%nat]}, ∅)
  | _ => Raise AttributeError
  end.

(** How an iteration of [while True] ends. *)
Inductive signal : Type :=
| Continue
| BreakTermination          (* lines 233-242 *)
| BreakAtSliceRecording     (* line 273 *)
| BreakExtinctWithSlices.   (* line 313 *)

(** [target is not None and n >= target] *)
Definition reached (n : value) (target : value) : res bool :=
  if is_None target then Ok false else py_ge n target.

(** Lines 232-242. *)
Definition termination_check (cfg : config) (st : sim) : res bool :=
  if is_None (gsa_ntax cfg) then
    b ← reached (len (size (extant_tips st))) (target_num_extant_tips cfg);
    if (b : bool) then Ok true else
    b ← reached (len (size (extinct_tips st))) (target_num_extinct_tips cfg);
    if (b : bool) then Ok true else
    b ← reached (len (size (extant_tips st) + size (extinct_tips st)))
                (target_num_total_tips cfg);
    if (b : bool) then Ok true else
    reached (VFloat (total_time st)) (max_time cfg)
  else py_ge (len (size (extant_tips st))) (gsa_ntax cfg).

(** Lines 249-252: a node without a rate takes the process rate. *)
Definition default_rates (birth_rate death_rate : Q) (nd : node) : node :=
  set_rates (Some (default birth_rate (Tree.birth_rate nd)))
            (Some (default death_rate (Tree.death_rate nd))) nd.

(** Lines 246-256: one birth and one death entry for every extant tip. *)
Fixpoint collect_events (birth_rate death_rate : Q) (tips : list nat)
    (ns : list node) : list node * list Q * list (nat * bool) :=
  match tips with
  | [] => (ns, [], [])
  | nd :: tips' =>
      let ns := update (default_rates birth_rate death_rate) nd ns in
      let b := default birth_rate (Tree.birth_rate (node_at ns nd)) in
      let d := default death_rate (Tree.death_rate (node_at ns nd)) in
      let '(ns, event_rates, event_nodes) :=
        collect_events birth_rate death_rate tips' ns in
      (ns, b :: d :: event_rates, (nd, true) :: (nd, false) :: event_nodes)
  end.

(** Lines 276-280: [nd.edge.length += waiting_time], or the waiting time
    itself where the length was [None].  The sum is that of the
    rationals, without the rounding of binary64. *)
Definition add_waiting_time (waiting_time : Q) (nd : node) : node :=
  set_length (Some (match edge_length nd with
                    | Some l => l + waiting_time
                    | None => waiting_time
                    end)) nd.

(** Lines 292-303. *)
Definition birth (cfg : config) (birth_rate_sd death_rate_sd : Q)
    (nd : nat) (st : sim) : sim :=
  let ns := store st in
  let ns := if is_add_extinct_attr cfg
            then update (set_extinct_attr IsNone) nd ns else ns in
  let '(c1, ns) := new_child nd ns in
  let '(c2, ns) := new_child nd ns in
  let ns := update (set_length (Some 0)) c1 ns in
  let ns := update (set_length (Some 0)) c2 ns in
  let nd_birth_rate := default 0 (Tree.birth_rate (node_at ns nd)) in
  let nd_death_rate := default 0 (Tree.death_rate (node_at ns nd)) in
  let '(g1, r) := Rng.gauss 0 birth_rate_sd (rng st) in
  let '(g2, r) := Rng.gauss 0 death_rate_sd r in
  let ns := update (set_rates (Some (nd_birth_rate + g1))
                              (Some (nd_death_rate + g2))) c1 ns in
  let '(g3, r) := Rng.gauss 0 birth_rate_sd r in
  let '(g4, r) := Rng.gauss 0 death_rate_sd r in
  let ns := update (set_rates (Some (nd_birth_rate + g3))
                              (Some (nd_death_rate + g4))) c2 ns in
  {| store := ns;
     namespace_of := namespace_of st;
     extant_tips := extant_tips st ∪ {[c1]} ∪ {[c2]};
     extinct_tips := extinct_tips st;
     total_time := total_time st;
     targetted_time_slices := targetted_time_slices st;
     rng := r |}.

(** Lines 321-324: the body of the loop over the restored extant tips. *)
Definition restart_node (cfg : config) (ns : list node) (nd : nat) : list node :=
  let ns := if is_add_extinct_attr cfg
            then update (set_extinct_attr (IsBool false)) nd ns
            else ns in
  clear_child_nodes nd ns.

(** Lines 319-325: the restart after total extinction.  The two sets are
    rebuilt from the initial sets; the nodes are the same objects. *)
Definition restart (cfg : config)
    (initial_extant_tip_set initial_extinct_tip_set : gset nat) (st : sim) : sim :=
  let extant_tips := initial_extant_tip_set in
  let extinct_tips := initial_extinct_tip_set in
  let ns := foldl (restart_node cfg) (store st) (elements extant_tips) in
  {| store := ns;
     namespace_of := namespace_of st;
     extant_tips := extant_tips;
     extinct_tips := extinct_tips;
     total_time := 0;
     targetted_time_slices := targetted_time_slices st;
     rng := rng st |}.

(** Lines 304-325: a death event of [nd], already removed from
    [extant_tips]. *)
Definition death (cfg : config)
    (initial_extant_tip_set initial_extinct_tip_set : gset nat)
    (nd : nat) (st : sim) : res (signal * sim) :=
  if (0 <? size (extant_tips st))%nat then
    Ok (Continue,
        {| store := if is_add_extinct_attr cfg
                    then update (set_extinct_attr IsNone) nd (store st)
                    else store st;
           namespace_of := namespace_of st;
           extant_tips := extant_tips st;
           extinct_tips := extinct_tips st ∪ {[nd]};
           total_time := total_time st;
           targetted_time_slices := targetted_time_slices st;
           rng := rng st |})
  else if negb (is_None (gsa_ntax cfg))
          && (0 <? length (targetted_time_slices st))%nat
  then Ok (BreakExtinctWithSlices, st)
  else if negb (repeat_until_success cfg)
  then Raise TreeSimTotalExtinctionException
  else Ok (Continue,
           restart cfg initial_extant_tip_set initial_extinct_tip_set st).

(** One iteration of the [while True] loop, lines 232-325. *)
Definition iteration (cfg : config)
    (birth_rate death_rate birth_rate_sd death_rate_sd : Q)
    (initial_extant_tip_set initial_extinct_tip_set : gset nat)
    (st : sim) : res (signal * sim) :=
  stop ← termination_check cfg st;
  if (stop : bool) then Ok (BreakTermination, st) else
  let '(ns, event_rates, event_nodes) :=
    collect_events birth_rate death_rate (elements (extant_tips st)) (store st) in
  let rate_of_any_event := Fit.sumQ event_rates in
  '(waiting_time, r) ← Rng.expovariate rate_of_any_event (rng st);
  let record :=
    negb (is_None (gsa_ntax cfg))
    && py_eq_num (inject_Z (Z.of_nat (size (extant_tips st))))
                 (target_num_extant_tips cfg) in
  let slices :=
    if record
    then targetted_time_slices st ++
         [(waiting_time,
           map (fun nd => (nd, edge_length (node_at ns nd)))
               (elements (extant_tips st)))]
    else targetted_time_slices st in
  if record && terminate_at_full_tree cfg
  then Ok (BreakAtSliceRecording,
           {| store := ns; namespace_of := namespace_of st;
              extant_tips := extant_tips st;
              extinct_tips := extinct_tips st;
              total_time := total_time st;
              targetted_time_slices := slices; rng := r |})
  else
  let ns := foldl (fun ns nd => update (add_waiting_time waiting_time) nd ns)
                  ns (elements (extant_tips st)) in
  let total_time := total_time st + waiting_time in
  let st := {| store := ns; namespace_of := namespace_of st;
               extant_tips := extant_tips st;
               extinct_tips := extinct_tips st;
               total_time := total_time;
               targetted_time_slices := slices; rng := r |} in
  within ← (if is_None (max_time cfg) then Ok true
            else py_le (VFloat total_time) (max_time cfg));
  if (within : bool) then
    let event_rates := map (fun x => x / rate_of_any_event) event_rates in
    '(nd, birth_event, r) ← Probability.weighted_choice event_nodes event_rates r;
    let st := {| store := ns; namespace_of := namespace_of st;
                 extant_tips := extant_tips st ∖ {[nd]};
                 extinct_tips := extinct_tips st;
                 total_time := total_time;
                 targetted_time_slices := slices; rng := r |} in
    if (birth_event : bool)
    then Ok (Continue, birth cfg birth_rate_sd death_rate_sd nd st)
    else death cfg initial_extant_tip_set initial_extinct_tip_set nd st
  else Ok (Continue, st).

(** The [while True] loop.  [None]: the fuel ran out before the loop was
    left. *)
Fixpoint loop (fuel : nat) (cfg : config)
    (birth_rate death_rate birth_rate_sd death_rate_sd : Q)
    (initial_extant_tip_set initial_extinct_tip_set : gset nat)
    (st : sim) : option (res (signal * sim)) :=
  match fuel with
  | O => None
  | S fuel' =>
      match iteration cfg birth_rate death_rate birth_rate_sd death_rate_sd
                      initial_extant_tip_set initial_extinct_tip_set st with
      | Raise e => Some (Raise e)
      | Ok (Continue, st') =>
          loop fuel' cfg birth_rate death_rate birth_rate_sd death_rate_sd
               initial_extant_tip_set initial_extinct_tip_set st'
      | Ok (sig, st') => Some (Ok (sig, st'))
      end
  end.

(** *** GSA finalization, lines 327-355 *)

(** Lines 328-330. *)
Definition total_duration_at_target_n_tax (slices : list time_slice) : Q :=
  foldl (fun acc i => acc + fst i) 0 slices.

(** Lines 332-336: the selection loop.  It has no [break]: every slice at
    which the remainder is negative overwrites [selected_slice]. *)
Fixpoint select_slice (slices : list time_slice) (r : Q)
    (selected_slice : option time_slice) : option time_slice :=
  match slices with
  | [] => selected_slice
  | i :: slices' =>
      let r := r - fst i in
      select_slice slices' r
                   (if Fit.Qlt_bool r 0 then Some i else selected_slice)
  end.

(** Lines 343-349: cut one child of the daughter node loose and forget
    its whole subtree. *)
Definition detach_child (acc : list node * gset nat * gset nat) (nd : nat)
  : list node * gset nat * gset nat :=
  let '(ns, extant_tips, extinct_tips) := acc in
  let ns := update (set_parent None) nd ns in
  let gone : gset nat := list_to_set (nd :: preorder_iter ns nd) in
  (ns, extant_tips ∖ gone, extinct_tips ∖ gone).

(** Lines 341-355: the body of the loop over the edges of the slice. *)
Definition restore_edge (cfg : config) (last_waiting_time : Q)
    (acc : list node * gset nat * gset nat) (edge : nat * option Q)
  : res (list node * gset nat * gset nat) :=
  let '(e, prev_length) := edge in
  let daughter_nd := e in
  let '(ns, extant_tips, extinct_tips) :=
    foldl detach_child acc (child_nodes (node_at (acc.1.1) daughter_nd)) in
  let ns := clear_child_nodes daughter_nd ns in
  let extinct_tips := extinct_tips ∖ {[daughter_nd]} in
  let extant_tips := extant_tips ∪ {[daughter_nd]} in
  let ns := if is_add_extinct_attr cfg
            then update (set_extinct_attr (IsBool false)) daughter_nd ns
            else ns in
  match prev_length with
  | Some l =>
      Ok (update (set_length (Some (l + last_waiting_time))) e ns,
          extant_tips, extinct_tips)
  | None => Raise TypeError
  end.

Definition gsa_finalize (cfg : config) (st : sim) : res sim :=
  let '(u, r) := Rng.random (rng st) in
  let r0 := u * total_duration_at_target_n_tax (targetted_time_slices st) in
  match select_slice (targetted_time_slices st) r0 None with
  | None => Raise AssertionError
  | Some selected_slice =>
      let edges_at_slice := selected_slice.2 in
      let last_waiting_time := selected_slice.1 in
      '(ns, extant_tips, extinct_tips) ←
        fold_res (restore_edge cfg last_waiting_time)
                 (store st, extant_tips st, extinct_tips st) edges_at_slice;
      Ok {| store := ns; namespace_of := namespace_of st;
            extant_tips := extant_tips; extinct_tips := extinct_tips;
            total_time := total_time st;
            targetted_time_slices := targetted_time_slices st;
            rng := r |}
  end.

(** *** Taxon assignment, lines 366-378 *)

(** Modelled from the spec: [TaxonNamespace.require_taxon] is the tree
    library's (spec 6: create taxon if absent by label).  A taxon is its
    label. *)
Definition require_taxon (label : string) (labels : list string) : list string :=
  if bool_decide (label ∈ labels) then labels else labels ++ [label].

(** The body of the inner loop, lines 374-378. *)
Definition assign_taxon (node_pool_label : string)
    (acc : list node * list string * list string) (entry : nat * nat)
  : list node * list string * list string :=
  let '(ns, labels, taxon_pool) := acc in
  let '(node_idx, nd) := entry in
  match reverse taxon_pool with
  | taxon :: rest =>
      (update (set_taxon (Some taxon)) nd ns, labels, reverse rest)
  | [] =>
      let taxon := node_pool_label +:+ pretty (node_idx + 1)%nat in
      (update (set_taxon (Some taxon)) nd ns, require_taxon taxon labels, [])
  end.

Definition assign_taxa (cfg : config) (extant_tips extinct_tips : gset nat)
    (t : tree) : tree :=
  if is_assign_extant_taxa cfg || is_assign_extinct_taxa cfg then
    let taxon_pool := labels (taxon_namespace t) in
    let acc := (nodes t, labels (taxon_namespace t), taxon_pool) in
    let acc := foldl (assign_taxon "T") acc
                     (Fit.enumerate (elements extant_tips)) in
    let '(ns, labels, _) := foldl (assign_taxon "X") acc
                     (Fit.enumerate (elements extinct_tips)) in
    {| nodes := ns; seed_node := seed_node t;
       taxon_namespace := {| ns_id := ns_id (taxon_namespace t); labels := labels |};
       is_rooted := is_rooted t |}
  else t.

(** *** Pruning of extinct tips, lines 357-364 *)

(** Lines 360-361: climb while the parent has this node as its only
    child. *)
Fixpoint climb (fuel : nat) (ns : list node) (nd : nat) : nat :=
  match fuel with
  | O => nd
  | S fuel' =>
      match parent_node (node_at ns nd) with
      | Some p =>
          if (length (child_nodes (node_at ns p)) =? 1)%nat
          then climb fuel' ns p else nd
      | None => nd
      end
  end.

Section TreeLibrary.

(** The two restructuring methods of the tree library, which is not among
    the sources: [tree.prune_subtree(nd, suppress_unifurcations=...)] and
    [tree.suppress_unifurcations()]. *)
Variable prune_subtree : tree -> nat -> bool -> tree.
Variable suppress_unifurcations : tree -> tree.

(** The body of the loop at lines 358-363. *)
Definition prune_extinct (t : tree) (nd : nat) : res tree :=
  if bool_decide (child_nodes (node_at (nodes t) nd) = []) then
    let nd := climb (length (nodes t)) (nodes t) nd in
    match parent_node (node_at (nodes t) nd) with
    | Some _ => Ok (prune_subtree t nd false)
    | None => Ok t
    end
  else Raise AssertionError.

(** What the caller holds after the call. *)
Record outcome : Type := MkOutcome {
  returned : tree;
  rng_after : Rng.rng;          (* the generator that was drawn from *)
  GLOBAL_RNG_after : Rng.rng
}.

(** Line 157: [rng = kwargs.pop('rng', GLOBAL_RNG)].  A value that is not
    a generator fails at its first use; here it fails when it is bound. *)
Definition bind_rng (cfg : config) (GLOBAL_RNG : Rng.rng) : res Rng.rng :=
  match rng_arg cfg with
  | None => Ok GLOBAL_RNG
  | Some (VRng r) => Ok r
  | Some _ => Raise AttributeError
  end.

(** Lines 327-380: everything after the loop. *)
Definition finish (cfg : config) (tree0 : tree) (st : sim) : res (tree * Rng.rng) :=
  st ← (if negb (is_None (gsa_ntax cfg)) then gsa_finalize cfg st else Ok st);
  let t := {| nodes := store st; seed_node := seed_node tree0;
              taxon_namespace := namespace_of st;
              is_rooted := is_rooted tree0 |} in
  t ← (if negb (is_retain_extinct_tips cfg)
       then fold_res prune_extinct t (elements (extinct_tips st))
       else Ok t);
  let t := suppress_unifurcations t in
  Ok (assign_taxa cfg (extant_tips st) (extinct_tips st) t, rng st).

(** Lines 132-325: argument handling, initialization and the loop. *)
Definition grow (birth_rate death_rate birth_rate_sd death_rate_sd : Q)
    (kwargs : gmap string value) (GLOBAL_RNG : Rng.rng) (fuel : nat)
  : option (res (config * tree * signal * sim)) :=
  match parse_kwargs kwargs with
  | Raise e => Some (Raise e)
  | Ok cfg =>
      match initialize cfg birth_rate death_rate with
      | Raise e => Some (Raise e)
      | Ok (tree, extant_tips, extinct_tips) =>
          match bind_rng cfg GLOBAL_RNG with
          | Raise e => Some (Raise e)
          | Ok r =>
              let initial_extant_tip_set := extant_tips in
              let initial_extinct_tip_set := extinct_tips in
              let st := {| store := nodes tree;
                           namespace_of := taxon_namespace tree;
                           extant_tips := extant_tips;
                           extinct_tips := extinct_tips;
                           total_time := 0;
                           targetted_time_slices := [];
                           rng := r |} in
              match loop fuel cfg birth_rate death_rate birth_rate_sd
                         death_rate_sd initial_extant_tip_set
                         initial_extinct_tip_set st with
              | None => None
              | Some (Raise e) => Some (Raise e)
              | Some (Ok (sig, st')) => Some (Ok (cfg, tree, sig, st'))
              end
          end
      end
  end.

Definition birth_death_tree
    (birth_rate death_rate birth_rate_sd death_rate_sd : Q)
    (kwargs : gmap string value) (GLOBAL_RNG : Rng.rng) (fuel : nat)
  : option (res outcome) :=
  match grow birth_rate death_rate birth_rate_sd death_rate_sd
             kwargs GLOBAL_RNG fuel with
  | None => None
  | Some (Raise e) => Some (Raise e)
  | Some (Ok (cfg, tree0, _, st)) =>
      Some ('(t, r) ← finish cfg tree0 st;
            Ok {| returned := t;
                  rng_after := r;
                  GLOBAL_RNG_after :=
                    match rng_arg cfg with None => r | Some _ => GLOBAL_RNG end |})
  end.

End TreeLibrary.

(** *** Vocabulary of the statements about the argument handling *)

(** The keywords that lines 142-167 pop, in that order. *)
Definition popped_keys : list string :=
  ["num_extant_tips"; "num_extinct_tips"; "num_total_tips"; "max_time";
   "gsa_ntax"; "is_add_extinct_attr"; "extinct_attr_name";
   "is_retain_extinct_tips"; "is_assign_extant_taxa";
   "is_assign_extinct_taxa"; "repeat_until_success"; "rng";
   "ignore_unrecognized_keyword_arguments"].

(** What is left of [kwargs] at line 168. *)
Definition leftover (kwargs : gmap string value) : gmap string value :=
  foldl (fun m k => delete k m) kwargs popped_keys.

Definition no_termination_condition (kwargs : gmap string value) : bool :=
  negb (has_key "num_extant_tips" kwargs)
  && negb (has_key "num_extinct_tips" kwargs)
  && negb (has_key "num_total_tips" kwargs)
  && negb (has_key "max_time" kwargs).

Definition removed_keyword (kwargs : gmap string value) : bool :=
  has_key "assign_taxa" kwargs || has_key "ntax" kwargs.

Definition unrecognized_keyword (kwargs : gmap string value) : bool :=
  nonempty (leftover kwargs)
  && negb (truthy (get "ignore_unrecognized_keyword_arguments" (VBool false) kwargs)).

(** A keyword is given when it is passed with a value other than
    [None]. *)
Definition given (k : string) (kwargs : gmap string value) : bool :=
  negb (is_None (get k VNone kwargs)).

Definition gsa_without_extant (kwargs : gmap string value) : bool :=
  given "gsa_ntax" kwargs && negb (given "num_extant_tips" kwargs).

Definition gsa_with_other_target (kwargs : gmap string value) : bool :=
  given "gsa_ntax" kwargs
  && (given "num_extinct_tips" kwargs || given "num_total_tips" kwargs).

Definition gsa_below_extant (kwargs : gmap string value) : bool :=
  given "gsa_ntax" kwargs
  && match as_num (get "gsa_ntax" VNone kwargs),
           as_num (get "num_extant_tips" VNone kwargs) with
     | Some x, Some y => Fit.Qlt_bool x y
     | _, _ => false
     end.

(** The four conditions of the error clause of the specification. *)
Definition claimed_invalid (kwargs : gmap string value) : bool :=
  no_termination_condition kwargs
  || gsa_without_extant kwargs
  || gsa_with_other_target kwargs
  || gsa_below_extant kwargs.

(** The configuration that valid arguments are read into. *)
Definition config_of (kwargs : gmap string value) (terminate_at_full_tree : bool) : config :=
  {| target_num_extant_tips := get "num_extant_tips" VNone kwargs;
     target_num_extinct_tips := get "num_extinct_tips" VNone kwargs;
     target_num_total_tips := get "num_total_tips" VNone kwargs;
     max_time := get "max_time" VNone kwargs;
     gsa_ntax := get "gsa_ntax" VNone kwargs;
     is_add_extinct_attr := truthy (get "is_add_extinct_attr" (VBool true) kwargs);
     is_retain_extinct_tips := truthy (get "is_retain_extinct_tips" (VBool false) kwargs);
     is_assign_extant_taxa := truthy (get "is_assign_extant_taxa" (VBool true) kwargs);
     is_assign_extinct_taxa := truthy (get "is_assign_extinct_taxa" (VBool true) kwargs);
     repeat_until_success := truthy (get "repeat_until_success" (VBool true) kwargs);
     tree_arg := get "tree" VNone kwargs;
     taxon_namespace_arg := get "taxon_namespace" VNone kwargs;
     rng_arg := kwargs !! "rng";
     terminate_at_full_tree := terminate_at_full_tree |}.

(** The selection of the GSA slice as the specification words it: the
    first slice whose cumulative dwell duration exceeds the scaled
    draw. *)
Fixpoint first_slice_exceeding (slices : list time_slice) (r : Q)
  : option time_slice :=
  match slices with
  | [] => None
  | i :: slices' =>
      if Fit.Qlt_bool (r - fst i) 0 then Some i
      else first_slice_exceeding slices' (r - fst i)
  end.

End BirthDeath.

(** ** [discrete_birth_death_tree] *)

Module Discrete.

Import Tree Kw.
Open Scope Q_scope.

Record config : Type := MkConfig {
  target_num_taxa : value;
  target_num_gens : value;
  taxon_namespace_of : namespace;
  repeat_until_success : bool;
  rng_arg : option value;             (* [None]: [GLOBAL_RNG] *)
  assign_taxa : bool
}.

(** Lines 435-450.  [kwargs] is only read, never popped. *)
Definition parse_kwargs (kwargs : gmap string value) : res config :=
  if negb (has_key "ntax" kwargs)
     && negb (has_key "taxon_namespace" kwargs)
     && negb (has_key "max_time" kwargs)
  then Raise ValueError
  else
    let target_num_gens := get "max_time" VNone kwargs in
    '(taxon_namespace, target_num_taxa) ←
      (if has_key "taxon_namespace" kwargs then
         match get "taxon_namespace" VNone kwargs with
         | VNamespace n =>
             Ok (Some n, get "ntax" (len (length (labels n))) kwargs)
         | _ => Raise TypeError
         end
       else if has_key "ntax" kwargs then Ok (None, get "ntax" VNone kwargs)
       else Ok (None, VNone));
    let taxon_namespace := default BirthDeath.fresh_namespace taxon_namespace in
    Ok {| target_num_taxa := target_num_taxa;
          target_num_gens := target_num_gens;
          taxon_namespace_of := taxon_namespace;
          repeat_until_success :=
            truthy (get "repeat_until_success" (VBool false) kwargs);
          rng_arg := kwargs !! "rng";
          assign_taxa := truthy (get "assign_taxa" (VBool true) kwargs) |}.

(** Lines 453-462. *)
Definition initialize (cfg : config) (kwargs : gmap string value)
    (birth_rate death_rate : Q) : res tree :=
  match kwargs !! "tree" with
  | Some (VTree tree) =>
      if has_key "taxon_namespace" kwargs
         && negb (ns_id (taxon_namespace_of cfg) =? ns_id (taxon_namespace tree))%nat
      then Raise ValueError
      else Ok tree
  | Some _ => Raise AttributeError
  | None =>
      let seed :=
        {| parent_node := None; child_nodes := [];
           edge_length := Some 0;
           birth_rate := Some birth_rate;
           death_rate := Some death_rate;
           extinct_attr := Unset;
           taxon := None |} in
      Ok {| nodes := [seed]; seed_node := 0;
            taxon_namespace := taxon_namespace_of cfg;
            is_rooted := true |}
  end.

(** The mutable state of a run. *)
Record sim : Type := MkSim {
  the_tree : tree;
  num_gens : Z;
  rng : Rng.rng
}.

(** Lines 472-475. *)
Definition add_generation (nd : node) : node :=
  set_length (Some (match edge_length nd with
                    | Some l => l + 1
                    | None => 1
                    end)) nd.

Definition with_nodes (ns : list node) (t : tree) : tree :=
  {| nodes := ns; seed_node := seed_node t;
     taxon_namespace := taxon_namespace t; is_rooted := is_rooted t |}.

Section TreeLibrary.

(** Methods of the tree library, which is not among the sources:
    [tree.prune_subtree(nd)] and
    [tree.randomly_assign_taxa(create_required_taxa=True, rng=rng)]. *)
Variable prune_subtree : tree -> nat -> tree.
Variable randomly_assign_taxa : tree -> Rng.rng -> tree * Rng.rng.

(** Lines 468-494: the body of [for nd in leaf_nodes]. *)
Definition leaf_step (cfg : config)
    (birth_rate death_rate birth_rate_sd death_rate_sd : Q)
    (st : sim) (nd : nat) : res sim :=
  let ns := nodes (the_tree st) in
  let ns := update (BirthDeath.default_rates birth_rate death_rate) nd ns in
  let ns := update add_generation nd ns in
  let '(u, r) := Rng.uniform 0 1 (rng st) in
  let nd_birth_rate := default 0 (Tree.birth_rate (node_at ns nd)) in
  let nd_death_rate := default 0 (Tree.death_rate (node_at ns nd)) in
  if Fit.Qlt_bool u nd_birth_rate then
    let '(c1, ns) := new_child nd ns in
    let '(c2, ns) := new_child nd ns in
    let ns := update (set_length (Some 0)) c1 ns in
    let ns := update (set_length (Some 0)) c2 ns in
    let '(g1, r) := Rng.gauss 0 birth_rate_sd r in
    let '(g2, r) := Rng.gauss 0 death_rate_sd r in
    let ns := update (set_rates (Some (nd_birth_rate + g1))
                                (Some (nd_death_rate + g2))) c1 ns in
    let '(g3, r) := Rng.gauss 0 birth_rate_sd r in
    let '(g4, r) := Rng.gauss 0 death_rate_sd r in
    let ns := update (set_rates (Some (nd_birth_rate + g3))
                                (Some (nd_death_rate + g4))) c2 ns in
    Ok {| the_tree := with_nodes ns (the_tree st);
          num_gens := num_gens st; rng := r |}
  else if Fit.Qlt_bool nd_birth_rate u
          && Fit.Qlt_bool u (nd_birth_rate + nd_death_rate) then
    if negb (nd =? seed_node (the_tree st))%nat then
      Ok {| the_tree := prune_subtree (with_nodes ns (the_tree st)) nd;
            num_gens := num_gens st; rng := r |}
    else if negb (repeat_until_success cfg) then
      Raise TreeSimTotalExtinctionException
    else
      Ok {| the_tree := with_nodes ns (the_tree st);
            num_gens := 0; rng := r |}
  else
    Ok {| the_tree := with_nodes ns (the_tree st);
          num_gens := num_gens st; rng := r |}.

(** Lines 465-466: the condition of the growth loop. *)
Definition keep_growing (cfg : config) (leaf_nodes : list nat) (st : sim)
  : res bool :=
  more_taxa ← (if is_None (target_num_taxa cfg) then Ok true
               else py_lt (len (length leaf_nodes)) (target_num_taxa cfg));
  if (more_taxa : bool) then
    if is_None (target_num_gens cfg) then Ok true
    else py_lt (VInt (num_gens st)) (target_num_gens cfg)
  else Ok false.

(** Lines 465-497: the growth loop. *)
Fixpoint growth (fuel : nat) (cfg : config)
    (birth_rate death_rate birth_rate_sd death_rate_sd : Q)
    (leaf_nodes : list nat) (st : sim) : option (res sim) :=
  match fuel with
  | O => None
  | S fuel' =>
      match keep_growing cfg leaf_nodes st with
      | Raise e => Some (Raise e)
      | Ok false => Some (Ok st)
      | Ok true =>
          match BirthDeath.fold_res
                  (leaf_step cfg birth_rate death_rate
                             birth_rate_sd death_rate_sd) st leaf_nodes with
          | Raise e => Some (Raise e)
          | Ok st =>
              let st := {| the_tree := the_tree st;
                           num_gens := (num_gens st + 1)%Z;
                           rng := rng st |} in
              growth fuel' cfg birth_rate death_rate birth_rate_sd
                     death_rate_sd
                     (Tree.leaf_nodes (nodes (the_tree st))
                                      (seed_node (the_tree st))) st
          end
      end
  end.

(** Lines 503-508: the coda counts quiet generations. *)
Fixpoint coda (fuel : nat) (cfg : config) (birth_rate death_rate : Q)
    (num_gens gens_to_add : Z) (r : Rng.rng) : option (res (Z * Rng.rng)) :=
  match fuel with
  | O => None
  | S fuel' =>
      match (if is_None (target_num_gens cfg) then Ok true
             else py_lt (VInt num_gens) (target_num_gens cfg)) with
      | Raise e => Some (Raise e)
      | Ok false => Some (Ok (gens_to_add, r))
      | Ok true =>
          let '(u, r) := Rng.uniform 0 1 r in
          if Fit.Qlt_bool u (birth_rate + death_rate)
          then Some (Ok (gens_to_add, r))
          else coda fuel' cfg birth_rate death_rate num_gens
                    (gens_to_add + 1)%Z r
      end
  end.

(** Lines 509-510: [nd.edge.length += gens_to_add]; a missing length
    raises [TypeError]. *)
Definition add_coda (gens_to_add : Z) (ns : list node) (nd : nat)
  : res (list node) :=
  match edge_length (node_at ns nd) with
  | Some l => Ok (update (set_length (Some (l + inject_Z gens_to_add))) nd ns)
  | None => Raise TypeError
  end.

Record outcome : Type := MkOutcome {
  returned : tree;
  rng_after : Rng.rng;
  GLOBAL_RNG_after : Rng.rng
}.

Definition bind_rng (cfg : config) (GLOBAL_RNG : Rng.rng) : res Rng.rng :=
  match rng_arg cfg with
  | None => Ok GLOBAL_RNG
  | Some (VRng r) => Ok r
  | Some _ => Raise AttributeError
  end.

Definition discrete_birth_death_tree
    (birth_rate death_rate birth_rate_sd death_rate_sd : Q)
    (kwargs : gmap string value) (GLOBAL_RNG : Rng.rng) (fuel : nat)
  : option (res outcome) :=
  match (cfg ← parse_kwargs kwargs;
         r ← bind_rng cfg GLOBAL_RNG;
         tree ← initialize cfg kwargs birth_rate death_rate;
         Ok (cfg, r, tree)) with
  | Raise e => Some (Raise e)
  | Ok (cfg, r, tree) =>
      let st := {| the_tree := tree; num_gens := 0; rng := r |} in
      match growth fuel cfg birth_rate death_rate birth_rate_sd death_rate_sd
                   (leaf_nodes (nodes tree) (seed_node tree)) st with
      | None => None
      | Some (Raise e) => Some (Raise e)
      | Some (Ok st) =>
          match coda fuel cfg birth_rate death_rate (num_gens st) 0 (rng st) with
          | None => None
          | Some (Raise e) => Some (Raise e)
          | Some (Ok (gens_to_add, r)) =>
              Some (ns ← BirthDeath.fold_res (add_coda gens_to_add)
                          (nodes (the_tree st))
                          (leaf_nodes (nodes (the_tree st))
                                      (seed_node (the_tree st)));
                    let '(t, r) :=
                      if assign_taxa cfg
                      then randomly_assign_taxa (with_nodes ns (the_tree st)) r
                      else (with_nodes ns (the_tree st), r) in
                    Ok {| returned := t;
                          rng_after := r;
                          GLOBAL_RNG_after :=
                            match rng_arg cfg with
                            | None => r
                            | Some _ => GLOBAL_RNG
                            end |})
          end
      end
  end.

End TreeLibrary.

End Discrete.

(** ** An implementation of the tree library's methods

    Modelled from the spec: the restructuring and labelling methods of the
    tree library are not among the sources.  Spec 4.3 and 6: prune a
    subtree, optionally collapsing the unifurcations that result; collapse
    every single-child node of the tree; assign taxa to the leaves at
    random, creating the taxa that are missing.  The simulators take these
    methods as parameters; this implementation instantiates them where a
    statement is evaluated on a concrete run. *)

Module TreeLibrary.

Import Tree.
Open Scope Q_scope.

Definition with_nodes (ns : list node) (t : tree) : tree :=
  {| nodes := ns; seed_node := seed_node t;
     taxon_namespace := taxon_namespace t; is_rooted := is_rooted t |}.

Definition merged_length (child parent : option Q) : option Q :=
  match child, parent with
  | Some x, Some y => Some (x + y)
  | Some x, None => Some x
  | None, y => y
  end.

(** Modelled from the spec: one step of collapsing unifurcations, which
    the sources do not have.  The node [id], when it has exactly one
    child, is taken out: the child takes its place under its parent (or
    as the seed node) and absorbs its edge length. *)
Definition collapse (t : tree) (id : nat) : tree :=
  let ns := nodes t in
  let nd := node_at ns id in
  match child_nodes nd with
  | [c] =>
      let l := merged_length (edge_length (node_at ns c)) (edge_length nd) in
      let ns := update (fun x => set_length l (set_parent (parent_node nd) x)) c ns in
      let ns := update (fun x => set_children [] (set_parent None x)) id ns in
      match parent_node nd with
      | Some p =>
          with_nodes
            (update (fun x =>
                       set_children
                         (map (fun k => if (k =? id)%nat then c else k)
                              (child_nodes x)) x) p ns) t
      | None =>
          {| nodes := ns;
             seed_node := if (seed_node t =? id)%nat then c else seed_node t;
             taxon_namespace := taxon_namespace t;
             is_rooted := is_rooted t |}
      end
  | _ => t
  end.

(** Modelled from the spec: [Tree.suppress_unifurcations], which is not
    among the sources (spec 6, collapse-all-unifurcations). *)
Definition suppress_unifurcations (t : tree) : tree :=
  foldl collapse t (seq 0 (length (nodes t))).

(** Modelled from the spec: [Tree.prune_subtree], which is not among the
    sources (spec 6, prune-subtree, optionally collapsing the resulting
    unifurcations). *)
Definition prune_subtree (t : tree) (nd : nat) (suppress : bool) : tree :=
  match parent_node (node_at (nodes t) nd) with
  | Some p =>
      let ns :=
        update (fun x =>
                  set_children
                    (List.filter (fun k => negb (k =? nd)%nat) (child_nodes x)) x)
               p (nodes t) in
      let ns := update (set_parent None) nd ns in
      if suppress then suppress_unifurcations (with_nodes ns t)
      else with_nodes ns t
  | None => t
  end.

(** Remove and return the element at a position of a pool. *)
Definition take_at (i : nat) (pool : list string) : option string * list string :=
  (pool !! i, take i pool ++ drop (S i) pool).

(** Modelled from the spec: the assignment of one leaf by
    [Tree.randomly_assign_taxa], which is not among the sources: a taxon
    drawn from the pool, or a new one when the pool is exhausted. *)
Definition assign_random (acc : list node * list string * list string * Rng.rng)
    (entry : nat * nat) : list node * list string * list string * Rng.rng :=
  let '(ns, labels, pool, r) := acc in
  let '(idx, nd) := entry in
  match pool with
  | [] =>
      let label := "T" +:+ pretty (idx + 1)%nat in
      (update (set_taxon (Some label)) nd ns,
       BirthDeath.require_taxon label labels, [], r)
  | _ =>
      let '(u, r) := Rng.random r in
      let i := Z.to_nat (Qfloor (u * inject_Z (Z.of_nat (length pool)))) in
      let '(label, pool) := take_at i pool in
      (update (set_taxon label) nd ns, labels, pool, r)
  end.

(** Modelled from the spec: [Tree.randomly_assign_taxa] with
    [create_required_taxa=True], which is not among the sources (spec 4.4,
    taxon assignment that creates new taxa on demand). *)
Definition randomly_assign_taxa (t : tree) (r : Rng.rng) : tree * Rng.rng :=
  let '(ns, labels, _, r) :=
    foldl assign_random
          (nodes t, labels (taxon_namespace t), labels (taxon_namespace t), r)
          (Fit.enumerate (leaf_nodes (nodes t) (seed_node t))) in
  ({| nodes := ns; seed_node := seed_node t;
      taxon_namespace := {| ns_id := ns_id (taxon_namespace t); labels := labels |};
      is_rooted := is_rooted t |}, r).

End TreeLibrary.

(** ** Vocabulary of the statements about whole runs *)

Module Runs.

Import Tree Kw BirthDeath.
Open Scope Q_scope.


Definition waited (w : Q) (tips : list nat) (ns : list node) : list node :=
  foldl (fun ns nd => update (add_waiting_time w) nd ns) ns tips.

(** The generator after a birth, and the four inherited rates. *)
Definition child_rate (parent_rate sd : Q) (r : Rng.rng) (k : nat) : Q :=
  parent_rate + (0 + Rng.gauss01 (Rng.draws r (k + Rng.pos r)) * sd).

Definition ordered (ns : list node) : Prop :=
  forall id c, In c (child_nodes (node_at ns id)) -> (id < c < length ns)%nat.

(** The replacement of a tip by itself followed by its two children. *)
Definition expand (nd L : nat) (x : nat) : list nat :=
  if decide (x = nd) then [nd; L; S L] else [x].

Definition ancestors_before (ns : list node) : Prop :=
  forall id p, parent_node (node_at ns id) = Some p -> (p < id)%nat.



(** The configuration of a run that is bounded by the number of extant
    tips alone. *)
Record extant_target_only (n : nat) (cfg : config) : Prop := {
  eto_extant : target_num_extant_tips cfg = VInt (Z.of_nat n);
  eto_extinct : target_num_extinct_tips cfg = VNone;
  eto_total : target_num_total_tips cfg = VNone;
  eto_max_time : max_time cfg = VNone;
  eto_gsa : gsa_ntax cfg = VNone
}.

Definition draws_in_range (draws : nat -> Rng.draw) : Prop :=
  forall i, 0 <= Rng.u01 (draws i) /\ Rng.u01 (draws i) < 1
            /\ 0 <= Rng.exp1 (draws i).

Definition seed (cfg : config) (birth_rate death_rate : Q) : node :=
  {| parent_node := None; child_nodes := []; edge_length := Some 0;
     birth_rate := Some birth_rate; death_rate := Some death_rate;
     extinct_attr := if is_add_extinct_attr cfg then IsBool false else Unset;
     taxon := None |}.

(** What a caller can observe of a finished call, the global generator
    apart. *)
Definition bd_observable (o : res outcome) : res (tree * Rng.rng) :=
  match o with
  | Ok out => Ok (returned out, rng_after out)
  | Raise e => Raise e
  end.

Definition discrete_observable (o : res Discrete.outcome) : res (tree * Rng.rng) :=
  match o with
  | Ok out => Ok (Discrete.returned out, Discrete.rng_after out)
  | Raise e => Raise e
  end.

End Runs.

(** ** Concrete runs and inputs on which the statements are evaluated *)

Module Examples.

Import Tree Kw BirthDeath.
Open Scope Q_scope.

Definition removed_keyword_example : gmap string value :=
  <["num_extant_tips" := VInt 10]> (<["ntax" := VInt 10]> ∅).

Definition const_rng (u e g : Q) : Rng.rng :=
  {| Rng.draws := fun _ => {| Rng.u01 := u; Rng.exp1 := e; Rng.gauss01 := g |};
     Rng.pos := 0 |}.

Definition gsa_example : gmap string value :=
  <["num_extant_tips" := VInt 2]> (<["gsa_ntax" := VInt 4]> ∅).

Definition extinction_example_config : config :=
  config_of (<["num_extant_tips" := VInt 2]> ∅) true.

Definition extinction_example_state : sim :=
  {| store := [ {| parent_node := None; child_nodes := [];
                   edge_length := Some 0; birth_rate := Some 1;
                   death_rate := Some 1; extinct_attr := IsBool false;
                   taxon := None |} ];
     namespace_of := fresh_namespace;
     extant_tips := {[0%nat]};
     extinct_tips := ∅;
     total_time := 0;
     targetted_time_slices := [];
     rng := const_rng (3 # 4) 1 0 |}.

Definition single_leaf_tree (a : attr) : tree :=
  {| nodes := [ {| parent_node := None; child_nodes := [];
                   edge_length := Some 0; birth_rate := None;
                   death_rate := None; extinct_attr := a;
                   taxon := None |} ];
     seed_node := 0;
     taxon_namespace := fresh_namespace;
     is_rooted := true |}.

Definition caller_tree_example (a : attr) : gmap string value :=
  <["num_extant_tips" := VInt 2]>
    (<["tree" := VTree (single_leaf_tree a)]>
       (<["ignore_unrecognized_keyword_arguments" := VBool true]> ∅)).

(** A GSA run that passes twice through two extant tips: the draws make
    the events a birth, a death, a birth and a birth, and the draw of the
    finalization is 1/4. *)
Definition two_visits : gmap string value :=
  <["num_extant_tips" := VInt 2]> (<["gsa_ntax" := VInt 3]> ∅).

Definition two_visits_rng : Rng.rng :=
  {| Rng.draws := fun i =>
       {| Rng.u01 := match i with
                     | 7%nat => 3 # 8
                     | 15%nat => 1 # 8
                     | _ => 1 # 4
                     end;
          Rng.exp1 := 1; Rng.gauss01 := 0 |};
     Rng.pos := 0 |}.

(** A keyword dictionary that both simulators accept. *)
Definition max_time_only : gmap string value := <["max_time" := VInt 5]> ∅.


(** A generator whose draws make the first event of a run with equal
    birth and death rates a death and the second one a birth: the draw of
    the first event selection is 3/4, every other draw 1/4. *)
Definition death_then_birth_rng : Rng.rng :=
  {| Rng.draws := fun i =>
       {| Rng.u01 := match i with
                     | 1%nat => 3 # 4
                     | _ => 1 # 4
                     end;
          Rng.exp1 := 1; Rng.gauss01 := 0 |};
     Rng.pos := 0 |}.


Definition two_tips : gmap string value := <["num_extant_tips" := VInt 2]> ∅.

(** Keyword arguments with a caller-supplied generator that both
    simulators accept. *)
Definition seeded : gmap string value :=
  <["max_time" := VInt 2]> (<["rng" := VRng (const_rng (1 # 4) 1 0)]> ∅).

End Examples.

(** ** Further definitions: the remaining entry points and the
    vocabulary of the statements about them *)

Module FitTree.
Import Fit.
Open Scope Q_scope.

(** Lines 693-730: [fit_pure_birth_model(tree=tree,
    ultrametricity_precision=...)].  As in [kwargs], the tree is
    represented by the ages that [tree.internal_node_ages] yields at the
    given precision. *)
Definition fit_pure_birth_model_to_tree (tree : list Q) : res estimate :=
  fit_pure_birth_model
    {| kw_tree := Some tree; kw_internal_node_ages := None;
       kw_ignore_likelihood_calculation_failure := None |}.

(** The ages that take part in the estimate besides the largest: those
    that are not negative and smaller than the largest age [a]. *)
Definition smaller_ages (a : Q) (ages : list Q) : list Q :=
  List.filter (fun i => Qlt_bool i a && Qle_bool 0 i) ages.

(** No age is both non-negative and smaller than another age. *)
Definition all_ages_largest (ages : list Q) : Prop :=
  forall a c, In a ages -> In c ages -> 0 <= c -> a <= c.

(** Two results of [fit_pure_birth_model] that a caller cannot tell
    apart: the same exception, or estimates with equal rates and equal
    log-likelihoods. *)
Definition same_estimate (x y : res estimate) : Prop :=
  match x, y with
  | Ok e1, Ok e2 =>
      birth_rate e1 == birth_rate e2 /\ log_likelihood e1 = log_likelihood e2
  | Raise a, Raise b => a = b
  | _, _ => False
  end.

End FitTree.

Module TipSets.
Import Tree Kw BirthDeath Runs.
Open Scope Q_scope.

(** The invariant of the simulation loop on a tree grown from its seed
    node: the leaves below the seed node are the extant and the extinct
    tips, and no tip is both. *)
Record leaves_partitioned (st : sim) : Prop := {
  lp_store : (0 < length (store st))%nat;
  lp_ordered : ordered (store st);
  lp_disjoint : extant_tips st ## extinct_tips st;
  lp_leaves :
    leaf_nodes (store st) 0 ≡ₚ elements (extant_tips st ∪ extinct_tips st)
}.

(** Two stores with the same nodes and the same child lists. *)
Definition same_shape (ns ns' : list node) : Prop :=
  length ns' = length ns
  /\ forall id, child_nodes (node_at ns' id) = child_nodes (node_at ns id).

End TipSets.

Module Uniform.
Import Tree.
Open Scope Q_scope.

(** [uniform_pure_birth_tree], lines 518-542.  [birth_rate] is a float,
    as its default 1.0 is. *)

(** [int(x)] of a float: the integer part, towards zero. *)
Definition py_int (x : Q) : Z := Z.quot (Qnum x) (Z.pos (Qden x)).

(** [seq[i]]: a negative index counts from the end, and an index outside
    the sequence raises [IndexError]. *)
Definition getitem {A} (seq : list A) (i : Z) : res A :=
  let j := if (i <? 0)%Z then (i + Z.of_nat (length seq))%Z else i in
  if (j <? 0)%Z then Raise IndexError
  else match seq !! Z.to_nat j with
       | Some a => Ok a
       | None => Raise IndexError
       end.

(** [rng.choice(seq)] is [seq[int(self.random() * len(seq))]]. *)
Definition choice {A} (seq : list A) (r : Rng.rng) : res (A * Rng.rng) :=
  let '(u, r) := Rng.random r in
  a ← getitem seq (py_int (u * inject_Z (Z.of_nat (length seq))));
  Ok (a, r).

(** [len(leaf_nodes)/birth_rate], with a finite float [birth_rate].  The
    rationals have no infinity: for [float('inf')] the quotient is [0.0],
    and it is [rng.expovariate] that raises [ZeroDivisionError]. *)
Definition rate (leaf_nodes : list nat) (birth_rate : Q) : res Q :=
  if Qeq_bool birth_rate 0 then Raise ZeroDivisionError
  else Ok (inject_Z (Z.of_nat (length leaf_nodes)) / birth_rate).

(** [nd.edge.length += waiting_time]; a missing length raises
    [TypeError].  The sum is that of the rationals, without the rounding
    of binary64. *)
Definition add_waiting_time (waiting_time : Q) (ns : list node) (nd : nat)
  : res (list node) :=
  match edge_length (node_at ns nd) with
  | Some l => Ok (update (set_length (Some (l + waiting_time))) nd ns)
  | None => Raise TypeError
  end.

(** Lines 526-528, and again lines 536-538: a waiting time is drawn and
    added to every leaf. *)
Definition wait (birth_rate : Q) (leaf_nodes : list nat) (ns : list node)
    (r : Rng.rng) : res (list node * Rng.rng) :=
  lambd ← rate leaf_nodes birth_rate;
  '(waiting_time, r) ← Rng.expovariate lambd r;
  ns ← BirthDeath.fold_res (add_waiting_time waiting_time) ns leaf_nodes;
  Ok (ns, r).

(** Lines 526-533: the body of the loop. *)
Definition iteration (birth_rate : Q) (leaf_nodes : list nat) (ns : list node)
    (r : Rng.rng) : res (list node * Rng.rng) :=
  '(ns, r) ← wait birth_rate leaf_nodes ns r;
  '(parent_node, r) ← choice leaf_nodes r;
  let '(c1, ns) := new_child parent_node ns in
  let '(c2, ns) := new_child parent_node ns in
  let ns := update (set_length (Some 0)) c1 ns in
  let ns := update (set_length (Some 0)) c2 ns in
  Ok (ns, r).

(** Lines 525-534: the loop.  [None]: the fuel ran out before the loop
    was left. *)
Fixpoint growth (fuel : nat) (taxon_namespace : namespace) (birth_rate : Q)
    (leaf_nodes : list nat) (ns : list node) (r : Rng.rng)
  : option (res (list node * Rng.rng)) :=
  match fuel with
  | O => None
  | S fuel' =>
      if (length leaf_nodes <? length (labels taxon_namespace))%nat then
        match iteration birth_rate leaf_nodes ns r with
        | Raise e => Some (Raise e)
        | Ok (ns, r) =>
            growth fuel' taxon_namespace birth_rate (Tree.leaf_nodes ns 0) ns r
        end
      else Some (Ok (ns, r))
  end.

(** Lines 539-540: [leaf.taxon = taxon_namespace[idx]]; the namespace is
    indexed as the sequence of its taxa. *)
Definition assign_taxon (taxon_namespace : namespace) (ns : list node)
    (entry : nat * nat) : res (list node) :=
  let '(idx, leaf) := entry in
  taxon ← getitem (labels taxon_namespace) (Z.of_nat idx);
  Ok (update (set_taxon (Some taxon)) leaf ns).

(** Lines 522-523: the tree of the seed node alone. *)
Definition seed : node :=
  {| parent_node := None; child_nodes := []; edge_length := Some 0;
     birth_rate := None; death_rate := None; extinct_attr := Unset;
     taxon := None |}.

(** Lines 518-542.  The result is the tree and the generator that the
    call has advanced: [rng], or [GLOBAL_RNG] where [rng] is [None]. *)
Definition uniform_pure_birth_tree (taxon_namespace : namespace)
    (birth_rate : Q) (rng : option Rng.rng) (GLOBAL_RNG : Rng.rng)
    (fuel : nat) : option (res (tree * Rng.rng)) :=
  let rng := default GLOBAL_RNG rng in
  let ns := [seed] in
  match growth fuel taxon_namespace birth_rate (Tree.leaf_nodes ns 0) ns rng with
  | None => None
  | Some (Raise e) => Some (Raise e)
  | Some (Ok (ns, r)) =>
      let leaf_nodes := Tree.leaf_nodes ns 0 in
      Some ('(ns, r) ← wait birth_rate leaf_nodes ns r;
            ns ← BirthDeath.fold_res (assign_taxon taxon_namespace) ns
                   (Fit.enumerate leaf_nodes);
            Ok ({| nodes := ns; seed_node := 0;
                   taxon_namespace := taxon_namespace;
                   is_rooted := true |}, r))
  end.

(** The sum of the first [n] waiting times of a run with a unit birth
    rate: the draw at every second position from [p] on, divided by the
    number of leaves at that point. *)
Fixpoint unit_height (draws : nat -> Rng.draw) (p n : nat) : Q :=
  match n with
  | O => 0
  | S k => unit_height draws p k
           + Rng.exp1 (draws (p + 2 * k)%nat) / inject_Z (Z.of_nat (S k))
  end.

(** The state of the loop after [k] iterations of a run that started at
    the draw [p] with the birth rate [b]. *)
Record grown (b : Q) (draws : nat -> Rng.draw) (p k : nat)
    (ns : list node) (r : Rng.rng) : Prop := {
  gr_size : length ns = S (2 * k);
  gr_ordered : Runs.ordered ns;
  gr_parent :
    forall id q, parent_node (node_at ns id) = Some q ->
      (q < id)%nat /\ child_nodes (node_at ns q) <> [];
  gr_length :
    forall id, (id < length ns)%nat -> is_Some (edge_length (node_at ns id));
  gr_bifurcating :
    forall id, child_nodes (node_at ns id) = []
               \/ length (child_nodes (node_at ns id)) = 2%nat;
  gr_taxon : forall id, taxon (node_at ns id) = None;
  gr_leaves : length (leaf_nodes ns 0) = S k;
  gr_distinct : NoDup (leaf_nodes ns 0);
  gr_distance :
    forall id, id ∈ leaf_nodes ns 0 ->
      root_distance (length ns) ns id == b * unit_height draws p k;
  gr_draws : Rng.draws r = draws;
  gr_pos : Rng.pos r = (p + 2 * k)%nat
}.

(** Lines 530-533: the store after the leaf [nd] has been given its two
    children. *)
Definition split_leaf (nd : nat) (ns : list node) : list node :=
  let '(c1, ns) := new_child nd ns in
  let '(c2, ns) := new_child nd ns in
  let ns := update (set_length (Some 0)) c1 ns in
  update (set_length (Some 0)) c2 ns.

(** A child as lines 530-533 leave it. *)
Definition child_of (nd : nat) : node :=
  {| parent_node := Some nd; child_nodes := []; edge_length := Some 0;
     birth_rate := None; death_rate := None; extinct_attr := Unset;
     taxon := None |}.

(** The store after the entries of [enumerate(leaf_nodes)] have been
    given the taxa at their indices. *)
Definition labelled (taxon_namespace : namespace) (ns : list node)
    (entries : list (nat * nat)) : list node :=
  foldl (fun ns e => update (set_taxon (labels taxon_namespace !! e.1)) e.2 ns)
        ns entries.

(** The labels that the leaves carry, in the order of [tree.leaf_nodes()]. *)
Definition leaf_labels (t : tree) : list (option string) :=
  map (fun id => taxon (node_at (nodes t) id)) (leaf_nodes (nodes t) (seed_node t)).

(** A namespace of three taxa, on which the statements are evaluated. *)
Definition three_taxa : namespace :=
  {| ns_id := 1; labels := ["A"; "B"; "C"]%string |}.

End Uniform.

Module DiscreteRuns.
Import Tree Kw.
Open Scope Q_scope.

(** The tree of a run of [discrete_birth_death_tree] that has seen no
    birth: the seed node alone, [l] generations old. *)
Definition lone_seed (cfg : Discrete.config) (b d l : Q) : tree :=
  {| nodes := [ {| parent_node := None; child_nodes := [];
                   edge_length := Some l; birth_rate := Some b;
                   death_rate := Some d; extinct_attr := Unset;
                   taxon := None |} ];
     seed_node := 0;
     taxon_namespace := Discrete.taxon_namespace_of cfg;
     is_rooted := true |}.

End DiscreteRuns.

Module SeedRuns.
Import Tree Kw BirthDeath.
Open Scope Q_scope.

(** The seed node of a fresh tree while it is the only node: its rates
    are those of the call; its edge length and its extinction attribute
    change. *)
Definition lone_tip (b d : Q) (l : option Q) (a : attr) : node :=
  {| parent_node := None; child_nodes := []; edge_length := l;
     birth_rate := Some b; death_rate := Some d; extinct_attr := a;
     taxon := None |}.

(** The state of a run on a fresh tree each time it is at its start: one
    extant tip, the seed node, and no time elapsed. *)
Definition at_start (b d : Q) (l : option Q) (a : attr) (ns : namespace)
    (r : Rng.rng) : sim :=
  {| store := [lone_tip b d l a]; namespace_of := ns;
     extant_tips := {[0%nat]}; extinct_tips := ∅; total_time := 0;
     targetted_time_slices := []; rng := r |}.

(** The first test of the loop, lines 232-242, does not end the run: no
    target is met by one extant tip and no elapsed time. *)
Definition starts (cfg : config) : Prop :=
  forall b d l a ns r, termination_check cfg (at_start b d l a ns r) = Ok false.

End SeedRuns.

(** ** [birth_death_tree] with the iteration order of the tip sets left open

    [extant_tips] and [extinct_tips] are Python sets of node objects.  An
    object hashes by its identity unless its class says otherwise, so the
    order in which [for nd in extant_tips] visits the nodes follows from
    where the nodes lie in memory, not from the arguments of the call or
    the seed of the generator; what Python fixes is that a set that is
    not modified is visited in the same order each time.  [BirthDeath]
    visits a set in the order of its [elements]; here the same lines are
    embedded with the order as a parameter, a function of the set, and
    [BirthDeath] is the instance at [elements]. *)

Module SetOrder.

Import Tree Kw BirthDeath.
Open Scope Q_scope.

(** An iteration order visits every member of the set once. *)
Definition valid (order : gset nat -> list nat) : Prop :=
  forall X, order X ≡ₚ elements X.

Section Order.

Variable order : gset nat -> list nat.

(** Lines 319-325. *)
Definition restart (cfg : config)
    (initial_extant_tip_set initial_extinct_tip_set : gset nat) (st : sim) : sim :=
  let extant_tips := initial_extant_tip_set in
  let extinct_tips := initial_extinct_tip_set in
  let ns := foldl (restart_node cfg) (store st) (order extant_tips) in
  {| store := ns;
     namespace_of := namespace_of st;
     extant_tips := extant_tips;
     extinct_tips := extinct_tips;
     total_time := 0;
     targetted_time_slices := targetted_time_slices st;
     rng := rng st |}.

(** Lines 304-325. *)
Definition death (cfg : config)
    (initial_extant_tip_set initial_extinct_tip_set : gset nat)
    (nd : nat) (st : sim) : res (signal * sim) :=
  if (0 <? size (extant_tips st))%nat then
    Ok (Continue,
        {| store := if is_add_extinct_attr cfg
                    then update (set_extinct_attr IsNone) nd (store st)
                    else store st;
           namespace_of := namespace_of st;
           extant_tips := extant_tips st;
           extinct_tips := extinct_tips st ∪ {[nd]};
           total_time := total_time st;
           targetted_time_slices := targetted_time_slices st;
           rng := rng st |})
  else if negb (is_None (gsa_ntax cfg))
          && (0 <? length (targetted_time_slices st))%nat
  then Ok (BreakExtinctWithSlices, st)
  else if negb (repeat_until_success cfg)
  then Raise TreeSimTotalExtinctionException
  else Ok (Continue,
           restart cfg initial_extant_tip_set initial_extinct_tip_set st).

(** Lines 232-325: [extant_tips] is iterated at lines 248, 268 and 276,
    and the position of a node at line 248 is its position among the
    events that line 289 selects from. *)
Definition iteration (cfg : config)
    (birth_rate death_rate birth_rate_sd death_rate_sd : Q)
    (initial_extant_tip_set initial_extinct_tip_set : gset nat)
    (st : sim) : res (signal * sim) :=
  stop ← termination_check cfg st;
  if (stop : bool) then Ok (BreakTermination, st) else
  let '(ns, event_rates, event_nodes) :=
    collect_events birth_rate death_rate (order (extant_tips st)) (store st) in
  let rate_of_any_event := Fit.sumQ event_rates in
  '(waiting_time, r) ← Rng.expovariate rate_of_any_event (rng st);
  let record :=
    negb (is_None (gsa_ntax cfg))
    && py_eq_num (inject_Z (Z.of_nat (size (extant_tips st))))
                 (target_num_extant_tips cfg) in
  let slices :=
    if record
    then targetted_time_slices st ++
         [(waiting_time,
           map (fun nd => (nd, edge_length (node_at ns nd)))
               (order (extant_tips st)))]
    else targetted_time_slices st in
  if record && terminate_at_full_tree cfg
  then Ok (BreakAtSliceRecording,
           {| store := ns; namespace_of := namespace_of st;
              extant_tips := extant_tips st;
              extinct_tips := extinct_tips st;
              total_time := total_time st;
              targetted_time_slices := slices; rng := r |})
  else
  let ns := foldl (fun ns nd => update (add_waiting_time waiting_time) nd ns)
                  ns (order (extant_tips st)) in
  let total_time := total_time st + waiting_time in
  let st := {| store := ns; namespace_of := namespace_of st;
               extant_tips := extant_tips st;
               extinct_tips := extinct_tips st;
               total_time := total_time;
               targetted_time_slices := slices; rng := r |} in
  within ← (if is_None (max_time cfg) then Ok true
            else py_le (VFloat total_time) (max_time cfg));
  if (within : bool) then
    let event_rates := map (fun x => x / rate_of_any_event) event_rates in
    '(nd, birth_event, r) ← Probability.weighted_choice event_nodes event_rates r;
    let st := {| store := ns; namespace_of := namespace_of st;
                 extant_tips := extant_tips st ∖ {[nd]};
                 extinct_tips := extinct_tips st;
                 total_time := total_time;
                 targetted_time_slices := slices; rng := r |} in
    if (birth_event : bool)
    then Ok (Continue, birth cfg birth_rate_sd death_rate_sd nd st)
    else death cfg initial_extant_tip_set initial_extinct_tip_set nd st
  else Ok (Continue, st).

(** The [while True] loop. *)
Fixpoint loop (fuel : nat) (cfg : config)
    (birth_rate death_rate birth_rate_sd death_rate_sd : Q)
    (initial_extant_tip_set initial_extinct_tip_set : gset nat)
    (st : sim) : option (res (signal * sim)) :=
  match fuel with
  | O => None
  | S fuel' =>
      match iteration cfg birth_rate death_rate birth_rate_sd death_rate_sd
                      initial_extant_tip_set initial_extinct_tip_set st with
      | Raise e => Some (Raise e)
      | Ok (Continue, st') =>
          loop fuel' cfg birth_rate death_rate birth_rate_sd death_rate_sd
               initial_extant_tip_set initial_extinct_tip_set st'
      | Ok (sig, st') => Some (Ok (sig, st'))
      end
  end.

(** Lines 366-378. *)
Definition assign_taxa (cfg : config) (extant_tips extinct_tips : gset nat)
    (t : tree) : tree :=
  if is_assign_extant_taxa cfg || is_assign_extinct_taxa cfg then
    let taxon_pool := labels (taxon_namespace t) in
    let acc := (nodes t, labels (taxon_namespace t), taxon_pool) in
    let acc := foldl (assign_taxon "T") acc
                     (Fit.enumerate (order extant_tips)) in
    let '(ns, labels, _) := foldl (assign_taxon "X") acc
                     (Fit.enumerate (order extinct_tips)) in
    {| nodes := ns; seed_node := seed_node t;
       taxon_namespace := {| ns_id := ns_id (taxon_namespace t); labels := labels |};
       is_rooted := is_rooted t |}
  else t.

Section TreeLibrary.

Variable prune_subtree : tree -> nat -> bool -> tree.
Variable suppress_unifurcations : tree -> tree.

(** Lines 327-380. *)
Definition finish (cfg : config) (tree0 : tree) (st : sim) : res (tree * Rng.rng) :=
  st ← (if negb (is_None (gsa_ntax cfg)) then gsa_finalize cfg st else Ok st);
  let t := {| nodes := store st; seed_node := seed_node tree0;
              taxon_namespace := namespace_of st;
              is_rooted := is_rooted tree0 |} in
  t ← (if negb (is_retain_extinct_tips cfg)
       then fold_res (prune_extinct prune_subtree) t (order (extinct_tips st))
       else Ok t);
  let t := suppress_unifurcations t in
  Ok (assign_taxa cfg (extant_tips st) (extinct_tips st) t, rng st).

(** Lines 132-325. *)
Definition grow (birth_rate death_rate birth_rate_sd death_rate_sd : Q)
    (kwargs : gmap string value) (GLOBAL_RNG : Rng.rng) (fuel : nat)
  : option (res (config * tree * signal * sim)) :=
  match parse_kwargs kwargs with
  | Raise e => Some (Raise e)
  | Ok cfg =>
      match initialize cfg birth_rate death_rate with
      | Raise e => Some (Raise e)
      | Ok (tree, extant_tips, extinct_tips) =>
          match bind_rng cfg GLOBAL_RNG with
          | Raise e => Some (Raise e)
          | Ok r =>
              let initial_extant_tip_set := extant_tips in
              let initial_extinct_tip_set := extinct_tips in
              let st := {| store := nodes tree;
                           namespace_of := taxon_namespace tree;
                           extant_tips := extant_tips;
                           extinct_tips := extinct_tips;
                           total_time := 0;
                           targetted_time_slices := [];
                           rng := r |} in
              match loop fuel cfg birth_rate death_rate birth_rate_sd
                         death_rate_sd initial_extant_tip_set
                         initial_extinct_tip_set st with
              | None => None
              | Some (Raise e) => Some (Raise e)
              | Some (Ok (sig, st')) => Some (Ok (cfg, tree, sig, st'))
              end
          end
      end
  end.

Definition birth_death_tree
    (birth_rate death_rate birth_rate_sd death_rate_sd : Q)
    (kwargs : gmap string value) (GLOBAL_RNG : Rng.rng) (fuel : nat)
  : option (res outcome) :=
  match grow birth_rate death_rate birth_rate_sd death_rate_sd
             kwargs GLOBAL_RNG fuel with
  | None => None
  | Some (Raise e) => Some (Raise e)
  | Some (Ok (cfg, tree0, _, st)) =>
      Some ('(t, r) ← finish cfg tree0 st;
            Ok {| returned := t;
                  rng_after := r;
                  GLOBAL_RNG_after :=
                    match rng_arg cfg with None => r | Some _ => GLOBAL_RNG end |})
  end.

End TreeLibrary.

End Order.

(** An order other than that of [elements]: by ascending node identity. *)
Fixpoint insert_asc (a : nat) (l : list nat) : list nat :=
  match l with
  | [] => [a]
  | b :: l' => if (a <=? b)%nat then a :: l else b :: insert_asc a l'
  end.

Definition ascending (X : gset nat) : list nat :=
  foldr insert_asc [] (elements X).

(** The number of edges between a node and the root of its tree. *)
Fixpoint depth (fuel : nat) (ns : list node) (id : nat) : nat :=
  match fuel with
  | O => O
  | S fuel' =>
      match parent_node (node_at ns id) with
      | Some p => S (depth fuel' ns p)
      | None => O
      end
  end.

(** The depths of the leaves of a tree: two trees of the same shape have
    the same depths, up to their order. *)
Definition leaf_depths (t : tree) : list nat :=
  map (depth (length (nodes t)) (nodes t))
      (leaf_nodes (nodes t) (seed_node t)).

(** Keyword arguments with a target of four extant tips and a
    caller-supplied generator. *)
Definition seeded_four_tips : gmap string value :=
  <["num_extant_tips" := VInt 4]>
    (<["rng" := VRng (Examples.const_rng (1 # 8) 1 0)]> ∅).

End SetOrder.

(** ** Vocabulary of the statements about [max_time] and about the
    taxon assignment *)

Module Censoring.
Import Tree Kw BirthDeath.
Open Scope Q_scope.

(** A run that [max_time] alone limits, a number [T]. *)
Record max_time_only (T : Q) (cfg : config) : Prop := {
  mto_extant : target_num_extant_tips cfg = VNone;
  mto_extinct : target_num_extinct_tips cfg = VNone;
  mto_total : target_num_total_tips cfg = VNone;
  mto_max_time : as_num (max_time cfg) = Some T;
  mto_gsa : gsa_ntax cfg = VNone
}.

(** Keyword arguments with a [max_time] of 1/4 alone. *)
Definition quarter : gmap string value := <["max_time" := VFloat (1 # 4)]> ∅.

End Censoring.

Module Labelling.
Import Tree.

(** The store after every entry [(idx, nd)] of an enumerated pool of
    nodes has been given the taxon [f idx]. *)
Definition tagged (f : nat -> option string) (ns : list node)
    (entries : list (nat * nat)) : list node :=
  foldl (fun ns e => update (set_taxon (f e.1)) e.2 ns) ns entries.

(** The label that line 377 makes for the node at [node_idx] of a
    pool. *)
Definition made_label (node_pool_label : string) (node_idx : nat) : string :=
  node_pool_label +:+ pretty (node_idx + 1)%nat.

(** The labels made for a pool of [n] nodes, in the order of the pool. *)
Definition made_labels (node_pool_label : string) (n : nat) : list string :=
  map (made_label node_pool_label) (seq 0 n).

(** The taxa of some nodes of a tree. *)
Definition taxa_of (t : tree) (tips : list nat) : list (option string) :=
  map (fun id => taxon (node_at (nodes t) id)) tips.

(** A tree of four nodes without taxa: a root and its three children. *)
Definition three_children : tree :=
  {| nodes := [set_children [1; 2; 3]%nat new_node;
               set_parent (Some 0%nat) new_node;
               set_parent (Some 0%nat) new_node;
               set_parent (Some 0%nat) new_node];
     seed_node := 0;
     taxon_namespace := BirthDeath.fresh_namespace;
     is_rooted := true |}.

(** Keyword arguments that switch off the taxa of the extant tips
    only. *)
Definition extinct_taxa_only : gmap string Kw.value :=
  <["is_assign_extant_taxa" := Kw.VBool false]> Examples.two_tips.

End Labelling.

(** * Properties *)

(** ** Facts about [fit_pure_birth_model] *)

Module FitFacts.

Import Fit.
Open Scope Q_scope.

Lemma Qlt_bool_iff a b : Qlt_bool a b = true <-> a < b.
Proof.
  unfold Qlt_bool. rewrite negb_true_iff.
  destruct (Qle_bool b a) eqn:E.
  - apply Qle_bool_iff in E. split; [discriminate | lra].
  - split; [intros _ | reflexivity].
    destruct (Qlt_le_dec a b) as [H | H]; [exact H |].
    apply Qle_bool_iff in H. congruence.
Qed.

Lemma Qle_bool_false a b : Qle_bool a b = false <-> b < a.
Proof.
  rewrite <- Qlt_bool_iff. unfold Qlt_bool.
  destruct (Qle_bool a b); simpl; split; congruence.
Qed.

Lemma foldl_Qplus acc l : foldl Qplus acc l == acc + sumQ l.
Proof.
  unfold sumQ. revert acc.
  induction l as [| a l IH]; intros acc; simpl.
  - lra.
  - rewrite IH, (IH (0 + a)). lra.
Qed.

Lemma sumQ_cons a l : sumQ (a :: l) == a + sumQ l.
Proof. unfold sumQ at 1. simpl. rewrite foldl_Qplus. lra. Qed.

Lemma sumQ_app l1 l2 : sumQ (l1 ++ l2) == sumQ l1 + sumQ l2.
Proof.
  induction l1 as [| a l1 IH]; simpl.
  - unfold sumQ at 2. simpl. lra.
  - rewrite !sumQ_cons, IH. lra.
Qed.


Lemma insert_desc_perm a l : Permutation (insert_desc a l) (a :: l).
Proof.
  induction l as [| b l IH]; simpl; [reflexivity |].
  destruct (Qle_bool b a); [reflexivity |].
  rewrite IH. apply perm_swap.
Qed.

Lemma sorted_desc_perm l : Permutation (sorted_desc l) l.
Proof.
  induction l as [| a l IH]; simpl; [reflexivity |].
  rewrite insert_desc_perm. by constructor.
Qed.

Lemma insert_desc_sorted a l : desc l -> desc (insert_desc a l).
Proof.
  induction 1 as [| b l Hl IH Hb]; simpl.
  - repeat constructor.
  - destruct (Qle_bool b a) eqn:E.
    + apply Qle_bool_iff in E. constructor; [by constructor |].
      constructor; [exact E |].
      eapply Forall_impl; [exact Hb |]. simpl. intros; lra.
    + apply Qle_bool_false in E. constructor; [exact IH |].
      eapply Permutation_Forall; [symmetry; apply insert_desc_perm |].
      constructor; [lra | exact Hb].
Qed.

Lemma sorted_desc_sorted l : desc (sorted_desc l).
Proof.
  induction l as [| a l IH]; simpl; [constructor | by apply insert_desc_sorted].
Qed.


(** A descending list splits at any threshold [a]: first the elements at
    least [a], then the smaller ones. *)
Lemma desc_split a y :
  desc y ->
  y = List.filter (Qle_bool a) y ++ List.filter (fun i => Qlt_bool i a) y.
Proof.
  induction 1 as [| b l Hl IH Hb]; simpl; [reflexivity |].
  unfold Qlt_bool at 1. destruct (Qle_bool a b) eqn:E; simpl.
  - by rewrite <- IH.
  - apply Qle_bool_false in E.
    assert (H1 : List.filter (Qle_bool a) l = []).
    { clear IH Hl. induction Hb as [| c l Hc Hb IH]; simpl; [reflexivity |].
      assert (Ec : Qle_bool a c = false) by (apply Qle_bool_false; lra).
      by rewrite Ec. }
    rewrite H1 in IH |- *. simpl in *. by rewrite <- IH.
Qed.

Lemma omap_enumerate_prefix (p : Q -> bool) (pre post : list Q) (s n : nat) :
  Forall (fun i => p i = true) pre ->
  Forall (fun i => p i = false) post ->
  n = length (pre ++ post) ->
  omap (fun '(idx, i) => if p i then Some (nvec idx) else None)
       (zip (seq s n) (pre ++ post))
  = map nvec (seq s (length pre)).
Proof.
  intros Hpre Hpost ->. revert s.
  induction Hpre as [| a pre Ha Hpre IH]; intros s; simpl.
  - clear -Hpost. revert s.
    induction Hpost as [| b post Hb Hpost IH]; intros s; simpl; [reflexivity |].
    rewrite Hb. apply IH.
  - rewrite Ha. simpl. f_equal. apply IH.
Qed.

Lemma foldl_max_seq (s m : nat) :
  foldl Z.max (nvec s) (map nvec (seq (S s) m)) = nvec (s + m).
Proof.
  revert s. induction m as [| m IH]; intros s; simpl.
  - f_equal. lia.
  - replace (Z.max (nvec s) (nvec (S s))) with (nvec (S s))
      by (unfold nvec; lia).
    rewrite IH. f_equal. lia.
Qed.

Lemma py_max_nvec (m : nat) :
  py_max (map nvec (seq 0 (S m))) = Ok (nvec m).
Proof. simpl. f_equal. apply foldl_max_seq. Qed.

Lemma filter_all {A} (p : A -> bool) l :
  Forall (fun i => p i = true) l -> List.filter p l = l.
Proof. induction 1 as [| a l Ha _ IH]; simpl; [done | by rewrite Ha, IH]. Qed.

Lemma filter_none {A} (p : A -> bool) l :
  Forall (fun i => p i = false) l -> List.filter p l = [].
Proof. induction 1 as [| a l Ha _ IH]; simpl; [done | by rewrite Ha]. Qed.

Lemma Forall_filter {A} (p : A -> bool) l :
  Forall (fun i => p i = true) (List.filter p l).
Proof.
  induction l as [| a l IH]; simpl; [constructor |].
  destruct (p a) eqn:E; [by constructor | exact IH].
Qed.

Lemma sumQ_map_minus0 l : sumQ (map (fun i => i - 0) l) == sumQ l.
Proof.
  induction l as [| a l IH]; cbn [map]; [reflexivity |].
  rewrite !sumQ_cons, IH. lra.
Qed.

Lemma sumQ_const (a : Q) l :
  Forall (fun i => i == a) l -> sumQ l == inject_Z (Z.of_nat (length l)) * a.
Proof.
  induction 1 as [| b l Hb _ IH].
  - unfold sumQ. cbn [foldl length]. change (inject_Z (Z.of_nat 0)) with 0. lra.
  - rewrite sumQ_cons, IH, Hb. cbn [length]. rewrite Nat2Z.inj_succ.
    unfold Z.succ. rewrite inject_Z_plus. change (inject_Z 1) with 1. lra.
Qed.

Lemma sumQ_nonneg l : Forall (fun i => 0 <= i) l -> 0 <= sumQ l.
Proof.
  induction 1 as [| b l Hb _ IH].
  - unfold sumQ. simpl. lra.
  - rewrite sumQ_cons. lra.
Qed.



Lemma sorted_desc_length l : length (sorted_desc l) = length l.
Proof. apply Permutation_length, sorted_desc_perm. Qed.

Lemma rate_estimate_desc (ages : list Q) :
  let t := sorted_desc ages in
  let n := tips ages in
  let m := count_largest t in
  Forall (fun a => 0 <= a) ages ->
  (m < n - 1)%Z ->
  exists smax,
    rate_estimate ages = Ok ((m + 1)%Z, n, smax) /\
    smax == inject_Z (n - 1 - m) / (2 * hd 0 t + sumQ (tl t)) /\
    0 < smax.
Proof.
  intros t n m Hnn Hm.
  assert (Hdesc : desc t) by apply sorted_desc_sorted.
  assert (Hnn' : Forall (fun a => 0 <= a) t).
  { eapply Permutation_Forall; [symmetry; apply sorted_desc_perm | exact Hnn]. }
  assert (Hlen : length t = length ages) by apply sorted_desc_length.
  unfold rate_estimate. fold t.
  subst n m. unfold tips, count_largest in *. rewrite <- Hlen in *.
  clearbody t. clear Hlen Hnn ages.
  destruct t as [| a t']; [simpl in Hm; lia |].
  cbn [hd tl] in *.
  set (x := a :: t') in *.
  set (pre := List.filter (Qle_bool a) x) in *.
  set (post := List.filter (fun i => Qlt_bool i a) x).
  assert (Hx : x = pre ++ post) by (apply desc_split; exact Hdesc).
  assert (Hpre : Forall (fun i => Qle_bool a i = true) pre) by apply Forall_filter.
  assert (Hpost : Forall (fun i => Qlt_bool i a = true) post) by apply Forall_filter.
  assert (Hpost' : Forall (fun i => Qle_bool a i = false) post).
  { eapply Forall_impl; [exact Hpost |]. simpl. intros i Hi.
    apply Qle_bool_false, Qlt_bool_iff, Hi. }
  assert (Haa : Qle_bool a a = true) by (apply Qle_bool_iff; lra).
  assert (Hpre_len : exists k, length pre = S k).
  { subst pre x. simpl. rewrite Haa. simpl. eauto. }
  destruct Hpre_len as [k Hk].
  assert (Hlenx : length x = (S k + length post)%nat).
  { rewrite Hx at 1. rewrite length_app. lia. }
  assert (Hpost_len : (1 <= length post)%nat) by lia.
  assert (Hle_a : Forall (fun i => i <= a) x).
  { subst x. inversion Hdesc; subst. constructor; [lra | assumption]. }
  assert (Hpre_eq : Forall (fun i => i == a) pre).
  { apply List.Forall_forall. intros i Hi.
    assert (Hi1 : Qle_bool a i = true) by (eapply List.Forall_forall in Hpre; eauto).
    assert (Hi2 : i <= a).
    { eapply List.Forall_forall in Hle_a; [exact Hle_a |].
      subst pre. apply filter_In in Hi. tauto. }
    apply Qle_bool_iff in Hi1. lra. }
  assert (Ha_pos : 0 < a).
  { destruct post as [| b post']; [simpl in Hpost_len; lia |].
    inversion Hpost as [| ? ? Hb _]; subst.
    apply Qlt_bool_iff in Hb.
    assert (0 <= b).
    { eapply List.Forall_forall in Hnn'; [exact Hnn' |].
      rewrite Hx. apply in_or_app. right. by left. }
    lra. }
  (* the three comprehensions *)
  assert (Env : List.filter (fun i => Qlt_bool i a && Qle_bool 0 i) x = post).
  { subst post. apply filter_ext_in. intros i Hi.
    assert (Qle_bool 0 i = true).
    { apply Qle_bool_iff. eapply List.Forall_forall in Hnn'; eauto. }
    rewrite H. apply andb_true_r. }
  assert (Elo : omap (fun '(idx, i) => if Qle_bool a i then Some (nvec idx) else None)
                     (enumerate x) = map nvec (seq 0 (S k))).
  { unfold enumerate. rewrite Hx at 2. rewrite <- Hk.
    apply (omap_enumerate_prefix (Qle_bool a)); auto. by rewrite <- Hx. }
  assert (Eup : omap (fun '(idx, i) => if Qle_bool 0 i then Some (nvec idx) else None)
                     (enumerate x) = map nvec (seq 0 (S (k + length post)))).
  { unfold enumerate. rewrite <- (app_nil_r x) at 2.
    replace (S (k + length post)) with (length x) by lia.
    apply (omap_enumerate_prefix (Qle_bool 0)).
    - eapply Forall_impl; [exact Hnn' |]. simpl. intros i Hi. by apply Qle_bool_iff.
    - constructor.
    - by rewrite app_nil_r. }
  cbn [mbind res_bind Py.bind].
  rewrite Env, Elo, Eup, !py_max_nvec.
  cbn [mbind res_bind Py.bind hd]. rewrite Haa.
  cbn [map mbind res_bind Py.bind].
  assert (Eslice : slice_from_1 ((a - 0) :: map (fun i => i - 0) post)
                     (nvec (k + length post) - nvec k + 1)
                   = map (fun i => i - 0) post).
  { unfold slice_from_1, nvec.
    replace (2 + Z.of_nat (k + length post) - (2 + Z.of_nat k) + 1)%Z
      with (Z.of_nat (S (length post))) by lia.
    destruct (Z.ltb_spec (Z.of_nat (S (length post))) 0); [lia |].
    rewrite Nat2Z.id. cbn [take drop].
    rewrite firstn_all2 by (rewrite length_map; lia). reflexivity. }
  rewrite Eslice.
  assert (Esum : 2 * a + sumQ t' ==
                 inject_Z (nvec k) * (a - 0) + sumQ (map (fun i => i - 0) post)).
  { rewrite sumQ_map_minus0.
    assert (E1 : sumQ x == a + sumQ t') by apply sumQ_cons.
    assert (E2 : sumQ x == sumQ pre + sumQ post).
    { rewrite Hx at 1. apply sumQ_app. }
    assert (E3 : sumQ pre == inject_Z (Z.of_nat (length pre)) * a)
      by (apply sumQ_const; exact Hpre_eq).
    rewrite Hk in E3. unfold nvec.
    rewrite Nat2Z.inj_succ in E3. unfold Z.succ in E3.
    rewrite inject_Z_plus in *. change (inject_Z 1) with 1 in E3.
    change (inject_Z 2) with 2. lra. }
  assert (Hden : 0 < inject_Z (nvec k) * (a - 0) + sumQ (map (fun i => i - 0) post)).
  { rewrite <- Esum.
    assert (0 <= sumQ t').
    { apply sumQ_nonneg. subst x. by inversion Hnn'. }
    lra. }
  destruct (Qeq_bool _ 0) eqn:Ez.
  { apply Qeq_bool_iff in Ez. lra. }
  eexists. split; [| split].
  - do 2 f_equal. f_equal; unfold nvec; lia.
  - rewrite Esum.
    replace (nvec (k + length post) - nvec k)%Z
      with (Z.of_nat (length x) + 1 - 1 - Z.of_nat (length pre))%Z
      by (unfold nvec; lia).
    reflexivity.
  - apply Qlt_shift_div_l; [exact Hden |].
    rewrite Qmult_0_l. unfold nvec.
    replace 0 with (inject_Z 0) by reflexivity. rewrite <- Zlt_Qlt. lia.
Qed.



Lemma log_terms_defined lo up smax :
  (0 < lo)%Z -> 0 < smax ->
  log_terms lo up smax
  = Ok (sum_log (py_range lo up) + IZR (up - lo) * ln (Q2R smax) + IZR (lo - up))%R.
Proof.
  intros Hlo Hs. unfold log_terms.
  assert (E : forallb (fun i => (0 <? i)%Z) (py_range lo up) = true).
  { apply forallb_forall. intros i Hi. unfold py_range in Hi.
    apply in_map_iff in Hi as (j & <- & _). apply Z.ltb_lt. lia. }
  rewrite E. apply Qlt_bool_iff in Hs. by rewrite Hs.
Qed.

Lemma log_terms_undefined lo up smax :
  log_undefined lo up smax -> log_terms lo up smax = Raise ValueError.
Proof.
  intros H. unfold log_terms.
  destruct (forallb _ _) eqn:E; [| reflexivity].
  destruct H as [H | H].
  - assert (E' : Qlt_bool 0 smax = false).
    { unfold Qlt_bool. apply negb_false_iff, Qle_bool_iff, H. }
    by rewrite E'.
  - apply List.Exists_exists in H as (i & Hi & Hle).
    rewrite forallb_forall in E. apply E, Z.ltb_lt in Hi. lia.
Qed.

Lemma log_terms_raises lo up smax e :
  log_terms lo up smax = Raise e -> e = ValueError.
Proof.
  unfold log_terms. destruct (forallb _ _); [| congruence].
  destruct (Qlt_bool 0 smax); congruence.
Qed.

(** C1 (amended).  For non-negative internal-node ages, floats within
    the range of binary64 (none above [2^500], no positive one below
    [2^-500]),
    sorted descending as [t_1 >= ... >= t_(n-1)] for [n >= 3] tips, of
    which [m] equal the largest age and not all do: the estimated birth
    rate is [(n-1-m) / (2*t_1 + sum of t_k for k from 2 to n-1)], which is
    [(n-2) / ...] when the largest age is unique, and the log-likelihood
    is the sum of [ln i] for [i] from [m+1] to [n-1], plus
    [(n-1-m) * ln(birth_rate) - (n-1-m)].  The two values are those of
    exact arithmetic, which the floats of the program round; outside the
    range the product [lo*nv[0]] can overflow, and the call then returns
    the rate [0.0]. *)
Theorem fit_pure_birth_model_estimate (ages : list Q) (flag : option bool) :
  let t := sorted_desc ages in
  let n := tips ages in
  let m := count_largest t in
  (3 <= n)%Z ->
  Forall (fun a => 0 <= a) ages ->
  in_float_range ages = true ->
  (m < n - 1)%Z ->
  exists rate,
    fit_pure_birth_model
      {| kw_tree := None; kw_internal_node_ages := Some ages;
         kw_ignore_likelihood_calculation_failure := flag |}
    = Ok {| birth_rate := rate;
            log_likelihood :=
              Finite (sum_log (py_range (m + 1) n)
                      + IZR (n - 1 - m) * ln (Q2R rate)
                      - IZR (n - 1 - m))%R |}
    /\ rate == inject_Z (n - 1 - m) / (2 * hd 0 t + sumQ (tl t)).
Proof.
  intros t n m _ Hnn _ Hm.
  destruct (rate_estimate_desc ages Hnn Hm) as (smax & Hest & Hrate & Hpos).
  exists smax. split; [| exact Hrate].
  unfold fit_pure_birth_model. cbn [kw_tree kw_internal_node_ages mbind res_bind Py.bind].
  fold t n m in Hest. rewrite Hest. cbn [mbind res_bind Py.bind].
  rewrite log_terms_defined; [| unfold m, count_largest; lia | exact Hpos].
  cbn [mbind res_bind Py.bind]. do 3 f_equal.
  replace (n - (m + 1))%Z with (n - 1 - m)%Z by lia.
  replace (m + 1 - n)%Z with (- (n - 1 - m))%Z by lia.
  rewrite opp_IZR. lra.
Qed.

Lemma fit_pure_birth_model_estimate_witness :
  exists rate,
    fit_pure_birth_model (ages_only [3; 2; 1])
    = Ok {| birth_rate := rate;
            log_likelihood :=
              Finite (sum_log (py_range 2 4) + IZR 2 * ln (Q2R rate) - IZR 2)%R |}
    /\ rate == 2 # 9.
Proof.
  apply (fit_pure_birth_model_estimate [3; 2; 1] None).
  - vm_compute. discriminate.
  - repeat constructor; discriminate.
  - vm_compute. reflexivity.
  - vm_compute. reflexivity.
Defined.

(** The claimed rate [(n-1) / (2*t_1 + ...)] is not what is returned for
    the ages 3, 2, 1 of a four-tip tree. *)
Lemma fit_pure_birth_model_claimed_rate_refuted :
  exists e,
    fit_pure_birth_model (ages_only [3; 2; 1]) = Ok e /\
    ~ birth_rate e == inject_Z (4 - 1) / (2 * 3 + (2 + 1)).
Proof.
  assert (E : rate_estimate [3; 2; 1] = Ok (2%Z, 4%Z, 2 # 9)) by (vm_compute; reflexivity).
  eexists. split.
  - unfold fit_pure_birth_model, ages_only.
    cbn [kw_tree kw_internal_node_ages mbind res_bind Py.bind].
    rewrite E. cbn [mbind res_bind Py.bind].
    rewrite log_terms_defined by (try lia; reflexivity).
    reflexivity.
  - cbn [birth_rate]. intros H. vm_compute in H. discriminate.
Qed.

(** C7.  When the log-likelihood term of the estimate is undefined (the
    log of a non-positive rate, or of a non-positive count), the call
    returns the estimate with log-likelihood minus infinity by default,
    and raises only in the strict mode selected by a true
    [ignore_likelihood_calculation_failure]. *)
Theorem fit_pure_birth_model_undefined_log
    (tree ages : option (list Q)) (internal_node_ages : list Q)
    (lo up : Z) (smax : Q) :
  match tree with Some a => Some a | None => ages end = Some internal_node_ages ->
  rate_estimate internal_node_ages = Ok (lo, up, smax) ->
  log_undefined lo up smax ->
  fit_pure_birth_model
    {| kw_tree := tree; kw_internal_node_ages := ages;
       kw_ignore_likelihood_calculation_failure := None |}
  = Ok {| birth_rate := smax; log_likelihood := NegInf |}
  /\ fit_pure_birth_model
       {| kw_tree := tree; kw_internal_node_ages := ages;
          kw_ignore_likelihood_calculation_failure := Some false |}
     = Ok {| birth_rate := smax; log_likelihood := NegInf |}
  /\ fit_pure_birth_model
       {| kw_tree := tree; kw_internal_node_ages := ages;
          kw_ignore_likelihood_calculation_failure := Some true |}
     = Raise ValueError.
Proof.
  intros Hages Hest Hlog.
  apply log_terms_undefined in Hlog.
  unfold fit_pure_birth_model.
  cbn [kw_tree kw_internal_node_ages kw_ignore_likelihood_calculation_failure].
  assert (E : match tree with
              | Some a => Ok a
              | None => match ages with
                        | Some a => Ok a
                        | None => Raise TypeError
                        end
              end = Ok internal_node_ages).
  { destruct tree; [congruence |]. destruct ages; congruence. }
  rewrite E. cbn [mbind res_bind Py.bind].
  rewrite Hest. cbn [mbind res_bind Py.bind].
  rewrite Hlog. cbn. auto.
Qed.

Lemma fit_pure_birth_model_undefined_log_witness :
  fit_pure_birth_model (ages_only [1; 1])
  = Ok {| birth_rate := 0 # 3; log_likelihood := NegInf |}
  /\ fit_pure_birth_model
       {| kw_tree := None; kw_internal_node_ages := Some [1; 1];
          kw_ignore_likelihood_calculation_failure := Some false |}
     = Ok {| birth_rate := 0 # 3; log_likelihood := NegInf |}
  /\ fit_pure_birth_model
       {| kw_tree := None; kw_internal_node_ages := Some [1; 1];
          kw_ignore_likelihood_calculation_failure := Some true |}
     = Raise ValueError.
Proof.
  apply (fit_pure_birth_model_undefined_log None (Some [1; 1]) [1; 1] 3 3 (0 # 3)).
  - reflexivity.
  - vm_compute. reflexivity.
  - left. discriminate.
Defined.

End FitFacts.

(** ** Facts about [birth_death_tree] *)

Module BirthDeathFacts.

Import Tree Kw BirthDeath Examples.
Open Scope Q_scope.

Lemma parse_kwargs_eq (kwargs : gmap string value) :
  parse_kwargs kwargs =
  if removed_keyword kwargs then Raise ValueError
  else if no_termination_condition kwargs then Raise ValueError
  else if unrecognized_keyword kwargs then Raise ValueError
  else
    t ← gsa_validation (get "gsa_ntax" VNone kwargs)
                       (get "num_extant_tips" VNone kwargs)
                       (get "num_extinct_tips" VNone kwargs)
                       (get "num_total_tips" VNone kwargs);
    Ok (config_of kwargs t).
Proof.
  unfold parse_kwargs, removed_keyword, unrecognized_keyword, leftover,
    no_termination_condition, config_of, pop, get.
  cbn [foldl popped_keys].
  destruct (has_key "assign_taxa" kwargs); [reflexivity |].
  destruct (has_key "ntax" kwargs); [reflexivity |]. cbn [orb].
  match goal with |- (if ?c then _ else _) = _ => destruct c end; [reflexivity |].
  repeat (rewrite lookup_delete_ne by done).
  reflexivity.
Qed.


Lemma gsa_validation_raises g e x t :
  gsa_validation g e x t = Raise ValueError <->
  negb (is_None g)
  && (is_None e || negb (is_None x) || negb (is_None t)
      || match as_num g, as_num e with
         | Some a, Some b => Fit.Qlt_bool a b
         | _, _ => false
         end) = true.
Proof.
  unfold gsa_validation, py_lt.
  destruct (is_None g); cbn; [split; discriminate |].
  destruct (is_None e); cbn; [done |].
  destruct (is_None x); cbn; [| done].
  destruct (is_None t); cbn; [| done].
  destruct (as_num g); cbn; [| split; discriminate].
  destruct (as_num e); cbn; [| split; discriminate].
  destruct (Fit.Qlt_bool _ _); split; done.
Qed.

Section Claims.

Variable prune_subtree : tree -> nat -> bool -> tree.
Variable suppress_unifurcations : tree -> tree.

(** C6 (amended).  For a call that passes neither [tree] nor
    [taxon_namespace], the argument handling raises [ValueError] exactly
    when one of the four stated conditions holds, or a removed keyword
    ([assign_taxa], [ntax]) is passed, or a keyword that the function does
    not know is passed without a true
    [ignore_unrecognized_keyword_arguments]; the call then returns
    nothing but the exception.  The two keywords are left out because
    lines 154-155 read them with [get] where every other keyword is
    popped, so that they are still in [kwargs] at line 168 and are
    refused as unrecognized, although the function documents and handles
    them. *)
Theorem birth_death_tree_invalid_configuration (kwargs : gmap string value) :
  kwargs !! "tree" = None ->
  kwargs !! "taxon_namespace" = None ->
  (parse_kwargs kwargs = Raise ValueError <->
   removed_keyword kwargs || claimed_invalid kwargs
   || unrecognized_keyword kwargs = true)
  /\ (parse_kwargs kwargs = Raise ValueError ->
      forall birth_rate death_rate birth_rate_sd death_rate_sd GLOBAL_RNG fuel,
        birth_death_tree prune_subtree suppress_unifurcations
          birth_rate death_rate birth_rate_sd death_rate_sd
          kwargs GLOBAL_RNG fuel = Some (Raise ValueError)).
Proof.
  intros _ _. split.
  - rewrite parse_kwargs_eq. unfold claimed_invalid.
    destruct (removed_keyword kwargs); [done |].
    destruct (no_termination_condition kwargs); [done |].
    destruct (unrecognized_keyword kwargs).
    { split; [intros _ | done]. by rewrite !orb_true_r. }
    cbn [orb]. rewrite orb_false_r.
    unfold gsa_without_extant, gsa_with_other_target, gsa_below_extant, given.
    rewrite negb_involutive.
    rewrite <- !andb_orb_distrib_r, !orb_assoc, <- gsa_validation_raises.
    destruct (gsa_validation _ _ _ _); cbn [mbind res_bind Py.bind];
      [split; discriminate | split; congruence].
  - intros H ? ? ? ? ? ?. unfold birth_death_tree, grow. by rewrite H.
Qed.

End Claims.

Lemma birth_death_tree_invalid_configuration_witness :
  parse_kwargs removed_keyword_example = Raise ValueError
  /\ birth_death_tree TreeLibrary.prune_subtree
       TreeLibrary.suppress_unifurcations 1 0 0 0 removed_keyword_example
       (const_rng (1 # 4) 1 0) 5 = Some (Raise ValueError).
Proof.
  destruct (birth_death_tree_invalid_configuration
              TreeLibrary.prune_subtree TreeLibrary.suppress_unifurcations
              removed_keyword_example eq_refl eq_refl) as [H1 H2].
  assert (H : parse_kwargs removed_keyword_example = Raise ValueError).
  { apply H1. vm_compute. reflexivity. }
  split; [exact H |]. apply H2. exact H.
Defined.

(** Passing the removed keyword [ntax] raises [ValueError] although none
    of the four stated conditions holds. *)
Lemma birth_death_tree_invalid_configuration_refuted :
  ~ (parse_kwargs removed_keyword_example = Raise ValueError ->
     claimed_invalid removed_keyword_example = true).
Proof. intros H. specialize (H eq_refl). vm_compute in H. discriminate. Qed.


(** *** The unreachable [break] *)

Lemma gsa_validation_ok g e x t b :
  gsa_validation g e x t = Ok b -> b = is_None g.
Proof.
  unfold gsa_validation.
  destruct (is_None g); [congruence |].
  destruct (is_None e); [discriminate |].
  destruct (is_None x); [| discriminate].
  destruct (is_None t); [| discriminate]. cbn.
  destruct (py_lt g e) as [[] |]; cbn; congruence.
Qed.

Lemma parse_kwargs_ok kwargs cfg :
  parse_kwargs kwargs = Ok cfg ->
  cfg = config_of kwargs (is_None (get "gsa_ntax" VNone kwargs)).
Proof.
  rewrite parse_kwargs_eq.
  destruct (removed_keyword kwargs); [discriminate |].
  destruct (no_termination_condition kwargs); [discriminate |].
  destruct (unrecognized_keyword kwargs); [discriminate |].
  destruct (gsa_validation _ _ _ _) as [b |] eqn:E; [| discriminate].
  apply gsa_validation_ok in E. subst b. cbn. congruence.
Qed.

Lemma death_signal cfg i1 i2 nd st sig st' :
  death cfg i1 i2 nd st = Ok (sig, st') -> sig <> BreakAtSliceRecording.
Proof.
  unfold death.
  repeat match goal with
         | |- context [if ?c then _ else _] => destruct c
         end; intros [= <- <-]; discriminate.
Qed.

Lemma iteration_signal cfg b d bsd dsd i1 i2 st sig st' :
  terminate_at_full_tree cfg = is_None (gsa_ntax cfg) ->
  iteration cfg b d bsd dsd i1 i2 st = Ok (sig, st') ->
  sig <> BreakAtSliceRecording.
Proof.
  intros Ht. unfold iteration.
  destruct (termination_check cfg st) as [[] |]; cbn [mbind res_bind Py.bind];
    [intros [= <- <-]; discriminate | | discriminate].
  destruct (collect_events _ _ _ _) as [[ns rates] evs].
  destruct (Rng.expovariate _ _) as [[w r] |]; cbn [mbind res_bind Py.bind];
    [| discriminate].
  rewrite Ht.
  destruct (is_None (gsa_ntax cfg)); cbn [negb andb].
  - destruct (if is_None (max_time cfg) then _ else _) as [[] |];
      cbn [mbind res_bind Py.bind]; [| intros [= <- <-]; discriminate | discriminate].
    destruct (Probability.weighted_choice _ _ _) as [[[n []] r'] |];
      cbn [mbind res_bind Py.bind]; [| | discriminate].
    + intros [= <- <-]; discriminate.
    + apply death_signal.
  - rewrite andb_false_r.
    destruct (if is_None (max_time cfg) then _ else _) as [[] |];
      cbn [mbind res_bind Py.bind]; [| intros [= <- <-]; discriminate | discriminate].
    destruct (Probability.weighted_choice _ _ _) as [[[n []] r'] |];
      cbn [mbind res_bind Py.bind]; [| | discriminate].
    + intros [= <- <-]; discriminate.
    + apply death_signal.
Qed.

Lemma loop_signal fuel cfg b d bsd dsd i1 i2 st sig st' :
  terminate_at_full_tree cfg = is_None (gsa_ntax cfg) ->
  loop fuel cfg b d bsd dsd i1 i2 st = Some (Ok (sig, st')) ->
  sig <> BreakAtSliceRecording.
Proof.
  intros Ht. revert st.
  induction fuel as [| fuel IH]; intros st; cbn [loop]; [discriminate |].
  destruct (iteration cfg b d bsd dsd i1 i2 st) as [[s st1] |] eqn:E;
    [| discriminate].
  pose proof (iteration_signal _ _ _ _ _ _ _ _ _ _ Ht E) as Hs.
  destruct s; try (intros [= <- <-]; exact Hs).
  apply IH.
Qed.

(** C9.  Whatever the arguments, the generator and the length of the run,
    the loop of [birth_death_tree] is never left through the [break]
    guarded by [terminate_at_full_tree] in the slice-recording block. *)
Theorem birth_death_tree_never_breaks_at_recording
    (birth_rate death_rate birth_rate_sd death_rate_sd : Q)
    (kwargs : gmap string value) (GLOBAL_RNG : Rng.rng) (fuel : nat)
    (cfg : config) (t : tree) (sig : signal) (st : sim) :
  grow birth_rate death_rate birth_rate_sd death_rate_sd kwargs GLOBAL_RNG fuel
  = Some (Ok (cfg, t, sig, st)) ->
  terminate_at_full_tree cfg = is_None (gsa_ntax cfg)
  /\ sig <> BreakAtSliceRecording.
Proof.
  unfold grow.
  destruct (parse_kwargs kwargs) as [cfg' |] eqn:Ep; [| discriminate].
  apply parse_kwargs_ok in Ep.
  assert (Ht : terminate_at_full_tree cfg' = is_None (gsa_ntax cfg'))
    by (subst cfg'; reflexivity).
  destruct (initialize cfg' birth_rate death_rate) as [[[t0 ex] ei] |];
    [| discriminate].
  destruct (bind_rng cfg' GLOBAL_RNG) as [r |]; [| discriminate].
  destruct (loop _ _ _ _ _ _ _ _ _) as [[[s st1] |] |] eqn:El; [| discriminate..].
  intros [= <- <- <- <-]. split; [exact Ht |].
  eapply loop_signal; eauto.
Qed.

Lemma birth_death_tree_never_breaks_at_recording_witness :
  exists cfg t st,
    grow 1 0 0 0 gsa_example (const_rng (1 # 4) 1 0) 10
    = Some (Ok (cfg, t, BreakTermination, st))
    /\ length (targetted_time_slices st) = 1%nat
    /\ terminate_at_full_tree cfg = is_None (gsa_ntax cfg)
    /\ BreakTermination <> BreakAtSliceRecording.
Proof.
  do 3 eexists. split; [vm_compute; reflexivity |].
  split; [reflexivity |].
  eapply (birth_death_tree_never_breaks_at_recording 1 0 0 0 gsa_example
            (const_rng (1 # 4) 1 0) 10).
  vm_compute. reflexivity.
Defined.


(** *** Total extinction *)

Lemma node_at_update f i j ns :
  node_at (update f i ns) j =
  if decide (i = j) then
    match ns !! i with Some nd => f nd | None => new_node end
  else node_at ns j.
Proof.
  unfold node_at, update. destruct (decide (i = j)) as [-> | Hne].
  - rewrite list_lookup_alter_eq. by destruct (ns !! j).
  - by rewrite list_lookup_alter_ne.
Qed.

Lemma length_update f i ns : length (update f i ns) = length ns.
Proof. apply length_alter. Qed.

Lemma update_preserves {X} (P : node -> X) f i j ns :
  (forall nd, P (f nd) = P nd) ->
  P (node_at (update f i ns) j) = P (node_at ns j).
Proof.
  intros Hf. rewrite node_at_update.
  destruct (decide (i = j)) as [-> | Hne]; [| reflexivity].
  unfold node_at. destruct (ns !! j); [apply Hf | reflexivity].
Qed.

Lemma update_other f i j ns : i <> j -> node_at (update f i ns) j = node_at ns j.
Proof. intros Hne. rewrite node_at_update. by rewrite decide_False. Qed.

Lemma update_same f i ns :
  (i < length ns)%nat -> node_at (update f i ns) i = f (node_at ns i).
Proof.
  intros Hlt. rewrite node_at_update, decide_True by done.
  unfold node_at. destruct (ns !! i) eqn:E; [done |].
  apply lookup_ge_None in E. lia.
Qed.

Lemma restart_node_length cfg ns nd : length (restart_node cfg ns nd) = length ns.
Proof.
  unfold restart_node, clear_child_nodes. rewrite length_update.
  destruct (is_add_extinct_attr cfg); [apply length_update | done].
Qed.

Lemma restart_node_preserves {X} (P : node -> X) cfg ns nd id :
  (forall a x, P (set_extinct_attr a x) = P x) ->
  (forall c x, P (set_children c x) = P x) ->
  P (node_at (restart_node cfg ns nd) id) = P (node_at ns id).
Proof.
  intros H1 H2. unfold restart_node, clear_child_nodes.
  rewrite update_preserves by (intros; apply H2).
  destruct (is_add_extinct_attr cfg); [| done].
  apply update_preserves. intros; apply H1.
Qed.

Lemma restart_node_other cfg ns nd id :
  nd <> id -> node_at (restart_node cfg ns nd) id = node_at ns id.
Proof.
  intros Hne. unfold restart_node, clear_child_nodes.
  rewrite update_other by done.
  destruct (is_add_extinct_attr cfg); [by apply update_other | done].
Qed.

Lemma restart_node_same cfg ns nd :
  (nd < length ns)%nat ->
  child_nodes (node_at (restart_node cfg ns nd) nd) = [] /\
  (is_add_extinct_attr cfg = true ->
   extinct_attr (node_at (restart_node cfg ns nd) nd) = IsBool false).
Proof.
  intros Hlt. unfold restart_node, clear_child_nodes.
  destruct (is_add_extinct_attr cfg).
  - rewrite update_same by (by rewrite length_update).
    rewrite update_same by done. by cbn.
  - rewrite update_same by done. cbn. split; [done | discriminate].
Qed.

Lemma restart_fold_length cfg tips ns :
  length (foldl (restart_node cfg) ns tips) = length ns.
Proof.
  revert ns. induction tips as [| nd tips IH]; intros ns; cbn; [done |].
  by rewrite IH, restart_node_length.
Qed.

Lemma restart_fold_preserves {X} (P : node -> X) cfg tips ns id :
  (forall a x, P (set_extinct_attr a x) = P x) ->
  (forall c x, P (set_children c x) = P x) ->
  P (node_at (foldl (restart_node cfg) ns tips) id) = P (node_at ns id).
Proof.
  intros H1 H2. revert ns.
  induction tips as [| nd tips IH]; intros ns; cbn; [done |].
  rewrite IH. by apply restart_node_preserves.
Qed.

Lemma restart_fold_other cfg tips ns id :
  id ∉ tips -> node_at (foldl (restart_node cfg) ns tips) id = node_at ns id.
Proof.
  revert ns. induction tips as [| nd tips IH]; intros ns Hnin; cbn; [done |].
  apply not_elem_of_cons in Hnin as [Hne Hnin].
  rewrite IH by done. by apply restart_node_other.
Qed.

Lemma restart_fold_reset cfg tips ns id :
  id ∈ tips -> (id < length ns)%nat ->
  child_nodes (node_at (foldl (restart_node cfg) ns tips) id) = [] /\
  (is_add_extinct_attr cfg = true ->
   extinct_attr (node_at (foldl (restart_node cfg) ns tips) id) = IsBool false).
Proof.
  revert ns. induction tips as [| nd tips IH]; intros ns Hin Hlt; cbn.
  - by apply elem_of_nil in Hin.
  - destruct (decide (id ∈ tips)) as [Hin' | Hnin].
    + apply IH; [done | by rewrite restart_node_length].
    + apply elem_of_cons in Hin as [-> | Hin]; [| done].
      rewrite restart_fold_other by done.
      by apply restart_node_same.
Qed.

(** What lines 316-325 do on total extinction with retry enabled and no
    usable GSA slice: no exception is raised, the extant and extinct sets
    are rebuilt from the initial sets and the elapsed time is reset to
    zero; no node is added to the store, and each initially extant node
    has its children cleared and (when the extinction attribute is kept)
    its flag reset to false. *)
Lemma total_extinction_restarts (cfg : config)
    (initial_extant_tip_set initial_extinct_tip_set : gset nat)
    (nd : nat) (st : sim) :
  repeat_until_success cfg = true ->
  size (extant_tips st) = 0%nat ->
  is_None (gsa_ntax cfg) = true \/ targetted_time_slices st = [] ->
  exists st',
    death cfg initial_extant_tip_set initial_extinct_tip_set nd st
    = Ok (Continue, st')
    /\ extant_tips st' = initial_extant_tip_set
    /\ extinct_tips st' = initial_extinct_tip_set
    /\ total_time st' = 0
    /\ rng st' = rng st
    /\ length (store st') = length (store st)
    /\ (forall id,
          id ∈ initial_extant_tip_set -> (id < length (store st))%nat ->
          child_nodes (node_at (store st') id) = []
          /\ (is_add_extinct_attr cfg = true ->
              extinct_attr (node_at (store st') id) = IsBool false)).
Proof.
  intros Hretry Hsize Hgsa.
  exists (restart cfg initial_extant_tip_set initial_extinct_tip_set st).
  split.
  - unfold death. rewrite Hsize, Hretry. cbn.
    destruct Hgsa as [-> | ->]; [done |].
    by rewrite andb_false_r.
  - unfold restart. cbn [extant_tips extinct_tips total_time rng store].
    repeat split; try done.
    + apply restart_fold_length.
    + apply restart_fold_reset; [by apply elem_of_elements | done].
    + apply restart_fold_reset; [by apply elem_of_elements | done].
Qed.

(** The restart leaves every edge length as the dead attempt left it. *)
Lemma restart_keeps_edge_lengths cfg i1 i2 st id :
  edge_length (node_at (store (restart cfg i1 i2 st)) id)
  = edge_length (node_at (store st) id).
Proof.
  unfold restart. cbn [store]. by apply restart_fold_preserves.
Qed.

(** C5 (the code at the failing input).  In a fresh run with birth and
    death rate 1 and a target of two extant tips, whose first event is
    the death of the only lineage after a waiting time of 1/2, the run
    starts over with the elapsed time at 0, but the restarted lineage is
    not in its pre-run state: its edge length is 1/2, not 0.  When the
    second event, after another waiting time of 1/2, is a birth, the run
    ends with an elapsed time of 1/2 and a root edge of length 1: the
    time of the dead attempt is part of the tree that is returned. *)
Lemma total_extinction_keeps_edge_length :
  (exists st' l,
     iteration extinction_example_config 1 1 0 0 {[0%nat]} ∅
               extinction_example_state = Ok (Continue, st')
     /\ extant_tips st' = {[0%nat]}
     /\ total_time st' = 0
     /\ edge_length (node_at (store st') 0) = Some l
     /\ edge_length (node_at (store extinction_example_state) 0) = Some 0
     /\ l == 1 # 2)
  /\ (exists cfg t st l,
        grow 1 1 0 0 two_tips death_then_birth_rng 5
        = Some (Ok (cfg, t, BreakTermination, st))
        /\ size (extant_tips st) = 2%nat
        /\ total_time st == 1 # 2
        /\ edge_length (node_at (store st) (seed_node t)) = Some l
        /\ l == 1).
Proof.
  split.
  - do 2 eexists. split; [vm_compute; reflexivity |].
    repeat split.
  - do 4 eexists. split; [vm_compute; reflexivity |].
    repeat split.
Qed.


(** *** Initialization from a caller-supplied tree *)

(** C3 (the code at the failing inputs).  A pre-existing leaf whose
    extinction flag is true is placed in the extant set, and a
    pre-existing leaf without a true flag makes the call raise
    [AttributeError]: the extinct set is a set and is sent [append]. *)
Lemma caller_tree_leaves_misplaced :
  (exists cfg t,
     parse_kwargs (caller_tree_example (IsBool true)) = Ok cfg /\
     initialize cfg 1 0 = Ok (t, {[0%nat]}, ∅))
  /\ (forall prune suppress GLOBAL_RNG fuel,
        birth_death_tree prune suppress 1 0 0 0
          (caller_tree_example Unset) GLOBAL_RNG fuel
        = Some (Raise AttributeError))
  /\ (forall prune suppress GLOBAL_RNG fuel,
        birth_death_tree prune suppress 1 0 0 0
          (caller_tree_example (IsBool false)) GLOBAL_RNG fuel
        = Some (Raise AttributeError)).
Proof.
  split; [| split].
  - do 2 eexists. split; vm_compute; reflexivity.
  - intros. unfold birth_death_tree, grow.
    replace (parse_kwargs (caller_tree_example Unset))
      with (Ok (config_of (caller_tree_example Unset) true))
      by (vm_compute; reflexivity).
    replace (initialize (config_of (caller_tree_example Unset) true) 1 0)
      with (@Raise (tree * gset nat * gset nat) AttributeError)
      by (vm_compute; reflexivity).
    reflexivity.
  - intros. unfold birth_death_tree, grow.
    replace (parse_kwargs (caller_tree_example (IsBool false)))
      with (Ok (config_of (caller_tree_example (IsBool false)) true))
      by (vm_compute; reflexivity).
    replace (initialize (config_of (caller_tree_example (IsBool false)) true) 1 0)
      with (@Raise (tree * gset nat * gset nat) AttributeError)
      by (vm_compute; reflexivity).
    reflexivity.
Qed.

(** *** Selection of the GSA time slice *)

Lemma foldl_duration z (slices : list time_slice) :
  foldl (fun acc i => acc + fst i) z slices
  == z + total_duration_at_target_n_tax slices.
Proof.
  unfold total_duration_at_target_n_tax. revert z.
  induction slices as [| j slices IH]; intros z; cbn [foldl].
  - lra.
  - rewrite IH, (IH (0 + fst j)). lra.
Qed.

Lemma total_duration_cons i slices :
  total_duration_at_target_n_tax (i :: slices)
  == fst i + total_duration_at_target_n_tax slices.
Proof.
  unfold total_duration_at_target_n_tax at 1. cbn [foldl].
  rewrite foldl_duration. lra.
Qed.

(** Whenever the scaled draw is below the total duration, the loop
    without [break] ends with the last slice selected. *)
Lemma select_slice_last (slices : list time_slice) (r : Q)
    (selected : option time_slice) :
  slices <> [] ->
  r < total_duration_at_target_n_tax slices ->
  select_slice slices r selected = last slices.
Proof.
  revert r selected.
  induction slices as [| i slices IH]; intros r selected Hne Hr; [done |].
  cbn [select_slice]. rewrite total_duration_cons in Hr.
  destruct slices as [| j slices].
  - cbn. unfold total_duration_at_target_n_tax in Hr. cbn in Hr.
    assert (E : Fit.Qlt_bool (r - fst i) 0 = true).
    { unfold Fit.Qlt_bool. apply negb_true_iff.
      destruct (Qle_bool 0 (r - fst i)) eqn:E; [| done].
      apply Qle_bool_iff in E. lra. }
    by rewrite E.
  - rewrite IH; [done | done | lra].
Qed.

(** C2 (the code at the failing input).  In a GSA run with birth and
    death rate 1, a target of 2 extant tips and a GSA target of 3, whose
    draws make the process pass twice through 2 extant tips, two slices
    of duration 1/4 are recorded.  With the draw 1/4 of the finalization,
    the first slice whose cumulative duration exceeds the scaled draw is
    the first one, and the loop selects the second one: the extant tips
    it restores are those of the second visit. *)
Lemma gsa_selection_takes_last_slice :
  exists cfg t st s1 s2 st',
    grow 1 1 0 0 two_visits two_visits_rng 10
    = Some (Ok (cfg, t, BreakTermination, st))
    /\ targetted_time_slices st = [s1; s2]
    /\ s1 <> s2
    /\ (let r := Rng.u01 (Rng.draws (rng st) (Rng.pos (rng st)))
                 * total_duration_at_target_n_tax [s1; s2] in
        first_slice_exceeding [s1; s2] r = Some s1
        /\ select_slice [s1; s2] r None = Some s2)
    /\ gsa_finalize cfg st = Ok st'
    /\ map fst s1.2 = [2%nat; 1%nat]
    /\ map fst s2.2 = [4%nat; 3%nat]
    /\ elements (extant_tips st') = elements ({[3%nat; 4%nat]} : gset nat).
Proof.
  do 6 eexists. split; [vm_compute; reflexivity |].
  split; [reflexivity |]. split; [discriminate |].
  split; [vm_compute; split; reflexivity |].
  split; [vm_compute; reflexivity |].
  split; [reflexivity |]. split; [reflexivity |].
  vm_compute. reflexivity.
Qed.


Lemma Qlt_bool_true a b : a < b -> Fit.Qlt_bool a b = true.
Proof.
  intros H. unfold Fit.Qlt_bool. apply negb_true_iff.
  destruct (Qle_bool b a) eqn:E; [| done].
  apply Qle_bool_iff in E. lra.
Qed.

Lemma Qlt_bool_false a b : b <= a -> Fit.Qlt_bool a b = false.
Proof.
  intros H. unfold Fit.Qlt_bool. apply negb_false_iff. by apply Qle_bool_iff.
Qed.

End BirthDeathFacts.

(** ** Facts about pure-birth runs of [birth_death_tree] *)

Module PureBirth.

Import Tree Kw BirthDeath Runs Examples BirthDeathFacts.
Open Scope Q_scope.

(** *** Event selection in a pure-birth state *)






(** *** The store under the steps of an iteration *)


Lemma node_at_lookup (ns : list node) id nd :
  ns !! id = Some nd -> node_at ns id = nd.
Proof. intros H. unfold node_at. by rewrite H. Qed.

Lemma node_at_ge (ns : list node) id :
  (length ns <= id)%nat -> node_at ns id = new_node.
Proof.
  intros H. unfold node_at. by rewrite (proj2 (lookup_ge_None ns id) H).
Qed.

Lemma node_at_app_l (ns ns' : list node) id :
  (id < length ns)%nat -> node_at (ns ++ ns') id = node_at ns id.
Proof. intros H. unfold node_at. by rewrite lookup_app_l. Qed.

Lemma node_at_app_r (ns ns' : list node) id :
  (length ns <= id)%nat -> node_at (ns ++ ns') id = node_at ns' (id - length ns).
Proof. intros H. unfold node_at. by rewrite lookup_app_r. Qed.





Lemma waited_length w tips ns : length (waited w tips ns) = length ns.
Proof.
  unfold waited. revert ns.
  induction tips as [| id tips IH]; intros ns; cbn; [done |].
  by rewrite IH, length_update.
Qed.

Lemma waited_other w tips ns id :
  ~ In id tips -> node_at (waited w tips ns) id = node_at ns id.
Proof.
  unfold waited. revert ns.
  induction tips as [| j tips IH]; intros ns Hnin; cbn; [done |].
  rewrite IH by (intros Hin; apply Hnin; by right).
  apply update_other. intros ->. apply Hnin. by left.
Qed.

Lemma waited_same w tips ns id :
  List.NoDup tips -> In id tips -> (id < length ns)%nat ->
  node_at (waited w tips ns) id = add_waiting_time w (node_at ns id).
Proof.
  unfold waited. revert ns.
  induction tips as [| j tips IH]; intros ns Hnd Hin Hlt; [done |].
  cbn [foldl]. inversion Hnd as [| ? ? Hj Hnd']; subst.
  destruct Hin as [-> | Hin].
  - fold (waited w tips (update (add_waiting_time w) id ns)).
    rewrite waited_other by done. by apply update_same.
  - rewrite IH; [| done | done | by rewrite length_update].
    rewrite update_other; [done |]. intros ->. done.
Qed.

Lemma waited_preserves {X} (P : node -> X) w tips ns id :
  (forall l x, P (set_length l x) = P x) ->
  P (node_at (waited w tips ns) id) = P (node_at ns id).
Proof.
  intros HP. unfold waited. revert ns.
  induction tips as [| j tips IH]; intros ns; cbn; [done |].
  rewrite IH. apply update_preserves. intros nd. apply HP.
Qed.


Lemma length_new_child p ns : length (new_child p ns).2 = S (length ns).
Proof. cbn. rewrite length_app, length_update. cbn. lia. Qed.

Ltac store_simpl :=
  repeat first
    [ rewrite length_update
    | rewrite length_app
    | rewrite update_other by (cbn [length]; lia)
    | rewrite update_same by (repeat (rewrite ?length_update, ?length_app); cbn [length]; lia)
    | rewrite node_at_app_l by (repeat (rewrite ?length_update, ?length_app); cbn [length]; lia)
    | rewrite node_at_app_r by (repeat (rewrite ?length_update, ?length_app); cbn [length]; lia) ].


Lemma birth_facts cfg bsd dsd nd st :
  (nd < length (store st))%nat ->
  let st' := birth cfg bsd dsd nd st in
  let L := length (store st) in
  let old := node_at (store st) nd in
  length (store st') = S (S L)
  /\ extant_tips st' = extant_tips st ∪ {[L]} ∪ {[S L]}
  /\ extinct_tips st' = extinct_tips st
  /\ total_time st' = total_time st
  /\ targetted_time_slices st' = targetted_time_slices st
  /\ Rng.draws (rng st') = Rng.draws (rng st)
  /\ (forall id, (id < L)%nat -> id <> nd ->
        node_at (store st') id = node_at (store st) id)
  /\ node_at (store st') nd
     = set_children (child_nodes old ++ [L; S L])
         (if is_add_extinct_attr cfg then set_extinct_attr IsNone old else old)
  /\ node_at (store st') L
     = {| parent_node := Some nd; child_nodes := []; edge_length := Some 0;
          birth_rate := Some (child_rate (default 0 (Tree.birth_rate old)) bsd (rng st) 0);
          death_rate := Some (child_rate (default 0 (Tree.death_rate old)) dsd (rng st) 1);
          extinct_attr := Unset; taxon := None |}
  /\ node_at (store st') (S L)
     = {| parent_node := Some nd; child_nodes := []; edge_length := Some 0;
          birth_rate := Some (child_rate (default 0 (Tree.birth_rate old)) bsd (rng st) 2);
          death_rate := Some (child_rate (default 0 (Tree.death_rate old)) dsd (rng st) 3);
          extinct_attr := Unset; taxon := None |}.
Proof.
  intros Hlt st' L old.
  set (ns1 := if is_add_extinct_attr cfg
              then update (set_extinct_attr IsNone) nd (store st) else store st).
  assert (HL1 : length ns1 = L).
  { subst ns1. destruct (is_add_extinct_attr cfg); [apply length_update | done]. }
  assert (Hold1 : node_at ns1 nd
                  = if is_add_extinct_attr cfg then set_extinct_attr IsNone old else old).
  { subst ns1 old. destruct (is_add_extinct_attr cfg); [| done].
    by apply update_same. }
  assert (Hoth1 : forall id, id <> nd -> node_at ns1 id = node_at (store st) id).
  { intros id Hne. subst ns1. destruct (is_add_extinct_attr cfg); [| done].
    by apply update_other. }
  assert (Hrate : Tree.birth_rate (node_at ns1 nd) = Tree.birth_rate old
                  /\ Tree.death_rate (node_at ns1 nd) = Tree.death_rate old
                  /\ child_nodes (node_at ns1 nd) = child_nodes old).
  { rewrite Hold1. by destruct (is_add_extinct_attr cfg). }
  destruct Hrate as (Hrb & Hrd & Hch).
  subst st'. unfold birth. fold ns1.
  cbn [new_child Rng.gauss Rng.next Rng.draws Rng.pos store extant_tips
       extinct_tips total_time targetted_time_slices rng].
  rewrite !length_app, !length_update, HL1. cbn [length].
  replace (L + 1)%nat with (S L) by lia.
  repeat split.
  - store_simpl. cbn [length]. lia.
  - intros id Hid Hne. store_simpl. by apply Hoth1.
  - store_simpl. cbn [set_children child_nodes]. store_simpl.
    rewrite Hold1. destruct (is_add_extinct_attr cfg); cbn;
      rewrite <- app_assoc; reflexivity.
  - store_simpl. rewrite HL1.
    match goal with
    | |- context [node_at [?x] ?i] => replace i with 0%nat by (cbn [length]; lia)
    end.
    cbn -[Qplus Qmult]. rewrite Hrb, Hrd. reflexivity.
  - store_simpl. rewrite HL1.
    match goal with
    | |- context [node_at [?x] ?i] => replace i with 0%nat by (cbn [length]; lia)
    end.
    cbn -[Qplus Qmult]. rewrite Hrb, Hrd. reflexivity.
Qed.


(** *** Traversals of a store whose children are allocated after their
    parents *)


Lemma flat_map_ext_In {A B} (f g : A -> list B) l :
  (forall a, In a l -> f a = g a) -> flat_map f l = flat_map g l.
Proof.
  induction l as [| a l IH]; intros H; cbn; [done |].
  rewrite H by (by left). rewrite IH; [done |]. intros; apply H; by right.
Qed.

Lemma flat_map_flat_map {A B C} (f : A -> list B) (g : B -> list C) l :
  flat_map g (flat_map f l) = flat_map (fun a => flat_map g (f a)) l.
Proof.
  induction l as [| a l IH]; cbn; [done |].
  by rewrite flat_map_app, IH.
Qed.

Lemma preorder_ample ns :
  ordered ns ->
  forall F1 F2 id,
    (id < length ns)%nat ->
    (length ns - id <= F1)%nat -> (length ns - id <= F2)%nat ->
    preorder F1 ns id = preorder F2 ns id.
Proof.
  intros Hord. induction F1 as [| F1 IH]; intros F2 id Hid H1 H2; [lia |].
  destruct F2 as [| F2]; [lia |]. cbn [preorder]. f_equal.
  apply flat_map_ext_In. intros c Hc. apply Hord in Hc.
  apply IH; lia.
Qed.

Lemma preorder_bound ns :
  ordered ns ->
  forall F id x, (id < length ns)%nat -> In x (preorder F ns id) ->
                 (x < length ns)%nat.
Proof.
  intros Hord. induction F as [| F IH]; intros id x Hid Hx; [done |].
  cbn [preorder] in Hx. destruct Hx as [<- | Hx]; [done |].
  apply in_flat_map in Hx as (c & Hc & Hx). apply Hord in Hc.
  eapply IH; [| exact Hx]. lia.
Qed.


Lemma preorder_birth ns ns' nd :
  let L := length ns in
  ordered ns ->
  (nd < L)%nat ->
  child_nodes (node_at ns nd) = [] ->
  (forall id, (id < L)%nat -> id <> nd ->
     child_nodes (node_at ns' id) = child_nodes (node_at ns id)) ->
  child_nodes (node_at ns' nd) = [L; S L] ->
  child_nodes (node_at ns' L) = [] ->
  child_nodes (node_at ns' (S L)) = [] ->
  forall F id,
    (id < L)%nat -> (S (S L) - id <= F)%nat ->
    preorder F ns' id = flat_map (expand nd L) (preorder F ns id).
Proof.
  intros L Hord Hnd Hleaf Hoth Hch H1 H2.
  induction F as [| F IH]; intros id Hid HF; [lia |].
  cbn [preorder]. destruct (decide (id = nd)) as [-> | Hne].
  - rewrite Hch, Hleaf. cbn [flat_map app].
    destruct F as [| F]; [lia |]. cbn [preorder].
    rewrite H1, H2. cbn. unfold expand. by rewrite decide_True.
  - rewrite Hoth by done. cbn [flat_map].
    unfold expand at 1. rewrite decide_False by done. cbn [app].
    f_equal. rewrite flat_map_flat_map.
    apply flat_map_ext_In. intros c Hc. apply Hord in Hc.
    apply IH; lia.
Qed.


Lemma filter_flat_map {A B} (p : B -> bool) (f : A -> list B) l :
  List.filter p (flat_map f l) = flat_map (fun a => List.filter p (f a)) l.
Proof.
  induction l as [| a l IH]; cbn; [done |].
  by rewrite List.filter_app, IH.
Qed.

Lemma flat_map_filter_singleton {A} (p : A -> bool) l :
  flat_map (fun a => if p a then [a] else []) l = List.filter p l.
Proof.
  induction l as [| a l IH]; cbn; [done |].
  destruct (p a); cbn; by rewrite IH.
Qed.

(** The leaves after a birth at the leaf [nd]: [nd] is replaced by its
    two children. *)
Lemma leaf_nodes_birth ns ns' nd :
  let L := length ns in
  ordered ns ->
  (0 < L)%nat -> (nd < L)%nat ->
  length ns' = S (S L) ->
  child_nodes (node_at ns nd) = [] ->
  (forall id, (id < L)%nat -> id <> nd ->
     child_nodes (node_at ns' id) = child_nodes (node_at ns id)) ->
  child_nodes (node_at ns' nd) = [L; S L] ->
  child_nodes (node_at ns' L) = [] ->
  child_nodes (node_at ns' (S L)) = [] ->
  leaf_nodes ns' 0
  = flat_map (fun x => if decide (x = nd) then [L; S L] else [x])
             (leaf_nodes ns 0).
Proof.
  intros L Hord HL Hnd Hlen Hleaf Hoth Hch H1 H2. subst L.
  unfold leaf_nodes, preorder_iter. rewrite Hlen.
  rewrite (preorder_birth ns ns' nd) by (try done; lia).
  rewrite (preorder_ample ns Hord (S (S (length ns))) (length ns) 0) by lia.
  rewrite filter_flat_map.
  rewrite <- (flat_map_filter_singleton
                (fun id => bool_decide (child_nodes (node_at ns id) = []))).
  rewrite flat_map_flat_map.
  apply flat_map_ext_In. intros x Hx.
  apply (preorder_bound ns Hord) in Hx; [| done].
  unfold expand. destruct (decide (x = nd)) as [-> | Hne].
  - rewrite (bool_decide_eq_true_2 _ Hleaf). cbn [flat_map app List.filter].
    rewrite decide_True by done.
    rewrite Hch, H1, H2.
    rewrite bool_decide_eq_false_2 by done.
    rewrite !bool_decide_eq_true_2 by done. reflexivity.
  - cbn [List.filter]. rewrite Hoth by done.
    destruct (bool_decide _); cbn [flat_map app]; [| done].
    by rewrite decide_False.
Qed.


(** *** Root distances *)


Lemma root_distance_S F ns id :
  root_distance (S F) ns id
  = default 0 (edge_length (node_at ns id)) +
    match parent_node (node_at ns id) with
    | Some p => root_distance F ns p
    | None => 0
    end.
Proof. reflexivity. Qed.

Lemma root_distance_ample ns :
  ancestors_before ns ->
  forall F1 F2 id, (id < F1)%nat -> (id < F2)%nat ->
                   root_distance F1 ns id = root_distance F2 ns id.
Proof.
  intros Hanc. induction F1 as [| F1 IH]; intros F2 id H1 H2; [lia |].
  destruct F2 as [| F2]; [lia |]. cbn [root_distance].
  destruct (parent_node (node_at ns id)) as [p |] eqn:Ep; [| done].
  apply Hanc in Ep. rewrite (IH F2 p) by lia. done.
Qed.

Lemma root_distance_agree ns1 ns2 :
  ancestors_before ns1 ->
  forall F id,
    (forall j, (j <= id)%nat ->
       parent_node (node_at ns2 j) = parent_node (node_at ns1 j) /\
       edge_length (node_at ns2 j) = edge_length (node_at ns1 j)) ->
    root_distance F ns2 id = root_distance F ns1 id.
Proof.
  intros Hanc. induction F as [| F IH]; intros id Hag; [done |].
  cbn [root_distance]. destruct (Hag id (Nat.le_refl _)) as [-> ->].
  destruct (parent_node (node_at ns1 id)) as [p |] eqn:Ep; [| done].
  apply Hanc in Ep. rewrite IH; [done |]. intros j Hj. apply Hag. lia.
Qed.

Lemma root_distance_waited ns ns_w (ext : gset nat) w :
  (forall id, parent_node (node_at ns_w id) = parent_node (node_at ns id)) ->
  (forall id, id ∈ ext ->
     default 0 (edge_length (node_at ns_w id))
     == default 0 (edge_length (node_at ns id)) + w) ->
  (forall id, id ∉ ext ->
     edge_length (node_at ns_w id) = edge_length (node_at ns id)) ->
  (forall id p, parent_node (node_at ns id) = Some p -> p ∉ ext) ->
  forall F id,
    (0 < F)%nat \/ id ∉ ext ->
    root_distance F ns_w id
    == root_distance F ns id + (if decide (id ∈ ext) then w else 0).
Proof.
  intros Hpar Hin Hout Hanc.
  induction F as [| F IH]; intros id HF.
  - destruct HF as [HF | HF]; [lia |]. cbn. rewrite decide_False by done. lra.
  - cbn [root_distance]. rewrite Hpar.
    assert (Hp : match parent_node (node_at ns id) with
                 | Some p => root_distance F ns_w p
                 | None => 0
                 end ==
                 match parent_node (node_at ns id) with
                 | Some p => root_distance F ns p
                 | None => 0
                 end).
    { destruct (parent_node (node_at ns id)) as [p |] eqn:Ep; [| reflexivity].
      apply Hanc in Ep. rewrite IH by (by right).
      rewrite decide_False by done. lra. }
    rewrite Hp. destruct (decide (id ∈ ext)) as [Hi | Hi].
    + rewrite Hin by done. lra.
    + rewrite Hout by done. lra.
Qed.


Lemma preorder_ext ns1 ns2 :
  (forall id, child_nodes (node_at ns2 id) = child_nodes (node_at ns1 id)) ->
  forall F id, preorder F ns2 id = preorder F ns1 id.
Proof.
  intros H. induction F as [| F IH]; intros id; [done |].
  cbn [preorder]. rewrite H. f_equal. apply flat_map_ext_In. intros; apply IH.
Qed.

Lemma leaf_nodes_ext ns1 ns2 seed :
  length ns2 = length ns1 ->
  (forall id, child_nodes (node_at ns2 id) = child_nodes (node_at ns1 id)) ->
  leaf_nodes ns2 seed = leaf_nodes ns1 seed.
Proof.
  intros Hlen H. unfold leaf_nodes, preorder_iter.
  rewrite Hlen, (preorder_ext ns1 ns2 H).
  apply filter_ext. intros id. by rewrite H.
Qed.

(** *** The invariant of a pure-birth run *)








(** *** One iteration of a pure-birth run *)



Lemma Qle_bool_inject_Z a c : Qle_bool (inject_Z a) (inject_Z c) = (a <=? c)%Z.
Proof. unfold Qle_bool, inject_Z. cbn. by rewrite !Z.mul_1_r. Qed.

Lemma termination_check_extant n cfg st :
  extant_target_only n cfg ->
  termination_check cfg st = Ok (n <=? size (extant_tips st))%nat.
Proof.
  intros [H1 H2 H3 H4 H5]. unfold termination_check, reached.
  rewrite H1, H2, H3, H4, H5. cbn [is_None].
  unfold py_ge, py_le, len. cbn [as_num]. rewrite Qle_bool_inject_Z.
  cbn [mbind res_bind Py.bind].
  destruct (Z.leb_spec (Z.of_nat n) (Z.of_nat (size (extant_tips st))))
    as [H | H].
  - by rewrite (proj2 (Nat.leb_le _ _)) by lia.
  - by rewrite (proj2 (Nat.leb_gt _ _)) by lia.
Qed.



(** *** The whole loop *)



(** *** After the loop *)

Lemma assign_taxon_fold {X} (P : node -> X) label entries acc id :
  (forall t x, P (set_taxon t x) = P x) ->
  P (node_at (foldl (assign_taxon label) acc entries).1.1 id)
  = P (node_at acc.1.1 id)
  /\ length (foldl (assign_taxon label) acc entries).1.1 = length acc.1.1.
Proof.
  intros HP. revert acc.
  induction entries as [| [idx nd] entries IH]; intros [[ns labels] pool];
    cbn [foldl]; [done |].
  destruct (IH (assign_taxon label (ns, labels, pool) (idx, nd))) as [H1 H2].
  rewrite H1, H2. unfold assign_taxon.
  destruct (reverse pool); cbn [fst snd];
    (split; [by apply update_preserves | apply length_update]).
Qed.

Lemma assign_taxa_nodes {X} (P : node -> X) cfg ex ei t id :
  (forall l x, P (set_taxon l x) = P x) ->
  P (node_at (nodes (assign_taxa cfg ex ei t)) id) = P (node_at (nodes t) id)
  /\ length (nodes (assign_taxa cfg ex ei t)) = length (nodes t)
  /\ seed_node (assign_taxa cfg ex ei t) = seed_node t.
Proof.
  intros HP. unfold assign_taxa.
  destruct (is_assign_extant_taxa cfg || is_assign_extinct_taxa cfg); [| done].
  set (acc0 := (nodes t, labels (taxon_namespace t), labels (taxon_namespace t))).
  set (acc1 := foldl (assign_taxon "T") acc0 (Fit.enumerate (elements ex))).
  destruct (assign_taxon_fold P "T" (Fit.enumerate (elements ex)) acc0 id HP)
    as [H1 H2].
  destruct (assign_taxon_fold P "X" (Fit.enumerate (elements ei)) acc1 id HP)
    as [H3 H4].
  fold acc1 in H1, H2.
  destruct (foldl (assign_taxon "X") acc1 _) as [[ns ls] pool].
  cbn [nodes seed_node fst snd] in *.
  rewrite H3, H1, H4, H2. done.
Qed.





Section Claims.

Variable prune_subtree : tree -> nat -> bool -> tree.
Variable suppress_unifurcations : tree -> tree.

(** What is assumed of the tree library: collapsing the single-child
    nodes of a tree that has none leaves it as it is. *)
Hypothesis suppress_unifurcations_none :
  forall t,
    (forall id, length (child_nodes (node_at (nodes t) id)) <> 1%nat) ->
    suppress_unifurcations t = t.


End Claims.

(** The implementation of the tree library meets what the theorem
    assumes of it. *)
Lemma collapse_none t id :
  length (child_nodes (node_at (nodes t) id)) <> 1%nat ->
  TreeLibrary.collapse t id = t.
Proof.
  intros H. unfold TreeLibrary.collapse.
  destruct (child_nodes (node_at (nodes t) id)) as [| c [| c' l]]; done.
Qed.

Lemma suppress_unifurcations_none_impl t :
  (forall id, length (child_nodes (node_at (nodes t) id)) <> 1%nat) ->
  TreeLibrary.suppress_unifurcations t = t.
Proof.
  intros H. unfold TreeLibrary.suppress_unifurcations.
  induction (seq 0 (length (nodes t))) as [| id l IH]; cbn [foldl]; [done |].
  by rewrite collapse_none.
Qed.



End PureBirth.

(** ** Reproducibility of seeded runs *)

Module Reproducible.

Import Tree Kw Runs Examples BirthDeathFacts.
Open Scope Q_scope.



Lemma loop_fuel_mono fuel fuel' cfg b d bsd dsd i1 i2 st x :
  (fuel <= fuel')%nat ->
  BirthDeath.loop fuel cfg b d bsd dsd i1 i2 st = Some x ->
  BirthDeath.loop fuel' cfg b d bsd dsd i1 i2 st = Some x.
Proof.
  revert fuel' st. induction fuel as [| fuel IH]; intros fuel' st Hle;
    cbn [BirthDeath.loop]; [discriminate |].
  destruct fuel' as [| fuel']; [lia |]. cbn [BirthDeath.loop].
  destruct (BirthDeath.iteration _ _ _ _ _ _ _ _) as [[[] st1] |]; try done.
  apply IH. lia.
Qed.

Lemma loop_deterministic fuel1 fuel2 cfg b d bsd dsd i1 i2 st x y :
  BirthDeath.loop fuel1 cfg b d bsd dsd i1 i2 st = Some x ->
  BirthDeath.loop fuel2 cfg b d bsd dsd i1 i2 st = Some y ->
  x = y.
Proof.
  intros H1 H2.
  apply (loop_fuel_mono _ (Nat.max fuel1 fuel2)) in H1; [| lia].
  apply (loop_fuel_mono _ (Nat.max fuel1 fuel2)) in H2; [| lia].
  congruence.
Qed.

Lemma growth_fuel_mono prune fuel fuel' cfg b d bsd dsd leaves st x :
  (fuel <= fuel')%nat ->
  Discrete.growth prune fuel cfg b d bsd dsd leaves st = Some x ->
  Discrete.growth prune fuel' cfg b d bsd dsd leaves st = Some x.
Proof.
  revert fuel' leaves st.
  induction fuel as [| fuel IH]; intros fuel' leaves st Hle;
    cbn [Discrete.growth]; [discriminate |].
  destruct fuel' as [| fuel']; [lia |]. cbn [Discrete.growth].
  destruct (Discrete.keep_growing _ _ _) as [[] |]; try done.
  destruct (BirthDeath.fold_res _ _ _) as [st1 |]; try done.
  apply IH. lia.
Qed.

Lemma coda_fuel_mono fuel fuel' cfg b d n g r x :
  (fuel <= fuel')%nat ->
  Discrete.coda fuel cfg b d n g r = Some x ->
  Discrete.coda fuel' cfg b d n g r = Some x.
Proof.
  revert fuel' g r.
  induction fuel as [| fuel IH]; intros fuel' g r Hle;
    cbn [Discrete.coda]; [discriminate |].
  destruct fuel' as [| fuel']; [lia |]. cbn [Discrete.coda].
  destruct (if is_None _ then _ else _) as [[] |]; try done.
  destruct (Rng.uniform 0 1 r) as [u r1].
  destruct (Fit.Qlt_bool u (b + d)); [done |].
  apply IH. lia.
Qed.

Lemma discrete_parse_rng kwargs cfg :
  Discrete.parse_kwargs kwargs = Ok cfg -> Discrete.rng_arg cfg = kwargs !! "rng".
Proof.
  unfold Discrete.parse_kwargs.
  destruct (negb (has_key "ntax" kwargs) && _ && _); [discriminate |].
  destruct (if has_key "taxon_namespace" kwargs then _ else _)
    as [[ns tn] |]; [| discriminate].
  cbn. by intros [= <-].
Qed.

Lemma set_order_loop_fuel_mono order fuel fuel' cfg b d bsd dsd i1 i2 st x :
  (fuel <= fuel')%nat ->
  SetOrder.loop order fuel cfg b d bsd dsd i1 i2 st = Some x ->
  SetOrder.loop order fuel' cfg b d bsd dsd i1 i2 st = Some x.
Proof.
  revert fuel' st. induction fuel as [| fuel IH]; intros fuel' st Hle;
    cbn [SetOrder.loop]; [discriminate |].
  destruct fuel' as [| fuel']; [lia |]. cbn [SetOrder.loop].
  destruct (SetOrder.iteration _ _ _ _ _ _ _ _ _) as [[[] st1] |]; try done.
  apply IH. lia.
Qed.

(** [BirthDeath] is the instance of [SetOrder] at the order of
    [elements]. *)
Lemma loop_at_elements fuel cfg b d bsd dsd i1 i2 st :
  SetOrder.loop elements fuel cfg b d bsd dsd i1 i2 st
  = BirthDeath.loop fuel cfg b d bsd dsd i1 i2 st.
Proof.
  revert st. induction fuel as [| fuel IH]; intros st; [reflexivity |].
  cbn [SetOrder.loop BirthDeath.loop].
  change (SetOrder.iteration elements cfg b d bsd dsd i1 i2 st)
    with (BirthDeath.iteration cfg b d bsd dsd i1 i2 st).
  destruct (BirthDeath.iteration _ _ _ _ _ _ _ _) as [[[] st1] |];
    [apply IH | reflexivity ..].
Qed.

Lemma birth_death_tree_at_elements prune suppress b d bsd dsd kwargs G fuel :
  SetOrder.birth_death_tree elements prune suppress b d bsd dsd kwargs G fuel
  = BirthDeath.birth_death_tree prune suppress b d bsd dsd kwargs G fuel.
Proof.
  unfold SetOrder.birth_death_tree, BirthDeath.birth_death_tree,
    SetOrder.grow, BirthDeath.grow.
  destruct (BirthDeath.parse_kwargs kwargs) as [cfg |]; [| done].
  destruct (BirthDeath.initialize cfg b d) as [[[t0 ex] ei] |]; [| done].
  destruct (BirthDeath.bind_rng cfg G) as [r |]; [| done].
  rewrite loop_at_elements.
  destruct (BirthDeath.loop _ _ _ _ _ _ _ _ _) as [[[s st1] |] |]; done.
Qed.

Lemma insert_asc_perm a l : SetOrder.insert_asc a l ≡ₚ a :: l.
Proof.
  induction l as [| b l IH]; cbn [SetOrder.insert_asc]; [done |].
  destruct (a <=? b)%nat; [done |].
  rewrite IH. apply Permutation_swap.
Qed.

Lemma ascending_valid : SetOrder.valid SetOrder.ascending.
Proof.
  intros X. unfold SetOrder.ascending.
  induction (elements X) as [| a l IH]; cbn [foldr]; [done |].
  by rewrite insert_asc_perm, IH.
Qed.

Section Claims.

Variable prune_subtree : tree -> nat -> bool -> tree.
Variable suppress_unifurcations : tree -> tree.
Variable discrete_prune_subtree : tree -> nat -> tree.
Variable randomly_assign_taxa : tree -> Rng.rng -> tree * Rng.rng.

Lemma birth_death_tree_global_irrelevant order b d bsd dsd kwargs r G1 G2 fuel :
  kwargs !! "rng" = Some (VRng r) ->
  option_map bd_observable
    (SetOrder.birth_death_tree order prune_subtree suppress_unifurcations
       b d bsd dsd kwargs G1 fuel)
  = option_map bd_observable
      (SetOrder.birth_death_tree order prune_subtree suppress_unifurcations
         b d bsd dsd kwargs G2 fuel).
Proof.
  intros Hr. unfold SetOrder.birth_death_tree, SetOrder.grow.
  destruct (BirthDeath.parse_kwargs kwargs) as [cfg |] eqn:Ep; [| done].
  apply parse_kwargs_ok in Ep.
  assert (Hcfg : BirthDeath.rng_arg cfg = Some (VRng r)) by (by subst cfg).
  destruct (BirthDeath.initialize cfg b d) as [[[t0 ex] ei] |]; [| done].
  unfold BirthDeath.bind_rng. rewrite Hcfg.
  destruct (SetOrder.loop _ _ _ _ _ _ _ _ _ _) as [[[s st1] |] |]; [| done..].
  cbn [option_map].
  destruct (SetOrder.finish _ _ _ _ _ _) as [[t r1] |]; reflexivity.
Qed.

Lemma birth_death_tree_fuel_mono order b d bsd dsd kwargs G fuel fuel' o :
  (fuel <= fuel')%nat ->
  SetOrder.birth_death_tree order prune_subtree suppress_unifurcations
    b d bsd dsd kwargs G fuel = Some o ->
  SetOrder.birth_death_tree order prune_subtree suppress_unifurcations
    b d bsd dsd kwargs G fuel' = Some o.
Proof.
  intros Hle. unfold SetOrder.birth_death_tree, SetOrder.grow.
  destruct (BirthDeath.parse_kwargs kwargs) as [cfg |]; [| done].
  destruct (BirthDeath.initialize cfg b d) as [[[t0 ex] ei] |]; [| done].
  destruct (BirthDeath.bind_rng cfg G) as [r |]; [| done].
  destruct (SetOrder.loop order fuel _ _ _ _ _ _ _ _) as [x |] eqn:E; [| done].
  rewrite (set_order_loop_fuel_mono _ _ _ _ _ _ _ _ _ _ _ _ Hle E). done.
Qed.

Lemma discrete_global_irrelevant b d bsd dsd kwargs r G1 G2 fuel :
  kwargs !! "rng" = Some (VRng r) ->
  option_map discrete_observable
    (Discrete.discrete_birth_death_tree discrete_prune_subtree
       randomly_assign_taxa b d bsd dsd kwargs G1 fuel)
  = option_map discrete_observable
      (Discrete.discrete_birth_death_tree discrete_prune_subtree
         randomly_assign_taxa b d bsd dsd kwargs G2 fuel).
Proof.
  intros Hr. unfold Discrete.discrete_birth_death_tree.
  destruct (Discrete.parse_kwargs kwargs) as [cfg |] eqn:Ep; [| done].
  apply discrete_parse_rng in Ep. rewrite Hr in Ep.
  cbn [mbind res_bind Py.bind]. unfold Discrete.bind_rng. rewrite Ep.
  cbn [mbind res_bind Py.bind].
  destruct (Discrete.initialize cfg kwargs b d) as [t0 |]; [| done].
  cbn [mbind res_bind Py.bind].
  destruct (Discrete.growth _ _ _ _ _ _ _ _ _) as [[st1 |] |]; [| done..].
  destruct (Discrete.coda _ _ _ _ _ _ _) as [[[g r1] |] |]; [| done..].
  cbn [option_map].
  destruct (BirthDeath.fold_res _ _ _) as [ns |]; [| done].
  cbn [mbind res_bind Py.bind]. rewrite Ep.
  destruct (if Discrete.assign_taxa cfg then _ else _) as [t r2]. reflexivity.
Qed.

Lemma discrete_fuel_mono b d bsd dsd kwargs G fuel fuel' o :
  (fuel <= fuel')%nat ->
  Discrete.discrete_birth_death_tree discrete_prune_subtree
    randomly_assign_taxa b d bsd dsd kwargs G fuel = Some o ->
  Discrete.discrete_birth_death_tree discrete_prune_subtree
    randomly_assign_taxa b d bsd dsd kwargs G fuel' = Some o.
Proof.
  intros Hle. unfold Discrete.discrete_birth_death_tree.
  destruct (_ ≫= _) as [[[cfg r] t0] |]; [| done].
  destruct (Discrete.growth _ fuel _ _ _ _ _ _ _) as [x |] eqn:E; [| done].
  rewrite (growth_fuel_mono _ _ _ _ _ _ _ _ _ _ _ Hle E).
  destruct x as [st1 |]; [| done].
  destruct (Discrete.coda fuel _ _ _ _ _ _) as [y |] eqn:E2; [| done].
  rewrite (coda_fuel_mono _ _ _ _ _ _ _ _ _ Hle E2). done.
Qed.

Lemma birth_death_tree_global_untouched order b d bsd dsd kwargs v G fuel out :
  kwargs !! "rng" = Some v ->
  SetOrder.birth_death_tree order prune_subtree suppress_unifurcations
    b d bsd dsd kwargs G fuel = Some (Ok out) ->
  BirthDeath.GLOBAL_RNG_after out = G.
Proof.
  intros Hr. unfold SetOrder.birth_death_tree, SetOrder.grow.
  destruct (BirthDeath.parse_kwargs kwargs) as [cfg |] eqn:Ep; [| done].
  apply parse_kwargs_ok in Ep.
  assert (Hcfg : BirthDeath.rng_arg cfg = Some v) by (by subst cfg).
  destruct (BirthDeath.initialize cfg b d) as [[[t0 ex] ei] |]; [| done].
  destruct (BirthDeath.bind_rng cfg G) as [r |]; [| done].
  destruct (SetOrder.loop _ _ _ _ _ _ _ _ _ _) as [[[s st1] |] |]; [| done..].
  destruct (SetOrder.finish _ _ _ _ _ _) as [[t r1] |]; [| done].
  cbn. intros [= <-]. cbn. by rewrite Hcfg.
Qed.

Lemma discrete_global_untouched b d bsd dsd kwargs v G fuel out :
  kwargs !! "rng" = Some v ->
  Discrete.discrete_birth_death_tree discrete_prune_subtree
    randomly_assign_taxa b d bsd dsd kwargs G fuel = Some (Ok out) ->
  Discrete.GLOBAL_RNG_after out = G.
Proof.
  intros Hr. unfold Discrete.discrete_birth_death_tree.
  destruct (Discrete.parse_kwargs kwargs) as [cfg |] eqn:Ep; [| done].
  apply discrete_parse_rng in Ep. rewrite Hr in Ep.
  cbn [mbind res_bind Py.bind].
  destruct (Discrete.bind_rng cfg G) as [r |]; [| done].
  cbn [mbind res_bind Py.bind].
  destruct (Discrete.initialize cfg kwargs b d) as [t0 |]; [| done].
  cbn [mbind res_bind Py.bind].
  destruct (Discrete.growth _ _ _ _ _ _ _ _ _) as [[st1 |] |]; [| done..].
  destruct (Discrete.coda _ _ _ _ _ _ _) as [[[g r1] |] |]; [| done..].
  destruct (BirthDeath.fold_res _ _ _) as [ns |]; [| done].
  cbn [mbind res_bind Py.bind]. rewrite Ep.
  destruct (if Discrete.assign_taxa cfg then _ else _) as [t r2].
  intros [= <-]. reflexivity.
Qed.

(** C8 (amended).  With a caller-supplied generator, no randomness is
    taken from the global generator: two calls of [birth_death_tree] that
    iterate the sets of tips in the same order, and likewise two calls of
    [discrete_birth_death_tree], with the same arguments and the
    generator in the same state return the same tree and leave the
    generator in the same state, whatever the state of the global
    generator, which they leave untouched.  The order in which a set of
    tips is iterated is a parameter of the run of [birth_death_tree]: the
    arguments and the seed do not fix it. *)
Theorem seeded_runs_agree (order : gset nat -> list nat) (b d bsd dsd : Q)
    (kwargs : gmap string value) (r G1 G2 : Rng.rng) (fuel1 fuel2 : nat) :
  kwargs !! "rng" = Some (VRng r) ->
  (forall o1 o2,
     SetOrder.birth_death_tree order prune_subtree suppress_unifurcations
       b d bsd dsd kwargs G1 fuel1 = Some o1 ->
     SetOrder.birth_death_tree order prune_subtree suppress_unifurcations
       b d bsd dsd kwargs G2 fuel2 = Some o2 ->
     bd_observable o1 = bd_observable o2
     /\ forall out, o1 = Ok out -> BirthDeath.GLOBAL_RNG_after out = G1)
  /\ (forall o1 o2,
        Discrete.discrete_birth_death_tree discrete_prune_subtree
          randomly_assign_taxa b d bsd dsd kwargs G1 fuel1 = Some o1 ->
        Discrete.discrete_birth_death_tree discrete_prune_subtree
          randomly_assign_taxa b d bsd dsd kwargs G2 fuel2 = Some o2 ->
        discrete_observable o1 = discrete_observable o2
        /\ forall out, o1 = Ok out -> Discrete.GLOBAL_RNG_after out = G1).
Proof.
  intros Hr. split.
  - intros o1 o2 H1 H2. split.
    + pose proof H1 as H1'. pose proof H2 as H2'.
      apply (birth_death_tree_fuel_mono _ _ _ _ _ _ _ _ (Nat.max fuel1 fuel2)) in H1';
        [| lia].
      apply (birth_death_tree_fuel_mono _ _ _ _ _ _ _ _ (Nat.max fuel1 fuel2)) in H2';
        [| lia].
      pose proof (birth_death_tree_global_irrelevant order b d bsd dsd kwargs r G1 G2
                    (Nat.max fuel1 fuel2) Hr) as H.
      rewrite H1', H2' in H. cbn in H. congruence.
    + intros out ->. eapply birth_death_tree_global_untouched; eauto.
  - intros o1 o2 H1 H2. split.
    + pose proof H1 as H1'. pose proof H2 as H2'.
      apply (discrete_fuel_mono _ _ _ _ _ _ _ (Nat.max fuel1 fuel2)) in H1';
        [| lia].
      apply (discrete_fuel_mono _ _ _ _ _ _ _ (Nat.max fuel1 fuel2)) in H2';
        [| lia].
      pose proof (discrete_global_irrelevant b d bsd dsd kwargs r G1 G2
                    (Nat.max fuel1 fuel2) Hr) as H.
      rewrite H1', H2' in H. cbn in H. congruence.
    + intros out ->. eapply discrete_global_untouched; eauto.
Qed.

End Claims.

Lemma seeded_runs_agree_witness :
  (exists o1 o2,
     SetOrder.birth_death_tree SetOrder.ascending TreeLibrary.prune_subtree
       TreeLibrary.suppress_unifurcations 1 0 0 0 seeded
       (const_rng (1 # 2) 1 0) 10 = Some o1
     /\ SetOrder.birth_death_tree SetOrder.ascending TreeLibrary.prune_subtree
          TreeLibrary.suppress_unifurcations 1 0 0 0 seeded
          (const_rng (3 # 4) 2 1) 12 = Some o2
     /\ Py.is_ok o1 = true
     /\ bd_observable o1 = bd_observable o2)
  /\ (exists o1 o2,
        Discrete.discrete_birth_death_tree
          (fun t nd => TreeLibrary.prune_subtree t nd true)
          TreeLibrary.randomly_assign_taxa 1 0 0 0 seeded
          (const_rng (1 # 2) 1 0) 10 = Some o1
        /\ Discrete.discrete_birth_death_tree
             (fun t nd => TreeLibrary.prune_subtree t nd true)
             TreeLibrary.randomly_assign_taxa 1 0 0 0 seeded
             (const_rng (3 # 4) 2 1) 12 = Some o2
        /\ Py.is_ok o1 = true
        /\ discrete_observable o1 = discrete_observable o2).
Proof.
  destruct (seeded_runs_agree TreeLibrary.prune_subtree
              TreeLibrary.suppress_unifurcations
              (fun t nd => TreeLibrary.prune_subtree t nd true)
              TreeLibrary.randomly_assign_taxa SetOrder.ascending 1 0 0 0 seeded
              (const_rng (1 # 4) 1 0) (const_rng (1 # 2) 1 0)
              (const_rng (3 # 4) 2 1) 10 12 eq_refl) as [H1 H2].
  split.
  - do 2 eexists. split; [vm_compute; reflexivity |].
    split; [vm_compute; reflexivity |]. split; [reflexivity |].
    apply H1; vm_compute; reflexivity.
  - do 2 eexists. split; [vm_compute; reflexivity |].
    split; [vm_compute; reflexivity |]. split; [reflexivity |].
    apply H2; vm_compute; reflexivity.
Defined.

(** Two calls of [birth_death_tree] with the same arguments and the same
    seeded generator that iterate the sets of tips in different orders:
    with birth rate 1, death rate 0, a target of four extant tips and
    every uniform draw 1/8, each birth falls on the tip that is visited
    first.  In the order of [elements] the tree that is returned is a
    caterpillar (leaves at depths 1, 2, 3, 3), in ascending order of the
    nodes it is balanced (every leaf at depth 2); both runs take the same
    draws. *)
Lemma seeded_runs_order_refuted :
  SetOrder.valid elements /\ SetOrder.valid SetOrder.ascending
  /\ exists out1 out2,
       BirthDeath.birth_death_tree TreeLibrary.prune_subtree
         TreeLibrary.suppress_unifurcations 1 0 0 0 SetOrder.seeded_four_tips
         (const_rng (1 # 2) 1 0) 10 = Some (Ok out1)
       /\ SetOrder.birth_death_tree elements TreeLibrary.prune_subtree
            TreeLibrary.suppress_unifurcations 1 0 0 0 SetOrder.seeded_four_tips
            (const_rng (1 # 2) 1 0) 10 = Some (Ok out1)
       /\ SetOrder.birth_death_tree SetOrder.ascending TreeLibrary.prune_subtree
            TreeLibrary.suppress_unifurcations 1 0 0 0 SetOrder.seeded_four_tips
            (const_rng (1 # 2) 1 0) 10 = Some (Ok out2)
       /\ BirthDeath.rng_after out1 = BirthDeath.rng_after out2
       /\ SetOrder.leaf_depths (BirthDeath.returned out1)
          = [1; 2; 3; 3]%nat
       /\ SetOrder.leaf_depths (BirthDeath.returned out2)
          = [2; 2; 2; 2]%nat
       /\ ~ SetOrder.leaf_depths (BirthDeath.returned out1)
            ≡ₚ SetOrder.leaf_depths (BirthDeath.returned out2).
Proof.
  split; [by intros X |]. split; [exact ascending_valid |].
  do 2 eexists. split; [vm_compute; reflexivity |].
  split; [vm_compute; reflexivity |].
  split; [vm_compute; reflexivity |].
  split; [reflexivity |].
  split; [vm_compute; reflexivity |].
  split; [vm_compute; reflexivity |].
  intros H. vm_compute in H.
  assert (Hin : In 1%nat [2; 2; 2; 2]%nat)
    by (apply (Permutation_in _ H); left; reflexivity).
  destruct Hin as [? | [? | [? | [? | []]]]]; discriminate.
Qed.

End Reproducible.

(** ** Further properties of the code *)

Module FitEdge.
Import Fit FitFacts FitTree.
Open Scope Q_scope.

Lemma filter_filter {A} (p q : A -> bool) l :
  List.filter p (List.filter q l) = List.filter (fun i => q i && p i) l.
Proof.
  induction l as [| a l IH]; simpl; [done |].
  destruct (q a); simpl; [destruct (p a) |]; by rewrite IH.
Qed.

(** What [rate_estimate] computes from ages whose largest is [a]. *)
Lemma rate_estimate_sorted (ages : list Q) a t' :
  sorted_desc ages = a :: t' ->
  let x := a :: t' in
  let k := length (List.filter (Qle_bool a) x) in
  let mid := smaller_ages a x in
  (a < 0 -> rate_estimate ages = Raise ValueError) /\
  (a == 0 -> rate_estimate ages = Raise ZeroDivisionError) /\
  (0 < a ->
   exists smax,
     rate_estimate ages
     = Ok ((Z.of_nat k + 1)%Z, (Z.of_nat k + 1 + Z.of_nat (length mid))%Z, smax)
     /\ smax == inject_Z (Z.of_nat (length mid))
                / (inject_Z (Z.of_nat k + 1) * a + sumQ mid)
     /\ 0 < inject_Z (Z.of_nat k + 1) * a + sumQ mid).
Proof.
  intros Hx x k mid.
  assert (Hdesc : desc x) by (subst x; rewrite <- Hx; apply sorted_desc_sorted).
  unfold rate_estimate. rewrite Hx. fold x.
  set (pre := List.filter (Qle_bool a) x) in *.
  set (post := List.filter (fun i => Qlt_bool i a) x).
  assert (Hsplit : x = pre ++ post) by (apply desc_split; exact Hdesc).
  assert (Hpre : Forall (fun i => Qle_bool a i = true) pre) by apply Forall_filter.
  assert (Hpost : Forall (fun i => Qle_bool a i = false) post).
  { eapply Forall_impl; [apply Forall_filter |]. simpl. intros i Hi.
    apply Qle_bool_false, Qlt_bool_iff, Hi. }
  assert (Haa : Qle_bool a a = true) by (apply Qle_bool_iff; lra).
  assert (Hk : exists k', k = S k').
  { subst k pre x. simpl. rewrite Haa. simpl. eauto. }
  destruct Hk as [k' Hk].
  assert (Hle_a : Forall (fun i => i <= a) x).
  { subst x. inversion Hdesc; subst. constructor; [lra | assumption]. }
  assert (Elo : omap (fun '(idx, i) => if Qle_bool a i then Some (nvec idx) else None)
                     (enumerate x) = map nvec (seq 0 (S k'))).
  { unfold enumerate. rewrite Hsplit at 2. rewrite <- Hk.
    apply (omap_enumerate_prefix (Qle_bool a)); auto. by rewrite <- Hsplit. }
  set (pre0 := List.filter (Qle_bool 0) x).
  set (post0 := List.filter (fun i => Qlt_bool i 0) x).
  assert (Hsplit0 : x = pre0 ++ post0) by (apply desc_split; exact Hdesc).
  assert (Eup : omap (fun '(idx, i) => if Qle_bool 0 i then Some (nvec idx) else None)
                     (enumerate x) = map nvec (seq 0 (length pre0))).
  { unfold enumerate. rewrite Hsplit0 at 2.
    apply (omap_enumerate_prefix (Qle_bool 0)).
    - apply Forall_filter.
    - eapply Forall_impl; [apply Forall_filter |]. simpl. intros i Hi.
      apply Qle_bool_false, Qlt_bool_iff, Hi.
    - by rewrite <- Hsplit0. }
  cbn [mbind res_bind Py.bind].
  rewrite Elo, Eup, py_max_nvec. cbn [mbind res_bind Py.bind].
  split; [| split].
  - (* every age is negative *)
    intros Hneg.
    assert (E0 : pre0 = []).
    { subst pre0. apply filter_none.
      eapply Forall_impl; [exact Hle_a |]. simpl. intros i Hi.
      apply Qle_bool_false. lra. }
    rewrite E0. reflexivity.
  - (* the largest age is zero *)
    intros Hzero.
    assert (Hp0 : exists p', length pre0 = S p').
    { subst pre0 x. simpl.
      assert (E : Qle_bool 0 a = true) by (apply Qle_bool_iff; lra).
      rewrite E. simpl. eauto. }
    destruct Hp0 as [p' Hp0]. rewrite Hp0, py_max_nvec.
    cbn [mbind res_bind Py.bind hd]. subst x. cbn [hd]. rewrite Haa.
    cbn [map mbind res_bind Py.bind].
    assert (Emid : List.filter (fun i => Qlt_bool i a && Qle_bool 0 i) (a :: t') = []).
    { apply filter_none. apply List.Forall_forall. intros i _.
      destruct (Qlt_bool i a) eqn:E1; [| done]. cbn.
      apply Qlt_bool_iff in E1. apply Qle_bool_false. lra. }
    rewrite Emid. cbn [map].
    assert (Et3 : slice_from_1 [a - 0] (nvec p' - nvec k' + 1) = []).
    { assert (H1 : forall n, drop 1 (take n [a - 0]) = [])
        by (intros [| [|]]; reflexivity).
      unfold slice_from_1. destruct (_ <? 0)%Z; apply H1. }
    rewrite Et3.
    assert (Ez : Qeq_bool (inject_Z (nvec k') * (a - 0) + sumQ []) 0 = true).
    { apply Qeq_bool_iff. unfold sumQ. cbn [foldl]. rewrite Hzero. lra. }
    by rewrite Ez.
  - (* the largest age is positive *)
    intros Hpos.
    assert (Hmid : pre0 = pre ++ mid).
    { subst pre0 mid. unfold smaller_ages. rewrite Hsplit at 1.
      rewrite List.filter_app. f_equal.
      - apply filter_all. eapply Forall_impl; [exact Hpre |]. simpl.
        intros i Hi. apply Qle_bool_iff in Hi. apply Qle_bool_iff. lra.
      - subst post. apply filter_filter. }
    assert (Hp0 : length pre0 = S (k' + length mid)).
    { rewrite Hmid, length_app. fold k. lia. }
    rewrite Hp0, py_max_nvec.
    cbn [mbind res_bind Py.bind hd]. subst x. cbn [hd]. rewrite Haa.
    cbn [map mbind res_bind Py.bind].
    fold (smaller_ages a (a :: t')). fold mid.
    assert (Eslice : slice_from_1 ((a - 0) :: map (fun i => i - 0) mid)
                       (nvec (k' + length mid) - nvec k' + 1)
                     = map (fun i => i - 0) mid).
    { unfold slice_from_1, nvec.
      replace (2 + Z.of_nat (k' + length mid) - (2 + Z.of_nat k') + 1)%Z
        with (Z.of_nat (S (length mid))) by lia.
      destruct (Z.ltb_spec (Z.of_nat (S (length mid))) 0); [lia |].
      rewrite Nat2Z.id. cbn [take drop].
      rewrite firstn_all2 by (rewrite length_map; lia). reflexivity. }
    rewrite Eslice.
    assert (Hmid_nn : Forall (fun i => 0 <= i) mid).
    { subst mid. unfold smaller_ages.
      eapply Forall_impl; [apply Forall_filter |]. simpl. intros i Hi.
      apply andb_true_iff in Hi as [_ Hi]. by apply Qle_bool_iff. }
    assert (Esum : inject_Z (nvec k') * (a - 0) + sumQ (map (fun i => i - 0) mid)
                   == inject_Z (Z.of_nat k + 1) * a + sumQ mid).
    { rewrite sumQ_map_minus0. unfold nvec. rewrite Hk.
      replace (2 + Z.of_nat k')%Z with (Z.of_nat (S k') + 1)%Z by lia. lra. }
    assert (Hden : 0 < inject_Z (Z.of_nat k + 1) * a + sumQ mid).
    { assert (0 <= sumQ mid) by (by apply sumQ_nonneg).
      assert (1 <= inject_Z (Z.of_nat k + 1)).
      { change 1 with (inject_Z 1). rewrite <- Zle_Qle. lia. }
      nra. }
    destruct (Qeq_bool _ 0) eqn:Ez.
    { apply Qeq_bool_iff in Ez. lra. }
    eexists. split; [| split; [| exact Hden]].
    + do 2 f_equal. f_equal; unfold nvec; lia.
    + rewrite Esum.
      replace (nvec (k' + length mid) - nvec k')%Z with (Z.of_nat (length mid))
        by (unfold nvec; lia).
      reflexivity.
Qed.

Lemma filter_Permutation' {A} (p : A -> bool) l l' :
  Permutation l l' -> Permutation (List.filter p l) (List.filter p l').
Proof.
  induction 1 as [| a l l' _ IH | a c l | l1 l2 l3 _ IH1 _ IH2]; simpl.
  - constructor.
  - destruct (p a); [by constructor | done].
  - destruct (p a), (p c); try reflexivity. apply perm_swap.
  - by etransitivity.
Qed.

Lemma sumQ_Permutation l l' : Permutation l l' -> sumQ l == sumQ l'.
Proof.
  induction 1 as [| a l l' _ IH | a c l | l1 l2 l3 _ IH1 _ IH2].
  - reflexivity.
  - rewrite !sumQ_cons, IH. reflexivity.
  - rewrite !sumQ_cons. lra.
  - by rewrite IH1.
Qed.

Lemma sorted_desc_head ages a t' :
  sorted_desc ages = a :: t' -> In a ages /\ Forall (fun i => i <= a) ages.
Proof.
  intros Hx.
  assert (Hp : Permutation (a :: t') ages) by (rewrite <- Hx; apply sorted_desc_perm).
  split.
  - eapply Permutation_in; [exact Hp | by left].
  - eapply Permutation_Forall; [exact Hp |].
    assert (Hd : desc (a :: t')) by (rewrite <- Hx; apply sorted_desc_sorted).
    inversion Hd; subst. constructor; [lra | assumption].
Qed.

Lemma sorted_desc_nil ages : sorted_desc ages = [] -> ages = [].
Proof.
  intros H. apply length_zero_iff_nil.
  by rewrite <- (sorted_desc_length ages), H.
Qed.

Lemma smaller_ages_nil a ages :
  In a ages -> Forall (fun i => i <= a) ages ->
  smaller_ages a ages = [] <-> all_ages_largest ages.
Proof.
  intros Hin Hmax. split.
  - intros Hnil a' c Ha' Hc H0.
    assert (Ha'le : a' <= a) by (eapply List.Forall_forall in Hmax; eauto).
    destruct (Qlt_le_dec c a) as [Hlt | Hle]; [| lra].
    exfalso.
    assert (Hc' : In c (smaller_ages a ages)).
    { unfold smaller_ages. apply filter_In. split; [done |].
      apply andb_true_iff. split; [by apply Qlt_bool_iff | by apply Qle_bool_iff]. }
    rewrite Hnil in Hc'. destruct Hc'.
  - intros Hall. unfold smaller_ages. apply filter_none.
    apply List.Forall_forall. intros c Hc.
    destruct (Qlt_bool c a) eqn:E1; [| done]. cbn.
    apply Qlt_bool_iff in E1. apply Qle_bool_false.
    destruct (Qlt_le_dec c 0) as [Hlt | Hle]; [done |].
    specialize (Hall a c Hin Hc Hle). lra.
Qed.

Lemma all_ages_largest_dec ages :
  all_ages_largest ages \/ ~ all_ages_largest ages.
Proof.
  destruct (sorted_desc ages) as [| a t'] eqn:Hx.
  - apply sorted_desc_nil in Hx. subst ages. left. by intros a c [].
  - destruct (sorted_desc_head ages a t' Hx) as [Hin Hmax].
    destruct (smaller_ages_nil a ages Hin Hmax) as [H1 H2].
    destruct (smaller_ages a ages) as [| c l]; [left; by apply H1 |].
    right. intros H. by apply H2 in H.
Qed.

Lemma smaller_ages_sorted a ages :
  Permutation (smaller_ages a (sorted_desc ages)) (smaller_ages a ages).
Proof. apply filter_Permutation', sorted_desc_perm. Qed.

(** The outcome of [fit_pure_birth_model] by the sign of the largest age
    and the presence of a smaller non-negative age. *)
Lemma fit_pure_birth_model_sorted (ages : list Q) (flag : option bool) a t' :
  sorted_desc ages = a :: t' ->
  let fit := fit_pure_birth_model
               {| kw_tree := None; kw_internal_node_ages := Some ages;
                  kw_ignore_likelihood_calculation_failure := flag |} in
  (a < 0 -> fit = Raise ValueError) /\
  (a == 0 -> fit = Raise ZeroDivisionError) /\
  (0 < a -> all_ages_largest ages ->
   exists smax, smax == 0 /\
     fit = if default false flag then Raise ValueError
           else Ok {| birth_rate := smax; log_likelihood := NegInf |}) /\
  (0 < a -> ~ all_ages_largest ages ->
   exists smax r, 0 < smax /\
     fit = Ok {| birth_rate := smax; log_likelihood := Finite r |}).
Proof.
  intros Hx fit.
  destruct (rate_estimate_sorted ages a t' Hx) as (Hneg & Hzero & Hpos).
  destruct (sorted_desc_head ages a t' Hx) as [Hin Hmax].
  assert (Hmid := smaller_ages_nil a ages Hin Hmax).
  assert (Hperm := smaller_ages_sorted a ages). rewrite Hx in Hperm.
  subst fit. unfold fit_pure_birth_model.
  cbn [kw_tree kw_internal_node_ages kw_ignore_likelihood_calculation_failure
       mbind res_bind Py.bind].
  split; [| split; [| split]].
  - intros H. by rewrite (Hneg H).
  - intros H. by rewrite (Hzero H).
  - intros Ha Hall. destruct (Hpos Ha) as (smax & -> & Hs & Hden).
    apply Hmid in Hall. rewrite Hall in Hperm.
    apply Permutation_nil_r in Hperm. rewrite Hperm in Hs, Hden. cbn [length] in Hs.
    assert (Hs0 : smax == 0).
    { rewrite Hs. change (inject_Z (Z.of_nat 0)) with 0. field. lra. }
    exists smax. split; [exact Hs0 |].
    cbn [mbind res_bind Py.bind].
    rewrite log_terms_undefined by (left; lra).
    by destruct (default false flag).
  - intros Ha Hall. destruct (Hpos Ha) as (smax & -> & Hs & Hden).
    assert (Hlen : (0 < length (smaller_ages a (a :: t')))%nat).
    { destruct (smaller_ages a (a :: t')) eqn:E; [| cbn; lia].
      exfalso. apply Hall, Hmid. apply Permutation_nil. by symmetry. }
    assert (Hs0 : 0 < smax).
    { rewrite Hs. apply Qlt_shift_div_l; [exact Hden |].
      rewrite Qmult_0_l. change 0 with (inject_Z 0). rewrite <- Zlt_Qlt. lia. }
    cbn [mbind res_bind Py.bind].
    rewrite log_terms_defined by (try lia; exact Hs0).
    cbn [mbind res_bind Py.bind]. eauto.
Qed.

Lemma ages_sign_cases ages a t' :
  sorted_desc ages = a :: t' ->
  (a < 0 <-> Forall (fun i => i < 0) ages) /\
  (a == 0 <-> Forall (fun i => i <= 0) ages /\ Exists (fun i => i == 0) ages) /\
  (0 < a <-> Exists (fun i => 0 < i) ages).
Proof.
  intros Hx. destruct (sorted_desc_head ages a t' Hx) as [Hin Hmax].
  rewrite !List.Forall_forall, !List.Exists_exists.
  rewrite List.Forall_forall in Hmax.
  split; [| split]; split.
  - intros H i Hi. specialize (Hmax i Hi). lra.
  - intros H. by apply H.
  - intros H. split; [| by exists a].
    intros i Hi. specialize (Hmax i Hi). simpl in Hmax. lra.
  - intros (Hle & i & Hi & H0). specialize (Hmax i Hi). specialize (Hle a Hin).
    simpl in *. lra.
  - intros H. by exists a.
  - intros (i & Hi & H0). specialize (Hmax i Hi). simpl in Hmax. lra.
Qed.

(** X1.  [fit_pure_birth_model] called with a list of ages, floats
    within the range of binary64 (none above [2^500], no positive one
    below [2^-500]), raises in exactly four cases: [IndexError] for the
    empty list; [ValueError] (from [max] of an empty sequence, outside
    the [try]) when every age is negative; [ZeroDivisionError] when the
    largest age is zero; and the likelihood [ValueError] when the strict
    flag is true and no non-negative age is smaller than the largest.
    Outside the range an overflow of [lo*nv[0]] makes the rate [0.0], and
    the strict flag then raises although a smaller age exists. *)
Theorem fit_pure_birth_model_failures (ages : list Q) (flag : option bool)
    (e : exn) :
  in_float_range ages = true ->
  fit_pure_birth_model
    {| kw_tree := None; kw_internal_node_ages := Some ages;
       kw_ignore_likelihood_calculation_failure := flag |} = Raise e
  <-> (ages = [] /\ e = IndexError)
      \/ (ages <> [] /\ Forall (fun a => a < 0) ages /\ e = ValueError)
      \/ (Forall (fun a => a <= 0) ages /\ Exists (fun a => a == 0) ages
          /\ e = ZeroDivisionError)
      \/ (flag = Some true /\ Exists (fun a => 0 < a) ages
          /\ all_ages_largest ages /\ e = ValueError).
Proof.
  intros _.
  destruct (sorted_desc ages) as [| a t'] eqn:Hx.
  - apply sorted_desc_nil in Hx. subst ages.
    cbn. split.
    + intros [= <-]. by left.
    + intros [[_ ->] | [(H & _) | [(_ & H & _) | (_ & H & _)]]];
        [done | done | by apply List.Exists_nil in H ..].
  - assert (Hne : ages <> []) by (intros ->; discriminate).
    destruct (ages_sign_cases ages a t' Hx) as (Sneg & Szero & Spos).
    destruct (fit_pure_birth_model_sorted ages flag a t' Hx)
      as (Hneg & Hzero & Hdeg & Hreg).
    cbv zeta in *.
    destruct (Qlt_le_dec a 0) as [Ha | Ha].
    { rewrite (Hneg Ha). split.
      - intros [= <-]. right; left. split; [done |]. split; [by apply Sneg | done].
      - intros [[H _] | [(_ & _ & ->) | [(H1 & H & _) | (_ & H & _)]]];
          [done | done | |].
        + assert (a == 0) by (apply Szero; by split). lra.
        + apply Spos in H. lra. }
    destruct (Qeq_dec a 0) as [Hz | Hz].
    { rewrite (Hzero Hz). split.
      - intros [= <-]. right; right; left.
        destruct (proj1 Szero Hz) as [H1 H2]. done.
      - intros [[H _] | [(_ & H & _) | [(_ & _ & ->) | (_ & H & _)]]];
          [done | | done |].
        + apply Sneg in H. lra.
        + apply Spos in H. lra. }
    assert (Hp : 0 < a) by lra.
    assert (Hrest : forall P : Prop,
               (ages = [] /\ e = IndexError)
               \/ (ages <> [] /\ Forall (fun a => a < 0) ages /\ e = ValueError)
               \/ (Forall (fun a => a <= 0) ages /\ Exists (fun a => a == 0) ages
                   /\ e = ZeroDivisionError)
               \/ P <-> P).
    { intros P. split; [| tauto].
      intros [[H _] | [(_ & H & _) | [(H1 & H & _) | H]]]; [done | | | done].
      - apply Sneg in H. lra.
      - assert (a == 0) by (apply Szero; by split). lra. }
    rewrite Hrest.
    destruct (all_ages_largest_dec ages) as [Hall | Hall].
    + destruct (Hdeg Hp Hall) as (smax & _ & ->).
      destruct flag as [[|] |]; cbn [default Datatypes.id].
      * split; [intros [= <-] | by intros (_ & _ & _ & ->)].
        split; [done |]. split; [by apply Spos | done].
      * split; [done | by intros ([=] & _)].
      * split; [done | by intros ([=] & _)].
    + destruct (Hreg Hp Hall) as (smax & r & _ & ->).
      split; [done | tauto].
Qed.

(** X2.  With a positive age, ages that are floats within the range of
    binary64 (none above [2^500], no positive one below [2^-500]) and the
    strict flag not set, the call returns an estimate whose birth rate is never
    negative; the rate is zero, and the log-likelihood minus infinity,
    exactly when no non-negative age is smaller than the largest one.
    Outside the range the rate can be [0.0] through an overflow of
    [lo*nv[0]]. *)
Theorem fit_pure_birth_model_zero_rate (ages : list Q) (flag : option bool) :
  Exists (fun a => 0 < a) ages ->
  in_float_range ages = true ->
  flag <> Some true ->
  exists est,
    fit_pure_birth_model
      {| kw_tree := None; kw_internal_node_ages := Some ages;
         kw_ignore_likelihood_calculation_failure := flag |} = Ok est
    /\ 0 <= birth_rate est
    /\ (birth_rate est == 0 <-> all_ages_largest ages)
    /\ (log_likelihood est = NegInf <-> all_ages_largest ages).
Proof.
  intros Hex _ Hflag.
  destruct (sorted_desc ages) as [| a t'] eqn:Hx.
  { apply sorted_desc_nil in Hx. subst ages. by apply List.Exists_nil in Hex. }
  destruct (ages_sign_cases ages a t' Hx) as (_ & _ & Spos).
  apply Spos in Hex.
  destruct (fit_pure_birth_model_sorted ages flag a t' Hx)
    as (_ & _ & Hdeg & Hreg).
  cbv zeta in *.
  destruct (all_ages_largest_dec ages) as [Hall | Hall].
  - destruct (Hdeg Hex Hall) as (smax & Hs & ->).
    assert (E : default false flag = false) by (by destruct flag as [[|] |]).
    rewrite E. eexists. split; [reflexivity |]. cbn [birth_rate log_likelihood].
    split; [lra | tauto].
  - destruct (Hreg Hex Hall) as (smax & r & Hs & ->).
    eexists. split; [reflexivity |]. cbn [birth_rate log_likelihood].
    split; [lra |]. split; split; try done; intros; lra.
Qed.

Lemma fit_pure_birth_model_zero_rate_witness :
  exists est,
    fit_pure_birth_model (ages_only [2; 2]) = Ok est
    /\ 0 <= birth_rate est
    /\ (birth_rate est == 0 <-> all_ages_largest [2; 2])
    /\ (log_likelihood est = NegInf <-> all_ages_largest [2; 2]).
Proof.
  apply (fit_pure_birth_model_zero_rate [2; 2] None).
  - constructor. reflexivity.
  - vm_compute. reflexivity.
  - discriminate.
Defined.

Lemma fit_pure_birth_model_failures_witness :
  fit_pure_birth_model
    {| kw_tree := None; kw_internal_node_ages := Some [-1; -2];
       kw_ignore_likelihood_calculation_failure := None |} = Raise ValueError
  /\ fit_pure_birth_model
       {| kw_tree := None; kw_internal_node_ages := Some [2; 2];
          kw_ignore_likelihood_calculation_failure := Some true |}
     = Raise ValueError.
Proof.
  split.
  - apply (fit_pure_birth_model_failures [-1; -2] None ValueError).
    + vm_compute. reflexivity.
    + right; left. split; [discriminate |].
      split; [repeat constructor | reflexivity].
  - apply (fit_pure_birth_model_failures [2; 2] (Some true) ValueError).
    + vm_compute. reflexivity.
    + right; right; right. split; [reflexivity |].
      split; [constructor; reflexivity |].
      split; [| reflexivity].
      intros a c [<- | [<- | []]] [<- | [<- | []]] _; discriminate.
Defined.

(** X4.  [fit_pure_birth_model_to_tree] is [fit_pure_birth_model] on the
    ages of the tree with the strict flag unset: on non-negative ages, at
    least one of them, it raises [ZeroDivisionError] when every age is
    zero and otherwise returns an estimate with a non-negative rate. *)
Theorem fit_pure_birth_model_to_tree_outcome (tree : list Q) :
  tree <> [] ->
  Forall (fun a => 0 <= a) tree ->
  fit_pure_birth_model_to_tree tree = fit_pure_birth_model (ages_only tree)
  /\ (Forall (fun a => a == 0) tree ->
      fit_pure_birth_model_to_tree tree = Raise ZeroDivisionError)
  /\ (Exists (fun a => 0 < a) tree ->
      exists est, fit_pure_birth_model_to_tree tree = Ok est
                  /\ 0 <= birth_rate est).
Proof.
  intros Hne Hnn.
  assert (E : fit_pure_birth_model_to_tree tree = fit_pure_birth_model (ages_only tree))
    by reflexivity.
  split; [exact E |]. rewrite E. unfold ages_only.
  destruct (sorted_desc tree) as [| a t'] eqn:Hx.
  { by apply sorted_desc_nil in Hx. }
  destruct (ages_sign_cases tree a t' Hx) as (_ & Szero & Spos).
  destruct (fit_pure_birth_model_sorted tree None a t' Hx)
    as (_ & Hzero & Hdeg & Hreg).
  cbv zeta in *. split.
  - intros Hall. apply Hzero, Szero.
    destruct (sorted_desc_head tree a t' Hx) as [Hin _].
    split.
    + eapply Forall_impl; [exact Hall |]. simpl. intros; lra.
    + apply List.Exists_exists. exists a. split; [done |].
      eapply List.Forall_forall in Hall; eauto.
  - intros Hex. apply Spos in Hex.
    destruct (all_ages_largest_dec tree) as [Hall | Hall].
    + destruct (Hdeg Hex Hall) as (smax & Hs & ->). cbn.
      eexists. split; [reflexivity |]. cbn. lra.
    + destruct (Hreg Hex Hall) as (smax & r & Hs & ->).
      eexists. split; [reflexivity |]. cbn. lra.
Qed.

Lemma fit_pure_birth_model_to_tree_outcome_witness :
  fit_pure_birth_model_to_tree [3; 2; 1] = fit_pure_birth_model (ages_only [3; 2; 1])
  /\ (Forall (fun a => a == 0) [3; 2; 1] ->
      fit_pure_birth_model_to_tree [3; 2; 1] = Raise ZeroDivisionError)
  /\ (Exists (fun a => 0 < a) [3; 2; 1] ->
      exists est, fit_pure_birth_model_to_tree [3; 2; 1] = Ok est
                  /\ 0 <= birth_rate est).
Proof.
  apply (fit_pure_birth_model_to_tree_outcome [3; 2; 1]).
  - discriminate.
  - repeat constructor; discriminate.
Defined.

Lemma log_terms_Qeq lo up s s' : s == s' -> log_terms lo up s = log_terms lo up s'.
Proof.
  intros H. unfold log_terms, Qlt_bool.
  rewrite (Qreals.Qeq_eqR _ _ H). by rewrite H.
Qed.

Lemma length_filter_Permutation {A} (p : A -> bool) l l' :
  Permutation l l' -> length (List.filter p l) = length (List.filter p l').
Proof. intros H. by apply Permutation_length, filter_Permutation'. Qed.

(** X3.  The result of [fit_pure_birth_model] does not depend on the
    order in which the ages are given: two permutations of the same ages
    raise the same exception or give equal rates and log-likelihoods. *)
Theorem fit_pure_birth_model_order_irrelevant (ages ages' : list Q)
    (flag : option bool) :
  Permutation ages ages' ->
  same_estimate
    (fit_pure_birth_model
       {| kw_tree := None; kw_internal_node_ages := Some ages;
          kw_ignore_likelihood_calculation_failure := flag |})
    (fit_pure_birth_model
       {| kw_tree := None; kw_internal_node_ages := Some ages';
          kw_ignore_likelihood_calculation_failure := flag |}).
Proof.
  intros Hperm. unfold fit_pure_birth_model.
  cbn [kw_tree kw_internal_node_ages kw_ignore_likelihood_calculation_failure
       mbind res_bind Py.bind].
  destruct (sorted_desc ages) as [| a t1] eqn:Hx.
  { apply sorted_desc_nil in Hx. subst ages.
    apply Permutation_nil in Hperm. subst ages'. cbn. reflexivity. }
  destruct (sorted_desc ages') as [| a' t2] eqn:Hx'.
  { apply sorted_desc_nil in Hx'. subst ages'.
    apply Permutation_sym, Permutation_nil in Hperm. subst ages. discriminate. }
  destruct (sorted_desc_head ages a t1 Hx) as [Hin Hmax].
  destruct (sorted_desc_head ages' a' t2 Hx') as [Hin' Hmax'].
  assert (Haa : a == a').
  { assert (a <= a').
    { eapply List.Forall_forall in Hmax'; [exact Hmax' |].
      eapply Permutation_in; eauto. }
    assert (a' <= a).
    { eapply List.Forall_forall in Hmax; [exact Hmax |].
      eapply Permutation_in; [symmetry |]; eauto. }
    lra. }
  destruct (rate_estimate_sorted ages a t1 Hx) as (Hneg & Hzero & Hpos).
  destruct (rate_estimate_sorted ages' a' t2 Hx') as (Hneg' & Hzero' & Hpos').
  cbv zeta in *.
  destruct (Qlt_le_dec a 0) as [Ha | Ha].
  { rewrite (Hneg Ha), Hneg' by lra. reflexivity. }
  destruct (Qeq_dec a 0) as [Hz | Hz].
  { rewrite (Hzero Hz), Hzero' by lra. reflexivity. }
  destruct Hpos as (s & -> & Hs & Hden); [lra |].
  destruct Hpos' as (s' & -> & Hs' & Hden'); [lra |].
  assert (P1 : Permutation (a :: t1) (a' :: t2)).
  { rewrite <- Hx, <- Hx'. rewrite !sorted_desc_perm. exact Hperm. }
  assert (Ek : length (List.filter (Qle_bool a) (a :: t1))
               = length (List.filter (Qle_bool a') (a' :: t2))).
  { rewrite (length_filter_Permutation _ _ _ P1). f_equal.
    apply filter_ext. intros i. by rewrite Haa. }
  assert (Pmid : Permutation (smaller_ages a (a :: t1)) (smaller_ages a' (a' :: t2))).
  { unfold smaller_ages.
    rewrite (filter_Permutation' _ _ _ P1).
    erewrite filter_ext; [reflexivity |]. intros i. cbv beta.
    unfold Qlt_bool. by rewrite Haa. }
  assert (Elen := Permutation_length Pmid).
  assert (Esum := sumQ_Permutation _ _ Pmid).
  assert (Ess : s == s').
  { rewrite Hs, Hs'. rewrite Ek, Elen, Esum, Haa. reflexivity. }
  rewrite Ek, Elen. cbn [mbind res_bind Py.bind].
  rewrite (log_terms_Qeq _ _ s s' Ess).
  destruct (log_terms _ _ s') as [lh | []]; cbn; try reflexivity.
  - split; [exact Ess | reflexivity].
  - destruct (default false flag); cbn; [reflexivity |]. split; [exact Ess | reflexivity].
Qed.

Lemma fit_pure_birth_model_order_irrelevant_witness :
  same_estimate (fit_pure_birth_model (ages_only [1; 3; 2]))
                (fit_pure_birth_model (ages_only [3; 2; 1])).
Proof.
  apply (fit_pure_birth_model_order_irrelevant [1; 3; 2] [3; 2; 1] None).
  apply Permutation_cons_app with (l1 := [3; 2]) (l2 := []). reflexivity.
Defined.

End FitEdge.

Module TipSetFacts.
Import Tree Kw BirthDeath Runs BirthDeathFacts PureBirth TipSets.
Open Scope Q_scope.

Lemma select_In {A} (seq : list A) weights rnd a :
  Probability.select seq weights rnd = Some a -> In a seq.
Proof.
  revert weights rnd. induction seq as [| x seq IH]; intros [| w ws] rnd;
    cbn [Probability.select]; try discriminate.
  destruct (Fit.Qlt_bool _ _); [intros [= ->]; by left |].
  intros H. right. eapply IH, H.
Qed.

Lemma collect_events_store b d tips ns :
  (collect_events b d tips ns).2
  = flat_map (fun id => [(id, true); (id, false)]) tips
  /\ length (collect_events b d tips ns).1.1 = length ns
  /\ forall {X} (P : node -> X),
       (forall rb rd x, P (set_rates rb rd x) = P x) ->
       forall id, P (node_at (collect_events b d tips ns).1.1 id) = P (node_at ns id).
Proof.
  revert ns. induction tips as [| nd tips IH]; intros ns; cbn [collect_events].
  - done.
  - destruct (IH (update (default_rates b d) nd ns)) as (H1 & H2 & H3).
    destruct (collect_events b d tips _) as [[ns' rates] evs].
    cbn [fst snd flat_map app] in *. rewrite H1, H2, length_update.
    split; [done |]. split; [done |].
    intros X P HP id. rewrite H3 by done.
    apply update_preserves. intros x. apply HP.
Qed.

Lemma partition_after_birth (ext ei : gset nat) (nd L : nat) :
  nd ∈ ext -> ext ## ei ->
  (forall j, j ∈ ext ∪ ei -> (j < L)%nat) ->
  (ext ∖ {[nd]} ∪ {[L]} ∪ {[S L]}) ## ei
  /\ flat_map (fun x => if decide (x = nd) then [L; S L] else [x])
              (elements (ext ∪ ei))
     ≡ₚ elements (ext ∖ {[nd]} ∪ {[L]} ∪ {[S L]} ∪ ei).
Proof.
  intros Hnd Hdis Hb.
  assert (HLe : L ∉ ext ∪ ei) by (intros H; apply Hb in H; lia).
  assert (HSLe : S L ∉ ext ∪ ei) by (intros H; apply Hb in H; lia).
  assert (Hnei : nd ∉ ei) by (intros H; exact (Hdis nd Hnd H)).
  split.
  - intros x Hx Hei.
    apply elem_of_union in Hx as [Hx | Hx];
      [apply elem_of_union in Hx as [Hx | Hx] |].
    + apply elem_of_difference in Hx as [Hx _]. exact (Hdis x Hx Hei).
    + apply elem_of_singleton in Hx as ->. apply HLe. by apply elem_of_union_r.
    + apply elem_of_singleton in Hx as ->. apply HSLe. by apply elem_of_union_r.
  - set (S0 := (ext ∪ ei) ∖ {[nd]}).
    assert (HndS0 : nd ∉ S0).
    { intros H. apply elem_of_difference in H as [_ H].
      apply H. by apply elem_of_singleton. }
    assert (HLS0 : L ∉ S0).
    { intros H. apply elem_of_difference in H as [H _]. done. }
    assert (HSLS0 : S L ∉ {[L]} ∪ S0).
    { intros H. apply elem_of_union in H as [H | H].
      - apply elem_of_singleton in H. lia.
      - apply elem_of_difference in H as [H _]. done. }
    assert (Hsplit : elements (ext ∪ ei) ≡ₚ nd :: elements S0).
    { rewrite (union_difference_singleton_L nd (ext ∪ ei)) at 1
        by (by apply elem_of_union_l).
      by apply elements_union_singleton. }
    rewrite Hsplit. cbn [flat_map]. rewrite decide_True by done.
    assert (Hrest : flat_map (fun x => if decide (x = nd) then [L; S L] else [x])
                      (elements S0) = elements S0).
    { rewrite <- (flat_map_ext_In (fun x => [x])).
      - clear. induction (elements _) as [| a l IH]; cbn; [done | by rewrite IH].
      - intros a Ha. apply list_elem_of_In, elem_of_elements in Ha.
        rewrite decide_False; [done |]. by intros ->. }
    rewrite Hrest. cbn [app].
    assert (E : ext ∖ {[nd]} ∪ {[L]} ∪ {[S L]} ∪ ei = {[S L]} ∪ ({[L]} ∪ S0)).
    { apply set_eq. intros x. unfold S0.
      rewrite !elem_of_union, !elem_of_difference, !elem_of_union, !elem_of_singleton.
      split.
      - intros [[[[H1 H2] | H] | H] | H]; auto.
        right; right. split; [by right |]. by intros ->.
      - intros [H | [H | [[H1 | H1] H2]]]; auto. }
    rewrite E.
    rewrite elements_union_singleton by done.
    rewrite elements_union_singleton by done.
    apply perm_swap.
Qed.

Lemma same_shape_trans ns1 ns2 ns3 :
  same_shape ns1 ns2 -> same_shape ns2 ns3 -> same_shape ns1 ns3.
Proof.
  intros [H1 H2] [H3 H4]. split; [congruence |].
  intros id. by rewrite H4, H2.
Qed.

Lemma same_shape_update f i ns :
  (forall x, child_nodes (f x) = child_nodes x) -> same_shape ns (update f i ns).
Proof.
  intros Hf. split; [apply length_update |].
  intros id. by apply update_preserves.
Qed.

Lemma same_shape_partitioned st st' :
  same_shape (store st) (store st') ->
  extant_tips st' = extant_tips st ->
  extinct_tips st' = extinct_tips st ->
  leaves_partitioned st -> leaves_partitioned st'.
Proof.
  intros [Hlen Hch] He Hx [H1 H2 H3 H4]. constructor.
  - lia.
  - intros id c Hc. rewrite Hch in Hc. apply H2 in Hc. lia.
  - by rewrite He, Hx.
  - rewrite He, Hx, <- H4. by rewrite (leaf_nodes_ext (store st) (store st')).
Qed.

Lemma partitioned_tip st nd :
  leaves_partitioned st ->
  nd ∈ extant_tips st ∪ extinct_tips st ->
  (nd < length (store st))%nat /\ child_nodes (node_at (store st) nd) = [].
Proof.
  intros [H1 H2 H3 H4] Hnd.
  apply elem_of_elements in Hnd. rewrite <- H4 in Hnd.
  apply list_elem_of_In in Hnd. unfold leaf_nodes in Hnd.
  apply filter_In in Hnd as [Hpre Hleaf]. split.
  - eapply preorder_bound; [exact H2 | | exact Hpre]. done.
  - by apply bool_decide_eq_true in Hleaf.
Qed.

Lemma waited_shape w tips ns : same_shape ns (waited w tips ns).
Proof.
  split; [apply waited_length |].
  intros id. by apply waited_preserves.
Qed.

Lemma collect_events_shape b d tips ns :
  same_shape ns (collect_events b d tips ns).1.1.
Proof.
  destruct (collect_events_store b d tips ns) as (_ & H1 & H2).
  split; [exact H1 |]. intros id. by apply H2.
Qed.

(** A birth at an extant tip keeps the invariant. *)
Lemma birth_partitioned cfg bsd dsd nd st :
  leaves_partitioned st ->
  nd ∈ extant_tips st ->
  forall st_w,
    same_shape (store st) (store st_w) ->
    extant_tips st_w = extant_tips st ∖ {[nd]} ->
    extinct_tips st_w = extinct_tips st ->
    leaves_partitioned (birth cfg bsd dsd nd st_w).
Proof.
  intros Hinv Hnd st_w [Hlen Hch] He Hx.
  destruct (partitioned_tip st nd Hinv) as [HndL Hleaf];
    [by apply elem_of_union_l |].
  destruct Hinv as [H1 H2 H3 H4].
  assert (HndLw : (nd < length (store st_w))%nat) by lia.
  destruct (birth_facts cfg bsd dsd nd st_w HndLw)
    as (Hlen' & Hext' & Hextinct' & _ & _ & _ & Hoth & Hnode & HnL & HnSL).
  set (st' := birth cfg bsd dsd nd st_w) in *.
  set (L := length (store st_w)) in *.
  assert (Hch_nd : child_nodes (node_at (store st') nd) = [L; S L]).
  { rewrite Hnode. cbn [child_nodes set_children]. by rewrite Hch, Hleaf. }
  assert (Hch_oth : forall id, (id < L)%nat -> id <> nd ->
            child_nodes (node_at (store st') id)
            = child_nodes (node_at (store st_w) id)).
  { intros id Hid Hne. by rewrite Hoth. }
  assert (Hord_w : ordered (store st_w)).
  { intros id c Hc. rewrite Hch in Hc. apply H2 in Hc. lia. }
  assert (Hb : forall j, j ∈ extant_tips st ∪ extinct_tips st -> (j < L)%nat).
  { intros j Hj.
    destruct (partitioned_tip st j (Build_leaves_partitioned _ H1 H2 H3 H4) Hj).
    unfold L. lia. }
  destruct (partition_after_birth _ _ nd L Hnd H3 Hb) as [Hdis Hperm].
  constructor.
  - rewrite Hlen'. lia.
  - intros id c Hc. rewrite Hlen'. fold L.
    assert (Hcases : (id < L)%nat \/ id = L \/ id = S L \/ (S (S L) <= id)%nat) by lia.
    destruct Hcases as [H | [-> | [-> | H]]].
    + destruct (decide (id = nd)) as [-> | Hne].
      * rewrite Hch_nd in Hc. cbn in Hc. lia.
      * rewrite Hch_oth in Hc by done. apply Hord_w in Hc. fold L in Hc. lia.
    + rewrite HnL in Hc. done.
    + rewrite HnSL in Hc. done.
    + rewrite node_at_ge in Hc by lia. done.
  - rewrite Hext', Hextinct', He, Hx. exact Hdis.
  - rewrite Hext', Hextinct', He, Hx, <- Hperm, <- H4.
    rewrite <- (leaf_nodes_ext (store st) (store st_w)) by done.
    apply Permutation_refl'. 
    apply (leaf_nodes_birth (store st_w) (store st') nd Hord_w);
      [fold L; lia | done | done | by rewrite Hch | exact Hch_oth
      | exact Hch_nd | fold L; by rewrite HnL | fold L; by rewrite HnSL].
Qed.

Lemma restart_partitioned cfg st :
  (0 < length (store st))%nat ->
  ordered (store st) ->
  leaves_partitioned (restart cfg {[0%nat]} ∅ st).
Proof.
  intros Hlen Hord. unfold restart. rewrite elements_singleton. cbn [foldl].
  destruct (restart_node_same cfg (store st) 0 Hlen) as [Hch0 _].
  constructor; cbn [store extant_tips extinct_tips].
  - by rewrite restart_node_length.
  - intros id c Hc. rewrite restart_node_length.
    destruct (decide (id = 0%nat)) as [-> | Hne].
    + by rewrite Hch0 in Hc.
    + rewrite restart_node_other in Hc by done. by apply Hord.
  - apply disjoint_empty_r.
  - rewrite union_empty_r_L, elements_singleton.
    unfold leaf_nodes, preorder_iter. rewrite restart_node_length.
    destruct (length (store st)) as [| n]; [lia |].
    cbn [preorder]. rewrite Hch0. cbn [flat_map List.filter].
    by rewrite bool_decide_eq_true_2.
Qed.

Lemma death_partitioned cfg nd st st_w sig st' :
  leaves_partitioned st ->
  nd ∈ extant_tips st ->
  same_shape (store st) (store st_w) ->
  extant_tips st_w = extant_tips st ∖ {[nd]} ->
  extinct_tips st_w = extinct_tips st ->
  death cfg {[0%nat]} ∅ nd st_w = Ok (sig, st') ->
  sig <> BreakExtinctWithSlices ->
  leaves_partitioned st'.
Proof.
  intros Hinv Hnd Hsh He Hx. unfold death.
  destruct (0 <? size (extant_tips st_w))%nat.
  - intros [= <- <-] _.
    assert (Hsh' : same_shape (store st)
                     (if is_add_extinct_attr cfg
                      then update (set_extinct_attr IsNone) nd (store st_w)
                      else store st_w)).
    { destruct (is_add_extinct_attr cfg); [| done].
      eapply same_shape_trans; [exact Hsh |]. by apply same_shape_update. }
    destruct Hsh' as [Hlen Hch]. destruct Hinv as [H1 H2 H3 H4].
    constructor; cbn [store extant_tips extinct_tips].
    + lia.
    + intros id c Hc. rewrite Hch in Hc. apply H2 in Hc. lia.
    + rewrite He, Hx. intros x Hx1 Hx2.
      apply elem_of_difference in Hx1 as [Hx1 Hne].
      apply elem_of_union in Hx2 as [Hx2 | Hx2]; [exact (H3 x Hx1 Hx2) | done].
    + rewrite He, Hx.
      rewrite (leaf_nodes_ext (store st)) by done. rewrite H4.
      assert (E : extant_tips st ∖ {[nd]} ∪ (extinct_tips st ∪ {[nd]})
                  = extant_tips st ∪ extinct_tips st).
      { apply set_eq. intros x.
        rewrite !elem_of_union, !elem_of_difference, !elem_of_singleton.
        split.
        - intros [[H _] | [H | ->]]; auto.
        - intros [H | H]; [| auto].
          destruct (decide (x = nd)) as [-> | Hne]; auto. }
      by rewrite E.
  - destruct (negb (is_None (gsa_ntax cfg)) && _).
    { intros [= <- <-] H. by destruct H. }
    destruct (negb (repeat_until_success cfg)); [discriminate |].
    intros [= <- <-] _.
    destruct Hsh as [Hlen Hch]. destruct Hinv as [H1 H2 H3 H4].
    apply restart_partitioned; [lia |].
    intros id c Hc. rewrite Hch in Hc. apply H2 in Hc. lia.
Qed.

Lemma weighted_choice_In {A} (seq : list A) weights r a r' :
  Probability.weighted_choice seq weights r = Ok (a, r') -> In a seq.
Proof.
  unfold Probability.weighted_choice. cbn [Rng.random Rng.next].
  destruct (Probability.select _ _ _) as [x |] eqn:E; [| discriminate].
  intros [= <- <-]. eapply select_In, E.
Qed.

Lemma iteration_partitioned cfg b d bsd dsd st sig st' :
  leaves_partitioned st ->
  iteration cfg b d bsd dsd {[0%nat]} ∅ st = Ok (sig, st') ->
  sig <> BreakExtinctWithSlices ->
  leaves_partitioned st'.
Proof.
  intros Hinv. unfold iteration.
  destruct (termination_check cfg st) as [[] |]; cbn [mbind res_bind Py.bind];
    [by intros [= <- <-] | | discriminate].
  pose proof (collect_events_shape b d (elements (extant_tips st)) (store st)) as Hsh1.
  destruct (collect_events_store b d (elements (extant_tips st)) (store st))
    as (Hev & _ & _).
  destruct (collect_events _ _ _ _) as [[ns rates] evs]. cbn [fst snd] in *.
  destruct (Rng.expovariate _ _) as [[w r] |]; cbn [mbind res_bind Py.bind];
    [| discriminate].
  destruct (_ && terminate_at_full_tree cfg).
  { intros [= <- <-] _. by eapply same_shape_partitioned; [| | | exact Hinv]. }
  set (ns_w := foldl _ ns _).
  assert (Hsh2 : same_shape (store st) ns_w).
  { eapply same_shape_trans; [exact Hsh1 |]. apply waited_shape. }
  destruct (if is_None (max_time cfg) then _ else _) as [[] |];
    cbn [mbind res_bind Py.bind]; [| | discriminate].
  - destruct (Probability.weighted_choice _ _ _) as [[[nd be] r'] |] eqn:Ew;
      cbn [mbind res_bind Py.bind]; [| discriminate].
    apply weighted_choice_In in Ew. rewrite Hev in Ew.
    assert (Hnd : nd ∈ extant_tips st).
    { apply in_flat_map in Ew as (x & Hx & Hin).
      apply list_elem_of_In, elem_of_elements in Hx.
      destruct Hin as [[= <- _] | [[= <- _] | []]]; done. }
    destruct be.
    + intros [= <- <-] _.
      apply birth_partitioned with (st := st);
        [exact Hinv | exact Hnd | exact Hsh2 | reflexivity | reflexivity].
    + intros Hd Hs.
      eapply death_partitioned with (st := st);
        [exact Hinv | exact Hnd | | | | exact Hd | exact Hs];
        [exact Hsh2 | reflexivity | reflexivity].
  - intros [= <- <-] _. by eapply same_shape_partitioned; [| | | exact Hinv].
Qed.

Lemma loop_partitioned fuel cfg b d bsd dsd st sig st' :
  leaves_partitioned st ->
  loop fuel cfg b d bsd dsd {[0%nat]} ∅ st = Some (Ok (sig, st')) ->
  sig <> BreakExtinctWithSlices ->
  leaves_partitioned st'.
Proof.
  revert st. induction fuel as [| fuel IH]; intros st Hinv; cbn [loop];
    [discriminate |].
  destruct (iteration cfg b d bsd dsd {[0%nat]} ∅ st) as [[s st1] |] eqn:E;
    [| discriminate].
  destruct s.
  - apply IH. by eapply iteration_partitioned; eauto.
  - intros [= <- <-]. by eapply iteration_partitioned; eauto.
  - intros [= <- <-]. by eapply iteration_partitioned; eauto.
  - intros [= <- <-] H. by destruct H.
Qed.

(** X5.  When the loop of [birth_death_tree] is left on a tree grown from
    a fresh seed node (other than through the [break] on total
    extinction in GSA mode), the leaves of the tree are exactly the
    extant and the extinct tips, no tip is both, and every tip is
    childless. *)
Theorem fresh_run_leaves_partitioned
    (birth_rate death_rate birth_rate_sd death_rate_sd : Q)
    (kwargs : gmap string value) (GLOBAL_RNG : Rng.rng) (fuel : nat)
    (cfg : config) (t : tree) (sig : signal) (st : sim) :
  grow birth_rate death_rate birth_rate_sd death_rate_sd kwargs GLOBAL_RNG fuel
  = Some (Ok (cfg, t, sig, st)) ->
  tree_arg cfg = VNone ->
  sig <> BreakExtinctWithSlices ->
  extant_tips st ## extinct_tips st
  /\ leaf_nodes (store st) (seed_node t)
     ≡ₚ elements (extant_tips st ∪ extinct_tips st)
  /\ (forall nd, nd ∈ extant_tips st ∪ extinct_tips st ->
        child_nodes (node_at (store st) nd) = []).
Proof.
  unfold grow.
  destruct (parse_kwargs kwargs) as [cfg' |]; [| discriminate].
  destruct (initialize cfg' birth_rate death_rate) as [[[t0 ex] ei] |] eqn:Ei;
    [| discriminate].
  destruct (bind_rng cfg' GLOBAL_RNG) as [r |]; [| discriminate].
  destruct (loop _ _ _ _ _ _ _ _ _) as [[[s st1] |] |] eqn:El; [| discriminate..].
  intros [= <- <- <- <-] Ht Hs.
  unfold initialize in Ei. rewrite Ht in Ei.
  destruct (match taxon_namespace_arg cfg' with
            | VNone => _ | VNamespace n => _ | _ => _ end) as [tn |];
    cbn [mbind res_bind Py.bind] in Ei; [| discriminate].
  injection Ei as <- <- <-. cbn [nodes taxon_namespace seed_node] in *.
  assert (Hinv : leaves_partitioned st1).
  { eapply loop_partitioned; [| exact El | exact Hs].
    constructor; cbn [store extant_tips extinct_tips].
    - cbn. lia.
    - intros [| id] c Hc; [by destruct Hc |]. destruct id; by destruct Hc.
    - apply disjoint_empty_r.
    - rewrite union_empty_r_L, elements_singleton. reflexivity. }
  split; [apply Hinv |]. split; [apply Hinv |].
  intros nd Hnd. by apply (partitioned_tip st1 nd Hinv).
Qed.

Lemma fresh_run_leaves_partitioned_witness :
  exists cfg t st,
    grow 1 1 0 0 Examples.two_visits Examples.two_visits_rng 10
    = Some (Ok (cfg, t, BreakTermination, st))
    /\ extant_tips st ## extinct_tips st
    /\ leaf_nodes (store st) (seed_node t)
       ≡ₚ elements (extant_tips st ∪ extinct_tips st)
    /\ (forall nd, nd ∈ extant_tips st ∪ extinct_tips st ->
          child_nodes (node_at (store st) nd) = []).
Proof.
  do 3 eexists. split; [vm_compute; reflexivity |].
  eapply (fresh_run_leaves_partitioned 1 1 0 0 Examples.two_visits
            Examples.two_visits_rng 10);
    [vm_compute; reflexivity | reflexivity | discriminate].
Defined.

End TipSetFacts.

Module UniformFacts.
Import Tree BirthDeath Runs BirthDeathFacts PureBirth Uniform.
Open Scope Q_scope.

Lemma py_int_floor (x : Q) : 0 <= x -> py_int x = Qfloor x.
Proof.
  destruct x as [n d]. unfold Qle, py_int, Qfloor. cbn. intros H.
  apply Z.quot_div_nonneg; lia.
Qed.

Lemma getitem_lookup {A} (seq : list A) (i : nat) a :
  seq !! i = Some a -> getitem seq (Z.of_nat i) = Ok a.
Proof.
  intros H. unfold getitem.
  destruct (Z.ltb_spec (Z.of_nat i) 0); [lia |].
  destruct (Z.ltb_spec (Z.of_nat i) 0); [lia |].
  by rewrite Nat2Z.id, H.
Qed.

Lemma getitem_beyond {A} (seq : list A) (i : nat) :
  (length seq <= i)%nat -> getitem seq (Z.of_nat i) = Raise IndexError.
Proof.
  intros H. unfold getitem.
  destruct (Z.ltb_spec (Z.of_nat i) 0); [lia |].
  destruct (Z.ltb_spec (Z.of_nat i) 0); [lia |].
  by rewrite Nat2Z.id, (proj2 (lookup_ge_None seq i) H).
Qed.

(** A draw in the unit interval selects an element of a sequence that is
    not empty. *)
Lemma choice_in_range {A} (seq : list A) (r : Rng.rng) :
  seq <> [] ->
  0 <= Rng.u01 (Rng.draws r (Rng.pos r)) ->
  Rng.u01 (Rng.draws r (Rng.pos r)) < 1 ->
  exists a, choice seq r = Ok (a, (Rng.next r).2) /\ a ∈ seq.
Proof.
  intros Hne H0 H1. unfold choice, Rng.random, Rng.next. cbn [fst snd].
  set (u := Rng.u01 _) in *.
  set (n := Z.of_nat (length seq)).
  assert (Hn : (0 < n)%Z) by (destruct seq; [done | cbn in n; lia]).
  assert (Hn' : inject_Z 0 < inject_Z n) by (rewrite <- Zlt_Qlt; exact Hn).
  change (inject_Z 0) with 0 in Hn'.
  assert (Hx0 : 0 <= u * inject_Z n) by nra.
  assert (Hx1 : u * inject_Z n < inject_Z n) by nra.
  rewrite py_int_floor by done.
  assert (Hf0 : (0 <= Qfloor (u * inject_Z n))%Z).
  { rewrite <- (Qfloor_Z 0). by apply Qfloor_resp_le. }
  assert (Hf1 : (Qfloor (u * inject_Z n) < n)%Z).
  { rewrite Zlt_Qlt. eapply Qle_lt_trans; [apply Qfloor_le | exact Hx1]. }
  set (i := Qfloor (u * inject_Z n)) in *.
  destruct (seq !! Z.to_nat i) as [a |] eqn:E.
  - exists a. split.
    + rewrite <- (Z2Nat.id i) by done.
      rewrite (getitem_lookup _ _ _ E). reflexivity.
    + by eapply list_elem_of_lookup_2.
  - apply lookup_ge_None in E. unfold n in Hf1. lia.
Qed.

Lemma fold_add_waiting w tips ns :
  (forall id, In id tips -> is_Some (edge_length (node_at ns id))) ->
  fold_res (Uniform.add_waiting_time w) ns tips = Ok (waited w tips ns).
Proof.
  revert ns. induction tips as [| nd tips IH]; intros ns H; [done |].
  cbn [fold_res].
  destruct (H nd (or_introl eq_refl)) as [l Hl].
  assert (E0 : Uniform.add_waiting_time w ns nd
               = Ok (update (set_length (Some (l + w))) nd ns))
    by (unfold Uniform.add_waiting_time; by rewrite Hl).
  rewrite E0. cbn [mbind res_bind Py.bind].
  assert (E : update (set_length (Some (l + w))) nd ns
              = update (BirthDeath.add_waiting_time w) nd ns).
  { unfold update. apply list_eq. intros j. rewrite !list_lookup_alter.
    destruct (decide (nd = j)) as [-> | Hne]; [| done].
    destruct (ns !! j) as [x |] eqn:E; cbn; [| done]. f_equal.
    unfold BirthDeath.add_waiting_time.
    rewrite (node_at_lookup _ _ _ E) in Hl. by rewrite Hl. }
  rewrite E. unfold waited. cbn [foldl]. apply IH.
  intros id Hid. rewrite node_at_update.
  destruct (decide (nd = id)) as [-> | Hne]; [| apply H; by right].
  destruct (ns !! id) eqn:E1; [by eexists |].
  unfold node_at in Hl. rewrite E1 in Hl. done.
Qed.

Lemma Qdiv_nonzero (x y : Q) : ~ x == 0 -> ~ y == 0 -> ~ x / y == 0.
Proof.
  intros Hx Hy H. apply Hx.
  rewrite <- (Qmult_div_r x y) by done. rewrite H. lra.
Qed.

Lemma inject_S_nonzero (k : nat) : ~ inject_Z (Z.of_nat (S k)) == 0.
Proof. unfold Qeq. cbn. lia. Qed.

Lemma wait_ok b tips ns r :
  ~ b == 0 -> tips <> [] ->
  (forall id, In id tips -> is_Some (edge_length (node_at ns id))) ->
  wait b tips ns r
  = Ok (waited (Rng.exp1 (Rng.draws r (Rng.pos r))
                / (inject_Z (Z.of_nat (length tips)) / b)) tips ns,
        (Rng.next r).2).
Proof.
  intros Hb Hne H. unfold wait, rate.
  assert (E : Qeq_bool b 0 = false).
  { destruct (Qeq_bool b 0) eqn:E; [| done]. by apply Qeq_bool_iff in E. }
  rewrite E. cbn [mbind res_bind Py.bind]. unfold Rng.expovariate, Rng.next.
  assert (E2 : Qeq_bool (inject_Z (Z.of_nat (length tips)) / b) 0 = false).
  { destruct (Qeq_bool (_ / b) 0) eqn:E2; [| done]. apply Qeq_bool_iff in E2.
    exfalso. revert E2. apply Qdiv_nonzero; [| done].
    destruct tips; [done |]. apply inject_S_nonzero. }
  rewrite E2. cbn [mbind res_bind Py.bind].
  rewrite fold_add_waiting by done. reflexivity.
Qed.

Lemma split_leaf_facts nd ns :
  (nd < length ns)%nat ->
  let L := length ns in
  let ns' := split_leaf nd ns in
  length ns' = S (S L)
  /\ (forall id, (id < L)%nat -> id <> nd -> node_at ns' id = node_at ns id)
  /\ node_at ns' nd
     = set_children (child_nodes (node_at ns nd) ++ [L; S L]) (node_at ns nd)
  /\ node_at ns' L = child_of nd
  /\ node_at ns' (S L) = child_of nd.
Proof.
  intros Hlt L ns'. subst ns'. unfold split_leaf.
  cbn [new_child].
  rewrite !length_app, !length_update. cbn [length]. fold L.
  replace (L + 1)%nat with (S L) by lia.
  repeat split.
  - store_simpl. cbn [length]. lia.
  - intros id Hid Hne. by store_simpl.
  - store_simpl. cbn [set_children child_nodes]. store_simpl.
    cbn. rewrite <- app_assoc. reflexivity.
  - store_simpl.
    match goal with
    | |- context [node_at [?x] ?i] => replace i with 0%nat by (cbn [length]; lia)
    end.
    reflexivity.
  - store_simpl.
    match goal with
    | |- context [node_at [?x] ?i] => replace i with 0%nat by (cbn [length]; lia)
    end.
    reflexivity.
Qed.

(** The leaves after the leaf [nd] has been replaced by the two nodes
    [L] and [S L]. *)
Lemma replace_leaf (l : list nat) nd L :
  NoDup l -> nd ∈ l -> (forall x, x ∈ l -> (x < L)%nat) ->
  let l' := flat_map (fun x => if decide (x = nd) then [L; S L] else [x]) l in
  length l' = S (length l)
  /\ NoDup l'
  /\ (forall x, x ∈ l' <-> (x ∈ l /\ x <> nd) \/ x = L \/ x = S L).
Proof.
  intros Hnd Hin Hb l'.
  apply elem_of_Permutation in Hin as [k Hk].
  assert (Hnk : (nd ∉ k) /\ NoDup k).
  { rewrite Hk in Hnd. by apply NoDup_cons in Hnd. }
  destruct Hnk as [Hnk Hndk].
  assert (Hrest : flat_map (fun x => if decide (x = nd) then [L; S L] else [x]) k
                  = k).
  { rewrite <- (flat_map_ext_In (fun x => [x])).
    - clear. induction k as [| a k IH]; cbn; [done | by rewrite IH].
    - intros a Ha. apply list_elem_of_In in Ha.
      rewrite decide_False; [done |]. by intros ->. }
  assert (Hl' : l' ≡ₚ L :: S L :: k).
  { subst l'. rewrite Hk. cbn [flat_map]. rewrite decide_True by done.
    by rewrite Hrest. }
  assert (Hbk : forall x, x ∈ k -> (x < L)%nat).
  { intros x Hx. apply Hb. rewrite Hk. by right. }
  split; [| split].
  - rewrite Hl', Hk. reflexivity.
  - rewrite Hl'. apply NoDup_cons. split.
    + intros H. apply elem_of_cons in H as [H | H]; [lia |]. apply Hbk in H. lia.
    + apply NoDup_cons. split; [| done]. intros H. apply Hbk in H. lia.
  - intros x. rewrite Hl', Hk, !elem_of_cons. split.
    + intros [-> | [-> | H]]; [auto | auto |].
      left. split; [by right |]. by intros ->.
    + intros [[[-> | H] Hne] | [-> | ->]]; auto. done.
Qed.

Lemma leaves_in_store ns :
  ordered ns -> (0 < length ns)%nat ->
  forall id, id ∈ leaf_nodes ns 0 ->
    (id < length ns)%nat /\ child_nodes (node_at ns id) = [].
Proof.
  intros Hord HL id Hid. apply list_elem_of_In in Hid.
  unfold leaf_nodes in Hid. apply filter_In in Hid as [Hpre Hleaf]. split.
  - eapply preorder_bound; [exact Hord | | exact Hpre]. done.
  - by apply bool_decide_eq_true in Hleaf.
Qed.

Lemma waited_leaf w (tips : list nat) ns id :
  NoDup tips -> (forall j, j ∈ tips -> (j < length ns)%nat) ->
  node_at (waited w tips ns) id
  = if decide (id ∈ tips) then BirthDeath.add_waiting_time w (node_at ns id)
    else node_at ns id.
Proof.
  intros Hnd Hb. destruct (decide (id ∈ tips)) as [Hin | Hnin].
  - apply waited_same.
    + by apply NoDup_ListNoDup.
    + by apply list_elem_of_In.
    + by apply Hb.
  - apply waited_other. intros H. apply Hnin. by apply list_elem_of_In.
Qed.

(** One iteration of the loop. *)
Lemma iteration_grown b draws p k ns r :
  ~ b == 0 -> draws_in_range draws -> grown b draws p k ns r ->
  exists ns' r',
    iteration b (leaf_nodes ns 0) ns r = Ok (ns', r')
    /\ grown b draws p (S k) ns' r'.
Proof.
  intros Hb0 Hdr [Hsize Hord Hparent Hlength Hbif Htaxon Hleaves Hnodup
                  Hdist Hdraws Hpos].
  set (L := length ns) in *. set (leaves := leaf_nodes ns 0) in *.
  assert (HL0 : (0 < L)%nat) by lia.
  assert (Hin : forall id, id ∈ leaves ->
            (id < L)%nat /\ child_nodes (node_at ns id) = [])
    by (by apply leaves_in_store).
  assert (Hb : forall j, j ∈ leaves -> (j < length ns)%nat)
    by (intros j Hj; by apply Hin).
  assert (Hne : leaves <> []) by (intros E; by rewrite E in Hleaves).
  set (w := Rng.exp1 (Rng.draws r (Rng.pos r))
            / (inject_Z (Z.of_nat (length leaves)) / b)).
  set (ns_w := waited w leaves ns).
  assert (Hwait : wait b leaves ns r = Ok (ns_w, (Rng.next r).2)).
  { apply wait_ok; try done. intros id Hid. apply Hlength.
    by apply Hin, list_elem_of_In. }
  set (r1 := (Rng.next r).2) in *.
  destruct (choice_in_range leaves r1 Hne) as (nd & Hchoice & Hnd).
  { subst r1. cbn. rewrite Hdraws. apply Hdr. }
  { subst r1. cbn. rewrite Hdraws. apply Hdr. }
  set (r2 := (Rng.next r1).2) in *.
  exists (split_leaf nd ns_w), r2. split.
  { unfold iteration. rewrite Hwait. cbn [mbind res_bind Py.bind].
    rewrite Hchoice. reflexivity. }
  set (ns' := split_leaf nd ns_w).
  assert (Hwn : forall id, node_at ns_w id
            = if decide (id ∈ leaves)
              then BirthDeath.add_waiting_time w (node_at ns id)
              else node_at ns id) by (intros; by apply waited_leaf).
  assert (Hlen_w : length ns_w = L) by apply waited_length.
  assert (Hw_ch : forall id, child_nodes (node_at ns_w id) = child_nodes (node_at ns id)).
  { intros id. rewrite Hwn. by destruct (decide _). }
  assert (Hw_par : forall id, parent_node (node_at ns_w id) = parent_node (node_at ns id)).
  { intros id. rewrite Hwn. by destruct (decide _). }
  assert (Hw_tx : forall id, taxon (node_at ns_w id) = taxon (node_at ns id)).
  { intros id. rewrite Hwn. by destruct (decide _). }
  destruct (Hin nd Hnd) as [HndL Hnd_leaf].
  assert (HndLw : (nd < length ns_w)%nat) by lia.
  destruct (split_leaf_facts nd ns_w HndLw) as (Hlen' & Hoth & Hnode & HnL & HnSL).
  fold ns' in Hlen', Hoth, Hnode, HnL, HnSL.
  rewrite Hlen_w in *.
  rewrite Hw_ch, Hnd_leaf in Hnode. cbn [app] in Hnode.
  assert (Hch' : forall id, (id < L)%nat ->
            child_nodes (node_at ns' id)
            = if decide (id = nd) then [L; S L] else child_nodes (node_at ns id)).
  { intros id Hid. destruct (decide (id = nd)) as [-> | Hne'].
    - rewrite Hnode. reflexivity.
    - rewrite Hoth by done. apply Hw_ch. }
  assert (Hold' : forall {X} (P : node -> X),
            (forall c x, P (set_children c x) = P x) ->
            forall id, (id < L)%nat -> P (node_at ns' id) = P (node_at ns_w id)).
  { intros X P HP1 id Hid. destruct (decide (id = nd)) as [-> | Hne'].
    - by rewrite Hnode, HP1.
    - by rewrite Hoth. }
  assert (Hpar' : forall id, (id < L)%nat ->
            parent_node (node_at ns' id) = parent_node (node_at ns id)).
  { intros id Hid. rewrite (Hold' _ parent_node) by done. apply Hw_par. }
  assert (Hlen'' : forall id, (id < L)%nat ->
            edge_length (node_at ns' id) = edge_length (node_at ns_w id)).
  { intros id Hid. by rewrite (Hold' _ edge_length). }
  assert (Hge : forall id, (S (S L) <= id)%nat -> node_at ns' id = new_node).
  { intros id Hid. apply node_at_ge. lia. }
  assert (Hcases : forall id, (id < L)%nat \/ id = L \/ id = S L \/ (S (S L) <= id)%nat)
    by (intros; lia).
  assert (Hanc : ancestors_before ns) by (intros id q Hq; apply (Hparent _ _ Hq)).
  assert (Hanc_w : ancestors_before ns_w).
  { intros id q Hq. rewrite Hw_par in Hq. by apply Hanc. }
  assert (Hord_w : ordered ns_w).
  { intros id c Hc. rewrite Hw_ch in Hc. apply Hord in Hc.
    fold L in Hc. rewrite Hlen_w. done. }
  set (ext := list_to_set leaves : gset nat).
  assert (Hext : forall id, id ∈ ext <-> id ∈ leaves)
    by (intros; apply elem_of_list_to_set).
  assert (Hnoext : forall id q, parent_node (node_at ns id) = Some q -> q ∉ ext).
  { intros id q Hq Hq'. apply Hparent in Hq as [_ Hq].
    apply Hext, Hin in Hq'. by destruct Hq'. }
  assert (Hdist_w : forall id, id ∈ leaves ->
            root_distance L ns_w id == b * unit_height draws p k + w).
  { intros id Hid.
    rewrite (root_distance_waited ns ns_w ext w); try done.
    - rewrite decide_True by (by apply Hext). pose proof (Hdist id Hid). lra.
    - intros j Hj. apply Hext in Hj. rewrite Hwn, decide_True by done.
      destruct (Hlength j (Hb j Hj)) as [l Hl].
      unfold BirthDeath.add_waiting_time. cbn [edge_length set_length].
      rewrite Hl. cbn [default]. unfold Datatypes.id. lra.
    - intros j Hj. rewrite Hwn, decide_False; [done |].
      intros H. by apply Hj, Hext.
    - left. lia. }
  assert (Hdist_old : forall F id, (id < L)%nat ->
            root_distance F ns' id = root_distance F ns_w id).
  { intros F id Hid. apply root_distance_agree; [done |].
    intros j Hj. split; [rewrite Hpar' by lia; by rewrite Hw_par | apply Hlen''; lia]. }
  assert (Hleaves' : leaf_nodes ns' 0
            = flat_map (fun x => if decide (x = nd) then [L; S L] else [x]) leaves).
  { unfold leaves. rewrite <- (leaf_nodes_ext ns ns_w) by done.
    rewrite <- Hlen_w.
    apply (leaf_nodes_birth ns_w ns' nd Hord_w); rewrite ?Hlen_w;
      [lia | done | done | by rewrite Hw_ch | | by rewrite Hnode
      | by rewrite HnL | by rewrite HnSL].
    intros id Hid Hne'. rewrite Hch', decide_False by done. by rewrite Hw_ch. }
  destruct (replace_leaf leaves nd L Hnodup Hnd) as (Hcount & Hnodup' & Hmem).
  { intros x Hx. by apply Hin. }
  rewrite <- Hleaves' in Hcount, Hnodup', Hmem.
  assert (Hheight : b * unit_height draws p k + w
                    == b * unit_height draws p (S k)).
  { cbn [unit_height]. unfold w. rewrite Hdraws, Hpos, Hleaves.
    set (e := Rng.exp1 _). set (c := inject_Z _).
    assert (Hc : ~ c == 0) by apply inject_S_nonzero.
    field. split; done. }
  constructor.
  - rewrite Hlen'. unfold L in *. lia.
  - intros id c Hc. rewrite Hlen'.
    destruct (Hcases id) as [H | [-> | [-> | H]]].
    + rewrite Hch' in Hc by done.
      destruct (decide (id = nd)) as [-> | Hne'].
      * cbn in Hc. lia.
      * apply Hord in Hc. fold L in Hc. lia.
    + rewrite HnL in Hc. done.
    + rewrite HnSL in Hc. done.
    + rewrite Hge in Hc by done. done.
  - intros id q Hq.
    assert (Hold_p : forall q, (q < L)%nat ->
               child_nodes (node_at ns q) <> [] ->
               child_nodes (node_at ns' q) <> []).
    { intros q' Hq' Hne'. rewrite Hch' by done.
      destruct (decide (q' = nd)); [done | done]. }
    destruct (Hcases id) as [H | [-> | [-> | H]]].
    + rewrite Hpar' in Hq by done. apply Hparent in Hq as [Hlt Hne'].
      split; [done |]. apply Hold_p; [lia | done].
    + rewrite HnL in Hq. cbn in Hq. injection Hq as <-.
      split; [done |]. rewrite Hnode. done.
    + rewrite HnSL in Hq. cbn in Hq. injection Hq as <-.
      split; [lia |]. rewrite Hnode. done.
    + rewrite Hge in Hq by done. done.
  - rewrite Hlen'. intros id Hid.
    destruct (Hcases id) as [H | [-> | [-> | H]]]; [| | | lia].
    + rewrite Hlen'' by done. rewrite Hwn.
      destruct (decide (id ∈ leaves)); [by eexists | by apply Hlength].
    + rewrite HnL. by eexists.
    + rewrite HnSL. by eexists.
  - intros id.
    destruct (Hcases id) as [H | [-> | [-> | H]]].
    + rewrite Hch' by done. destruct (decide (id = nd)); [by right | apply Hbif].
    + rewrite HnL. by left.
    + rewrite HnSL. by left.
    + rewrite Hge by done. by left.
  - intros id.
    destruct (Hcases id) as [H | [-> | [-> | H]]].
    + rewrite (Hold' _ taxon) by done. rewrite Hw_tx. apply Htaxon.
    + rewrite HnL. done.
    + rewrite HnSL. done.
    + rewrite Hge by done. done.
  - rewrite Hcount, Hleaves. reflexivity.
  - exact Hnodup'.
  - rewrite Hlen'. intros id Hid. rewrite <- Hheight.
    apply Hmem in Hid as [[Hid Hne'] | [-> | ->]].
    + pose proof (Hb id Hid) as HidL. fold L in HidL.
      rewrite Hdist_old by done.
      rewrite (root_distance_ample ns_w Hanc_w (S (S L)) L) by lia.
      by apply Hdist_w.
    + rewrite root_distance_S, HnL. cbn [edge_length parent_node default child_of].
      rewrite Hdist_old by done.
      rewrite (root_distance_ample ns_w Hanc_w (S L) L) by lia.
      rewrite Hdist_w by done. unfold Datatypes.id. lra.
    + rewrite root_distance_S, HnSL. cbn [edge_length parent_node default child_of].
      rewrite Hdist_old by done.
      rewrite (root_distance_ample ns_w Hanc_w (S L) L) by lia.
      rewrite Hdist_w by done. unfold Datatypes.id. lra.
  - subst r2 r1. cbn. exact Hdraws.
  - subst r2 r1. cbn. rewrite Hpos. lia.
Qed.

(** The loop runs until the tree has as many leaves as the namespace has
    taxa, and at least one. *)
Lemma growth_grown b draws p T :
  ~ b == 0 -> draws_in_range draws ->
  forall m k ns r fuel,
    grown b draws p k ns r ->
    (k + m = length (labels T) - 1)%nat -> (m < fuel)%nat ->
    exists ns' r',
      growth fuel T b (leaf_nodes ns 0) ns r = Some (Ok (ns', r'))
      /\ grown b draws p (length (labels T) - 1) ns' r'.
Proof.
  intros Hb Hdr. induction m as [| m IH]; intros k ns r fuel Hg Hk Hfuel.
  - destruct fuel as [| fuel]; [lia |]. cbn [growth].
    rewrite (gr_leaves _ _ _ _ _ _ Hg).
    destruct (Nat.ltb_spec (S k) (length (labels T))); [lia |].
    exists ns, r. split; [done |]. by replace (length (labels T) - 1)%nat with k by lia.
  - destruct fuel as [| fuel]; [lia |]. cbn [growth].
    rewrite (gr_leaves _ _ _ _ _ _ Hg).
    destruct (Nat.ltb_spec (S k) (length (labels T))); [| lia].
    destruct (iteration_grown b draws p k ns r Hb Hdr Hg) as (ns' & r' & Hit & Hg').
    rewrite Hit. apply (IH (S k)); [done | lia | lia].
Qed.

Lemma grown_seed b r :
  grown b (Rng.draws r) (Rng.pos r) 0 [Uniform.seed] r.
Proof.
  assert (Hnode : forall id, node_at [Uniform.seed] id = Uniform.seed
                             \/ node_at [Uniform.seed] id = new_node).
  { intros [| id]; [by left | by right]. }
  constructor.
  - reflexivity.
  - intros id c Hc. by destruct (Hnode id) as [E | E]; rewrite E in Hc.
  - intros id q Hq. by destruct (Hnode id) as [E | E]; rewrite E in Hq.
  - intros [| id] Hid; [by eexists | cbn in Hid; lia].
  - intros id. left. by destruct (Hnode id) as [E | E]; rewrite E.
  - intros id. by destruct (Hnode id) as [E | E]; rewrite E.
  - reflexivity.
  - cbn. apply NoDup_singleton.
  - intros id Hid. cbn in Hid. apply list_elem_of_singleton in Hid as ->.
    cbn. lra.
  - reflexivity.
  - lia.
Qed.

(** The waiting time after the loop. *)
Lemma final_wait b draws p k ns r :
  ~ b == 0 -> grown b draws p k ns r ->
  exists ns_w,
    wait b (leaf_nodes ns 0) ns r = Ok (ns_w, (Rng.next r).2)
    /\ length ns_w = length ns
    /\ (forall id, child_nodes (node_at ns_w id) = child_nodes (node_at ns id))
    /\ (forall id, parent_node (node_at ns_w id) = parent_node (node_at ns id))
    /\ (forall id, taxon (node_at ns_w id) = None)
    /\ (forall id, id ∈ leaf_nodes ns 0 ->
          root_distance (length ns) ns_w id == b * unit_height draws p (S k)).
Proof.
  intros Hb0 [Hsize Hord Hparent Hlength Hbif Htaxon Hleaves Hnodup
              Hdist Hdraws Hpos].
  set (L := length ns) in *. set (leaves := leaf_nodes ns 0) in *.
  assert (HL0 : (0 < L)%nat) by lia.
  assert (Hin : forall id, id ∈ leaves ->
            (id < L)%nat /\ child_nodes (node_at ns id) = [])
    by (by apply leaves_in_store).
  assert (Hb : forall j, j ∈ leaves -> (j < length ns)%nat)
    by (intros j Hj; by apply Hin).
  assert (Hne : leaves <> []) by (intros E; by rewrite E in Hleaves).
  set (w := Rng.exp1 (Rng.draws r (Rng.pos r))
            / (inject_Z (Z.of_nat (length leaves)) / b)).
  set (ns_w := waited w leaves ns).
  assert (Hwn : forall id, node_at ns_w id
            = if decide (id ∈ leaves)
              then BirthDeath.add_waiting_time w (node_at ns id)
              else node_at ns id) by (intros; by apply waited_leaf).
  assert (Hw_par : forall id, parent_node (node_at ns_w id) = parent_node (node_at ns id)).
  { intros id. rewrite Hwn. by destruct (decide _). }
  exists ns_w. split; [| split; [| split; [| split; [| split]]]].
  - apply wait_ok; try done. intros id Hid. apply Hlength.
    by apply Hin, list_elem_of_In.
  - apply waited_length.
  - intros id. rewrite Hwn. by destruct (decide _).
  - exact Hw_par.
  - intros id. rewrite Hwn. destruct (decide _); [cbn |]; apply Htaxon.
  - set (ext := list_to_set leaves : gset nat).
    assert (Hext : forall id, id ∈ ext <-> id ∈ leaves)
      by (intros; apply elem_of_list_to_set).
    intros id Hid.
    rewrite (root_distance_waited ns ns_w ext w); try done.
    + rewrite decide_True by (by apply Hext). pose proof (Hdist id Hid) as Hd.
      rewrite Hd. cbn [unit_height]. unfold w. rewrite Hdraws, Hpos, Hleaves.
      set (e := Rng.exp1 _). set (c := inject_Z _).
      assert (Hc : ~ c == 0) by apply inject_S_nonzero.
      field. split; done.
    + intros j Hj. apply Hext in Hj. rewrite Hwn, decide_True by done.
      destruct (Hlength j (Hb j Hj)) as [l Hl].
      unfold BirthDeath.add_waiting_time. cbn [edge_length set_length].
      rewrite Hl. cbn [default]. unfold Datatypes.id. lra.
    + intros j Hj. rewrite Hwn, decide_False; [done |].
      intros H. by apply Hj, Hext.
    + intros j q Hq Hq'. apply Hparent in Hq as [_ Hq].
      apply Hext, Hin in Hq'. by destruct Hq'.
    + left. lia.
Qed.

(** The assignment of the taxa, lines 539-540. *)
Lemma assign_fold T ns l s :
  (s + length l <= length (labels T))%nat ->
  fold_res (assign_taxon T) ns (zip (seq s (length l)) l)
  = Ok (labelled T ns (zip (seq s (length l)) l)).
Proof.
  revert ns s. induction l as [| a l IH]; intros ns s H; [done |].
  cbn [length seq zip zip_with fold_res labelled foldl fst snd] in *.
  destruct (labels T !! s) as [t |] eqn:E;
    [| apply lookup_ge_None in E; lia].
  assert (E0 : assign_taxon T ns (s, a) = Ok (update (set_taxon (Some t)) a ns)).
  { unfold assign_taxon. by rewrite (getitem_lookup _ _ _ E). }
  rewrite E0. cbn [mbind res_bind Py.bind].
  apply IH. lia.
Qed.

Lemma labelled_preserves {X} (P : node -> X) T entries ns id :
  (forall t x, P (set_taxon t x) = P x) ->
  P (node_at (labelled T ns entries) id) = P (node_at ns id).
Proof.
  intros HP. unfold labelled. revert ns.
  induction entries as [| e entries IH]; intros ns; cbn [foldl]; [done |].
  rewrite IH. apply update_preserves. intros nd. apply HP.
Qed.

Lemma labelled_length T entries ns :
  length (labelled T ns entries) = length ns.
Proof.
  unfold labelled. revert ns.
  induction entries as [| e entries IH]; intros ns; cbn [foldl]; [done |].
  by rewrite IH, length_update.
Qed.

Lemma labelled_other T entries ns id :
  id ∉ entries.*2 -> node_at (labelled T ns entries) id = node_at ns id.
Proof.
  unfold labelled. revert ns.
  induction entries as [| e entries IH]; intros ns Hid; cbn [foldl]; [done |].
  cbn [fmap list_fmap] in Hid. apply not_elem_of_cons in Hid as [Hne Hid].
  rewrite IH by done. by apply update_other.
Qed.

Lemma labelled_taxa T l :
  NoDup l ->
  forall ns s,
    (forall id, id ∈ l -> (id < length ns)%nat) ->
    map (fun id => taxon (node_at (labelled T ns (zip (seq s (length l)) l)) id)) l
    = map (fun i => labels T !! i) (seq s (length l)).
Proof.
  induction 1 as [| a l Ha Hl IH]; intros ns s Hb; [done |].
  cbn [length seq zip zip_with map].
  assert (E : labelled T ns ((s, a) :: zip_with pair (seq (S s) (length l)) l)
              = labelled T (update (set_taxon (labels T !! s)) a ns)
                         (zip (seq (S s) (length l)) l)) by reflexivity.
  rewrite E. f_equal.
  - rewrite labelled_other.
    + rewrite update_same by (apply Hb; by left). reflexivity.
    + rewrite snd_zip by (rewrite length_seq; lia). exact Ha.
  - apply IH. intros id Hid. rewrite length_update. apply Hb. by right.
Qed.

Lemma lookups_all {A} (l : list A) :
  map (fun i => l !! i) (seq 0 (length l)) = map Some l.
Proof.
  apply list_eq. intros i. rewrite !list_lookup_fmap.
  destruct (decide (i < length l)%nat) as [Hi | Hi].
  - rewrite lookup_seq_lt by done. cbn.
    destruct (lookup_lt_is_Some_2 l i Hi) as [a Ha]. by rewrite Ha.
  - rewrite lookup_seq_ge by lia. cbn.
    by rewrite (proj2 (lookup_ge_None l i)) by lia.
Qed.

(** A whole run on a namespace that is not empty. *)
Lemma uniform_run T b rng G fuel :
  ~ b == 0 -> labels T <> [] ->
  draws_in_range (Rng.draws (default G rng)) ->
  (length (labels T) <= fuel)%nat ->
  let r0 := default G rng in
  let n := length (labels T) in
  exists ns,
    uniform_pure_birth_tree T b rng G fuel
    = Some (Ok ({| nodes := ns; seed_node := 0; taxon_namespace := T;
                   is_rooted := true |},
                {| Rng.draws := Rng.draws r0;
                   Rng.pos := (Rng.pos r0 + 2 * n - 1)%nat |}))
    /\ length ns = (2 * n - 1)%nat
    /\ length (leaf_nodes ns 0) = n
    /\ map (fun id => taxon (node_at ns id)) (leaf_nodes ns 0) = map Some (labels T)
    /\ (forall id, child_nodes (node_at ns id) = []
                   \/ length (child_nodes (node_at ns id)) = 2%nat)
    /\ (forall id, child_nodes (node_at ns id) <> [] -> taxon (node_at ns id) = None)
    /\ (forall id, id ∈ leaf_nodes ns 0 ->
          root_distance (length ns) ns id
          == b * unit_height (Rng.draws r0) (Rng.pos r0) n).
Proof.
  intros Hb Hne Hdr Hfuel r0 n.
  assert (Hn : (0 < n)%nat) by (subst n; destruct (labels T); [done | cbn; lia]).
  destruct (growth_grown b (Rng.draws r0) (Rng.pos r0) T Hb Hdr
              (n - 1) 0 [Uniform.seed] r0 fuel (grown_seed b r0))
    as (ns1 & r1 & Hgrowth & Hg); [lia | lia |].
  fold n in Hg.
  destruct (final_wait b _ _ _ ns1 r1 Hb Hg)
    as (ns_w & Hwait & Hlen_w & Hw_ch & Hw_par & Hw_tx & Hw_dist).
  pose proof Hg as [Hsize Hord Hparent Hlength Hbif Htaxon Hleaves Hnodup
                    Hdist Hdraws Hpos].
  set (leaves := leaf_nodes ns1 0) in *.
  set (ns := labelled T ns_w (Fit.enumerate leaves)).
  assert (Hch : forall id, child_nodes (node_at ns id) = child_nodes (node_at ns1 id)).
  { intros id. unfold ns. rewrite (labelled_preserves child_nodes) by done.
    apply Hw_ch. }
  assert (Hlen : length ns = length ns1).
  { unfold ns. by rewrite labelled_length. }
  assert (Hleaves' : leaf_nodes ns 0 = leaves) by (by apply leaf_nodes_ext).
  assert (Hin : forall id, id ∈ leaves ->
            (id < length ns1)%nat /\ child_nodes (node_at ns1 id) = []).
  { apply leaves_in_store; [done | lia]. }
  exists ns. split; [| split; [| split; [| split; [| split; [| split]]]]].
  - unfold uniform_pure_birth_tree. fold r0. rewrite Hgrowth.
    fold leaves. rewrite Hwait. cbn [mbind res_bind Py.bind].
    unfold Fit.enumerate. rewrite assign_fold by (fold n; lia).
    cbn [mbind res_bind Py.bind]. do 3 f_equal.
    destruct r1 as [d1 p1]. cbn in *. subst. f_equal. lia.
  - rewrite Hlen, Hsize. lia.
  - rewrite Hleaves', Hleaves. lia.
  - rewrite Hleaves'. unfold ns, Fit.enumerate.
    rewrite labelled_taxa; [| done | intros id Hid; rewrite Hlen_w; by apply Hin].
    replace (length leaves) with (length (labels T)) by (fold n; lia).
    apply lookups_all.
  - intros id. rewrite Hch. apply Hbif.
  - intros id Hid. rewrite Hch in Hid.
    unfold ns. rewrite labelled_other; [apply Hw_tx |].
    unfold Fit.enumerate. rewrite snd_zip by (rewrite length_seq; lia).
    intros H. apply Hin in H as [_ H]. done.
  - rewrite Hleaves', Hlen. intros id Hid.
    assert (E : root_distance (length ns1) ns id
                = root_distance (length ns1) ns_w id).
    { apply root_distance_agree.
      - intros j q Hq. rewrite Hw_par in Hq. by apply Hparent in Hq as [].
      - intros j _. unfold ns.
        by rewrite (labelled_preserves parent_node),
                   (labelled_preserves edge_length). }
    rewrite E, (Hw_dist id Hid).
    replace (S (n - 1)) with n by lia. reflexivity.
Qed.

Lemma uniform_zero_rate T b rng G fuel :
  b == 0 -> (0 < fuel)%nat ->
  uniform_pure_birth_tree T b rng G fuel = Some (Raise ZeroDivisionError).
Proof.
  intros Hb Hf. destruct fuel as [| fuel]; [lia |].
  assert (E : Qeq_bool b 0 = true) by (by apply Qeq_bool_iff).
  unfold uniform_pure_birth_tree. cbn [growth].
  destruct (_ <? _)%nat.
  - unfold iteration, wait, rate. rewrite E. reflexivity.
  - unfold wait, rate. rewrite E. reflexivity.
Qed.

Lemma uniform_empty T b rng G fuel :
  ~ b == 0 -> labels T = [] -> (0 < fuel)%nat ->
  uniform_pure_birth_tree T b rng G fuel = Some (Raise IndexError).
Proof.
  intros Hb HT Hf. destruct fuel as [| fuel]; [lia |].
  unfold uniform_pure_birth_tree. cbn [growth]. rewrite HT.
  change (leaf_nodes [Uniform.seed] 0) with [0%nat].
  cbn [length Nat.ltb Nat.leb].
  rewrite wait_ok; [| done | done |].
  - cbn [mbind res_bind Py.bind]. unfold Fit.enumerate.
    cbn [length seq zip zip_with fold_res]. unfold assign_taxon.
    rewrite HT. reflexivity.
  - intros id [<- | []]. by eexists.
Qed.

(** X6.  [uniform_pure_birth_tree] with a finite birth rate always comes
    to an end, and it fails in exactly two cases: with
    [ZeroDivisionError] when the birth rate is 0, whatever the namespace,
    and otherwise with [IndexError] when the namespace has no taxa.  In
    every other case a tree is returned.  (An infinite birth rate, which
    a rational cannot be, makes the rate of the waiting time [0.0] and is
    a third failure.) *)
Theorem uniform_pure_birth_tree_failures (T : namespace) (b : Q)
    (rng : option Rng.rng) (G : Rng.rng) (fuel : nat) :
  Rng.well_formed (default G rng) ->
  (0 < fuel)%nat -> (length (labels T) <= fuel)%nat ->
  exists out,
    uniform_pure_birth_tree T b rng G fuel = Some out
    /\ match out with
       | Raise e =>
           (b == 0 /\ e = ZeroDivisionError)
           \/ (~ b == 0 /\ labels T = [] /\ e = IndexError)
       | Ok _ => ~ b == 0 /\ labels T <> []
       end.
Proof.
  intros Hwf Hf Hfuel.
  destruct (Qeq_dec b 0) as [Hb | Hb].
  - eexists. split; [by apply uniform_zero_rate |]. left. done.
  - destruct (labels T) as [| t l] eqn:HT.
    + eexists. split; [by apply uniform_empty |]. right. done.
    + destruct (uniform_run T b rng G fuel Hb) as (ns & Hrun & _);
        [by rewrite HT | exact Hwf | by rewrite HT |].
      eexists. split; [exact Hrun |]. done.
Qed.

Lemma uniform_pure_birth_tree_failures_witness :
  exists out,
    uniform_pure_birth_tree BirthDeath.fresh_namespace 1 None
      (Examples.const_rng (1 # 4) 1 0) 1 = Some out
    /\ match out with
       | Raise e =>
           (1 == 0 /\ e = ZeroDivisionError)
           \/ (~ 1 == 0 /\ labels BirthDeath.fresh_namespace = []
               /\ e = IndexError)
       | Ok _ => ~ 1 == 0 /\ labels BirthDeath.fresh_namespace <> []
       end.
Proof.
  apply (uniform_pure_birth_tree_failures BirthDeath.fresh_namespace 1 None
           (Examples.const_rng (1 # 4) 1 0) 1).
  - intros i. cbn. repeat split; discriminate.
  - lia.
  - cbn. lia.
Defined.

(** X7.  For a namespace of [n >= 1] taxa and a finite birth rate other
    than 0, [uniform_pure_birth_tree] returns a rooted tree on that
    namespace with
    [2n - 1] nodes and exactly [n] leaves; every node has no child or two
    children; the leaves carry the taxa of the namespace in the order of
    [tree.leaf_nodes()], each taxon once; and no internal node carries a
    taxon. *)
Theorem uniform_pure_birth_tree_shape (T : namespace) (b : Q)
    (rng : option Rng.rng) (G : Rng.rng) (fuel : nat) :
  ~ b == 0 -> labels T <> [] ->
  Rng.well_formed (default G rng) ->
  (length (labels T) <= fuel)%nat ->
  exists t r,
    uniform_pure_birth_tree T b rng G fuel = Some (Ok (t, r))
    /\ taxon_namespace t = T
    /\ is_rooted t = true
    /\ length (nodes t) = (2 * length (labels T) - 1)%nat
    /\ length (leaf_nodes (nodes t) (seed_node t)) = length (labels T)
    /\ leaf_labels t = map Some (labels T)
    /\ (forall id, child_nodes (node_at (nodes t) id) = []
                   \/ length (child_nodes (node_at (nodes t) id)) = 2%nat)
    /\ (forall id, child_nodes (node_at (nodes t) id) <> [] ->
                   taxon (node_at (nodes t) id) = None).
Proof.
  intros Hb HT Hwf Hfuel.
  destruct (uniform_run T b rng G fuel Hb HT Hwf Hfuel)
    as (ns & Hrun & Hlen & Hleaves & Hlabels & Hbif & Hint & _).
  do 2 eexists. split; [exact Hrun |].
  cbn [nodes seed_node taxon_namespace is_rooted]. unfold leaf_labels.
  cbn [nodes seed_node]. done.
Qed.

Lemma uniform_pure_birth_tree_shape_witness :
  exists t r,
    uniform_pure_birth_tree three_taxa 2 None
      (Examples.const_rng (1 # 4) 1 0) 3 = Some (Ok (t, r))
    /\ taxon_namespace t = three_taxa
    /\ is_rooted t = true
    /\ length (nodes t) = (2 * length (labels three_taxa) - 1)%nat
    /\ length (leaf_nodes (nodes t) (seed_node t)) = length (labels three_taxa)
    /\ leaf_labels t = map Some (labels three_taxa)
    /\ (forall id, child_nodes (node_at (nodes t) id) = []
                   \/ length (child_nodes (node_at (nodes t) id)) = 2%nat)
    /\ (forall id, child_nodes (node_at (nodes t) id) <> [] ->
                   taxon (node_at (nodes t) id) = None).
Proof.
  apply (uniform_pure_birth_tree_shape three_taxa 2 None
           (Examples.const_rng (1 # 4) 1 0) 3).
  - intros H. vm_compute in H. discriminate.
  - discriminate.
  - intros i. cbn. repeat split; discriminate.
  - cbn. lia.
Defined.

(** X8.  In exact arithmetic, the tree that [uniform_pure_birth_tree]
    returns is ultrametric, and its height is proportional to the birth
    rate: every leaf is at the distance
    [birth_rate * (e_1/1 + e_2/2 + ... + e_n/n)] from the root, where
    [e_k] is the unit-rate exponential draw of the waiting time taken
    with [k] leaves (the rate passed to [expovariate] is
    [len(leaf_nodes)/birth_rate]).  The edge lengths are sums of
    rationals here; the program adds the waiting times as binary64
    floats, leaf by leaf (lines 528 and 538), in a grouping that differs
    from one leaf to another, so that its root distances agree with this
    value, and with one another, up to rounding only. *)
Theorem uniform_pure_birth_tree_height (T : namespace) (b : Q)
    (rng : option Rng.rng) (G : Rng.rng) (fuel : nat) :
  ~ b == 0 -> labels T <> [] ->
  Rng.well_formed (default G rng) ->
  (length (labels T) <= fuel)%nat ->
  exists t r,
    uniform_pure_birth_tree T b rng G fuel = Some (Ok (t, r))
    /\ forall id, In id (leaf_nodes (nodes t) (seed_node t)) ->
         root_distance (length (nodes t)) (nodes t) id
         == b * unit_height (Rng.draws (default G rng))
                            (Rng.pos (default G rng)) (length (labels T)).
Proof.
  intros Hb HT Hwf Hfuel.
  destruct (uniform_run T b rng G fuel Hb HT Hwf Hfuel)
    as (ns & Hrun & _ & _ & _ & _ & _ & Hdist).
  do 2 eexists. split; [exact Hrun |].
  cbn [nodes seed_node]. intros id Hid. apply Hdist.
  by apply list_elem_of_In.
Qed.

Lemma uniform_pure_birth_tree_height_witness :
  exists t r,
    uniform_pure_birth_tree three_taxa 2 None
      (Examples.const_rng (1 # 4) 1 0) 3 = Some (Ok (t, r))
    /\ forall id, In id (leaf_nodes (nodes t) (seed_node t)) ->
         root_distance (length (nodes t)) (nodes t) id
         == 2 * unit_height (Rng.draws (Examples.const_rng (1 # 4) 1 0))
                            (Rng.pos (Examples.const_rng (1 # 4) 1 0))
                            (length (labels three_taxa)).
Proof.
  apply (uniform_pure_birth_tree_height three_taxa 2 None
           (Examples.const_rng (1 # 4) 1 0) 3).
  - intros H. vm_compute in H. discriminate.
  - discriminate.
  - intros i. cbn. repeat split; discriminate.
  - cbn. lia.
Defined.

(** X9.  A successful call of [uniform_pure_birth_tree] on [n] taxa takes
    exactly [2n - 1] draws from its generator, the caller's [rng] or the
    global one when [rng] is [None]: one waiting time and one choice of a
    leaf for each of the [n - 1] splits, and the waiting time after the
    last split. *)
Theorem uniform_pure_birth_tree_draws (T : namespace) (b : Q)
    (rng : option Rng.rng) (G : Rng.rng) (fuel : nat) :
  ~ b == 0 -> labels T <> [] ->
  Rng.well_formed (default G rng) ->
  (length (labels T) <= fuel)%nat ->
  exists t r,
    uniform_pure_birth_tree T b rng G fuel = Some (Ok (t, r))
    /\ Rng.draws r = Rng.draws (default G rng)
    /\ Rng.pos r = (Rng.pos (default G rng) + 2 * length (labels T) - 1)%nat.
Proof.
  intros Hb HT Hwf Hfuel.
  destruct (uniform_run T b rng G fuel Hb HT Hwf Hfuel) as (ns & Hrun & _).
  do 2 eexists. split; [exact Hrun |]. done.
Qed.

Lemma uniform_pure_birth_tree_draws_witness :
  exists t r,
    uniform_pure_birth_tree three_taxa 2 (Some (Examples.const_rng (3 # 8) 1 0))
      (Examples.const_rng (1 # 4) 1 0) 3 = Some (Ok (t, r))
    /\ Rng.draws r = Rng.draws (Examples.const_rng (3 # 8) 1 0)
    /\ Rng.pos r = (Rng.pos (Examples.const_rng (3 # 8) 1 0)
                    + 2 * length (labels three_taxa) - 1)%nat.
Proof.
  apply (uniform_pure_birth_tree_draws three_taxa 2
           (Some (Examples.const_rng (3 # 8) 1 0))
           (Examples.const_rng (1 # 4) 1 0) 3).
  - intros H. vm_compute in H. discriminate.
  - discriminate.
  - intros i. cbn. repeat split; discriminate.
  - cbn. lia.
Defined.

End UniformFacts.

Module DiscreteFacts.
Import Tree Kw Runs BirthDeathFacts PureBirth DiscreteRuns.
Open Scope Q_scope.

Section Library.

Variable prune_subtree : tree -> nat -> tree.
Variable randomly_assign_taxa : tree -> Rng.rng -> tree * Rng.rng.

Lemma leaf_step_quiet cfg b d bsd dsd l g r :
  b <= 0 -> b + d <= 0 ->
  0 <= Rng.u01 (Rng.draws r (Rng.pos r)) ->
  Discrete.leaf_step prune_subtree cfg b d bsd dsd
    {| Discrete.the_tree := lone_seed cfg b d l;
       Discrete.num_gens := g; Discrete.rng := r |} 0
  = Ok {| Discrete.the_tree := lone_seed cfg b d (l + 1);
          Discrete.num_gens := g; Discrete.rng := (Rng.next r).2 |}.
Proof.
  intros Hb Hbd Hu. unfold Discrete.leaf_step, lone_seed.
  cbn -[Qplus Qmult Qminus Fit.Qlt_bool].
  set (u := Rng.u01 _) in *.
  rewrite (Qlt_bool_false (0 + (1 - 0) * u) b) by lra.
  rewrite (Qlt_bool_false (0 + (1 - 0) * u) (b + d)) by lra.
  rewrite andb_false_r. reflexivity.
Qed.

(** With rates that no draw can fall below, the growth loop of a run
    that wants more than one leaf and has no limit of generations never
    ends. *)
Lemma growth_stuck cfg b d bsd dsd q :
  b <= 0 -> b + d <= 0 ->
  Discrete.target_num_gens cfg = VNone ->
  as_num (Discrete.target_num_taxa cfg) = Some q -> 1 < q ->
  forall fuel l g r,
    draws_in_range (Rng.draws r) ->
    Discrete.growth prune_subtree fuel cfg b d bsd dsd [0%nat]
      {| Discrete.the_tree := lone_seed cfg b d l;
         Discrete.num_gens := g; Discrete.rng := r |} = None.
Proof.
  intros Hb Hbd Hgens Htaxa Hq.
  induction fuel as [| fuel IH]; intros l g r Hr; [done |].
  cbn [Discrete.growth].
  assert (Hkeep : forall st, Discrete.keep_growing cfg [0%nat] st = Ok true).
  { intros st. unfold Discrete.keep_growing. rewrite Hgens.
    destruct (Discrete.target_num_taxa cfg) eqn:E; try discriminate;
      unfold py_lt; cbn [is_None as_num len length] in *;
      injection Htaxa as <-; cbn [mbind res_bind Py.bind];
      rewrite Qlt_bool_true by exact Hq; reflexivity. }
  rewrite Hkeep. cbn [BirthDeath.fold_res].
  rewrite leaf_step_quiet by (try done; apply Hr).
  cbn [mbind res_bind Py.bind Discrete.the_tree Discrete.num_gens Discrete.rng].
  change (leaf_nodes (nodes (lone_seed cfg b d (l + 1)))
                     (seed_node (lone_seed cfg b d (l + 1)))) with [0%nat].
  apply IH. exact Hr.
Qed.

(** With rates whose sum no draw can fall below, the coda never ends
    while its condition holds, for the condition does not change. *)
Lemma coda_stuck cfg b d g :
  b + d <= 0 ->
  (if is_None (Discrete.target_num_gens cfg) then Ok true
   else py_lt (VInt g) (Discrete.target_num_gens cfg)) = Ok true ->
  forall fuel k r,
    draws_in_range (Rng.draws r) ->
    Discrete.coda fuel cfg b d g k r = None.
Proof.
  intros Hbd Hcond. induction fuel as [| fuel IH]; intros k r Hr; [done |].
  cbn [Discrete.coda]. rewrite Hcond.
  cbn [Rng.uniform Rng.next].
  rewrite Qlt_bool_false.
  - apply IH. exact Hr.
  - destruct (Hr (Rng.pos r)) as (H0 & _). lra.
Qed.

Lemma initialize_fresh_tree cfg kwargs b d :
  kwargs !! "tree" = None ->
  Discrete.initialize cfg kwargs b d = Ok (lone_seed cfg b d 0).
Proof. intros H. unfold Discrete.initialize. by rewrite H. Qed.

(** X10.  [discrete_birth_death_tree] on a fresh tree, without [max_time]
    and with rates that leave no room for an event (birth rate at most 0,
    and birth rate plus death rate at most 0, as with both rates 0),
    never returns and never raises: no leaf ever splits or dies, so the
    growth loop runs for ever when more than one tip is wanted, and
    otherwise the closing loop that counts quiet generations does. *)
Theorem discrete_zero_rates_never_return (b d bsd dsd : Q)
    (kwargs : gmap string value) (cfg : Discrete.config)
    (GLOBAL_RNG r0 : Rng.rng) (q : Q) :
  b <= 0 -> b + d <= 0 ->
  Discrete.parse_kwargs kwargs = Ok cfg ->
  kwargs !! "tree" = None ->
  Discrete.target_num_gens cfg = VNone ->
  as_num (Discrete.target_num_taxa cfg) = Some q ->
  Discrete.bind_rng cfg GLOBAL_RNG = Ok r0 ->
  Rng.well_formed r0 ->
  forall fuel,
    Discrete.discrete_birth_death_tree prune_subtree randomly_assign_taxa
      b d bsd dsd kwargs GLOBAL_RNG fuel = None.
Proof.
  intros Hb Hbd Hparse Htree Hgens Htaxa Hrng Hwf fuel.
  unfold Discrete.discrete_birth_death_tree.
  rewrite Hparse. cbn [mbind res_bind Py.bind]. rewrite Hrng.
  cbn [mbind res_bind Py.bind]. rewrite initialize_fresh_tree by done.
  cbn [mbind res_bind Py.bind].
  change (leaf_nodes (nodes (lone_seed cfg b d 0))
                     (seed_node (lone_seed cfg b d 0))) with [0%nat].
  destruct (Qlt_le_dec 1 q) as [Hq | Hq].
  - by rewrite (growth_stuck cfg b d bsd dsd q).
  - destruct fuel as [| fuel]; [done |].
    cbn [Discrete.growth].
    assert (Hkeep : forall st, Discrete.keep_growing cfg [0%nat] st = Ok false).
    { intros st. unfold Discrete.keep_growing.
      destruct (Discrete.target_num_taxa cfg) eqn:E; try discriminate;
        unfold py_lt; cbn [is_None as_num len length] in *;
        injection Htaxa as <-; cbn [mbind res_bind Py.bind];
        rewrite Qlt_bool_false by exact Hq; reflexivity. }
    rewrite Hkeep. cbn [Discrete.num_gens Discrete.rng].
    rewrite coda_stuck; [done | done | by rewrite Hgens | exact Hwf].
Qed.

Lemma leaf_step_num_gens cfg b d bsd dsd st nd st' :
  Discrete.repeat_until_success cfg = false ->
  Discrete.leaf_step prune_subtree cfg b d bsd dsd st nd = Ok st' ->
  Discrete.num_gens st' = Discrete.num_gens st.
Proof.
  intros Hr. unfold Discrete.leaf_step.
  cbn [Rng.uniform Rng.gauss Rng.next new_child].
  rewrite Hr. cbn [negb].
  repeat (match goal with
          | |- context [if ?c then _ else _] => destruct c
          end);
    intros H; try discriminate; by injection H as <-.
Qed.

Lemma fold_leaf_step_num_gens cfg b d bsd dsd leaves :
  Discrete.repeat_until_success cfg = false ->
  forall st st',
    BirthDeath.fold_res (Discrete.leaf_step prune_subtree cfg b d bsd dsd)
                        st leaves = Ok st' ->
    Discrete.num_gens st' = Discrete.num_gens st.
Proof.
  intros Hr. induction leaves as [| nd leaves IH]; intros st st' H.
  - cbn in H. by injection H as <-.
  - cbn [BirthDeath.fold_res] in H.
    destruct (Discrete.leaf_step _ _ _ _ _ _ st nd) as [st1 |] eqn:E;
      [| discriminate].
    cbn [mbind res_bind Py.bind] in H. apply IH in H.
    apply leaf_step_num_gens in E; [| done]. congruence.
Qed.

(** Without a target number of taxa and without retries, the growth loop
    ends after at most [T] generations, and it ends at generation [T] or
    later, or with an exception. *)
Lemma growth_bounded cfg b d bsd dsd T :
  Discrete.target_num_taxa cfg = VNone ->
  Discrete.target_num_gens cfg = VInt T ->
  Discrete.repeat_until_success cfg = false ->
  forall m fuel leaves st,
    (Z.to_nat (T - Discrete.num_gens st) <= m)%nat -> (m < fuel)%nat ->
    exists out,
      Discrete.growth prune_subtree fuel cfg b d bsd dsd leaves st = Some out
      /\ forall st', out = Ok st' -> (T <= Discrete.num_gens st')%Z.
Proof.
  intros Htaxa Hgens Hr.
  assert (Hkeep : forall leaves st,
            Discrete.keep_growing cfg leaves st
            = Ok (Discrete.num_gens st <? T)%Z).
  { intros leaves st. unfold Discrete.keep_growing. rewrite Htaxa, Hgens.
    cbn [is_None mbind res_bind Py.bind]. unfold py_lt. cbn [as_num].
    f_equal. unfold Fit.Qlt_bool. rewrite Qle_bool_inject_Z.
    rewrite Z.leb_antisym. by rewrite negb_involutive. }
  induction m as [| m IH]; intros fuel leaves st Hm Hfuel;
    (destruct fuel as [| fuel]; [lia |]); cbn [Discrete.growth];
    rewrite Hkeep.
  - destruct (Z.ltb_spec (Discrete.num_gens st) T); [lia |].
    eexists. split; [done |]. intros st' H'. injection H' as <-. done.
  - destruct (Z.ltb_spec (Discrete.num_gens st) T).
    + destruct (BirthDeath.fold_res _ st leaves) as [st1 |] eqn:E.
      * apply fold_leaf_step_num_gens in E; [| done].
        apply IH; [cbn [Discrete.num_gens]; lia | lia].
      * eexists. split; [done |]. discriminate.
    + eexists. split; [done |]. intros st' H'. injection H' as <-. done.
Qed.

(** X11.  When [max_time] is the only limit given to
    [discrete_birth_death_tree] (an int [T], with neither [ntax] nor
    [taxon_namespace]) and retries are off, as by default, the call comes
    to an end, with a tree or an exception, within [T] passes of the
    growth loop, whatever the rates, the tree passed in, the generator
    and the draws. *)
Theorem discrete_max_time_terminates (b d bsd dsd : Q)
    (kwargs : gmap string value) (cfg : Discrete.config)
    (GLOBAL_RNG : Rng.rng) (T : Z) (fuel : nat) :
  Discrete.parse_kwargs kwargs = Ok cfg ->
  Discrete.target_num_taxa cfg = VNone ->
  Discrete.target_num_gens cfg = VInt T ->
  Discrete.repeat_until_success cfg = false ->
  (Z.to_nat T < fuel)%nat ->
  exists out,
    Discrete.discrete_birth_death_tree prune_subtree randomly_assign_taxa
      b d bsd dsd kwargs GLOBAL_RNG fuel = Some out.
Proof.
  intros Hparse Htaxa Hgens Hr Hfuel.
  unfold Discrete.discrete_birth_death_tree.
  rewrite Hparse. cbn [mbind res_bind Py.bind].
  destruct (Discrete.bind_rng cfg GLOBAL_RNG) as [r |];
    cbn [mbind res_bind Py.bind]; [| by eexists].
  destruct (Discrete.initialize cfg kwargs b d) as [tree |];
    cbn [mbind res_bind Py.bind]; [| by eexists].
  destruct (growth_bounded cfg b d bsd dsd T Htaxa Hgens Hr (Z.to_nat T) fuel
              (leaf_nodes (nodes tree) (seed_node tree))
              {| Discrete.the_tree := tree; Discrete.num_gens := 0;
                 Discrete.rng := r |})
    as (out & Hout & Hge); [cbn [Discrete.num_gens]; lia | lia |].
  rewrite Hout. destruct out as [st |]; [| by eexists].
  specialize (Hge st eq_refl).
  destruct fuel as [| fuel]; [lia |]. cbn [Discrete.coda].
  rewrite Hgens. cbn [is_None]. unfold py_lt. cbn [as_num].
  unfold Fit.Qlt_bool. rewrite Qle_bool_inject_Z.
  destruct (Z.leb_spec T (Discrete.num_gens st)); [| lia].
  cbn [negb]. by eexists.
Qed.

End Library.

Lemma discrete_zero_rates_never_return_witness :
  Discrete.discrete_birth_death_tree
    (fun t nd => TreeLibrary.prune_subtree t nd true)
    TreeLibrary.randomly_assign_taxa
    0 0 0 0 (<["ntax" := VInt 2]> ∅) (Examples.const_rng (1 # 4) 1 0) 1000
  = None.
Proof.
  eapply (discrete_zero_rates_never_return _ _ 0 0 0 0
            (<["ntax" := VInt 2]> ∅) _
            (Examples.const_rng (1 # 4) 1 0) (Examples.const_rng (1 # 4) 1 0)).
  - discriminate.
  - discriminate.
  - vm_compute. reflexivity.
  - reflexivity.
  - reflexivity.
  - reflexivity.
  - reflexivity.
  - intros i. cbn. repeat split; discriminate.
Defined.

Lemma discrete_max_time_terminates_witness :
  exists out,
    Discrete.discrete_birth_death_tree
      (fun t nd => TreeLibrary.prune_subtree t nd true)
      TreeLibrary.randomly_assign_taxa
      (1 # 2) (1 # 4) 0 0 Examples.max_time_only
      (Examples.const_rng (1 # 4) 1 0) 6
    = Some out.
Proof.
  eapply (discrete_max_time_terminates _ _ (1 # 2) (1 # 4) 0 0
            Examples.max_time_only _ (Examples.const_rng (1 # 4) 1 0) 5 6).
  - vm_compute. reflexivity.
  - reflexivity.
  - reflexivity.
  - reflexivity.
  - cbn. lia.
Defined.

End DiscreteFacts.

Module SeedFacts.
Import Tree Kw BirthDeath Runs BirthDeathFacts PureBirth SeedRuns.
Open Scope Q_scope.

Lemma initialize_at_start cfg b d r :
  tree_arg cfg = VNone ->
  taxon_namespace_arg cfg = VNone
  \/ (exists ns, taxon_namespace_arg cfg = VNamespace ns) ->
  exists ns t,
    initialize cfg b d = Ok (t, {[0%nat]}, ∅)
    /\ {| store := nodes t; namespace_of := taxon_namespace t;
          extant_tips := {[0%nat]}; extinct_tips := ∅; total_time := 0;
          targetted_time_slices := []; rng := r |}
       = at_start b d (Some 0)
           (if is_add_extinct_attr cfg then IsBool false else Unset) ns r.
Proof.
  intros Ht Hns. unfold initialize. rewrite Ht.
  destruct Hns as [-> | [ns ->]]; do 2 eexists; split; reflexivity.
Qed.

(** The first event of a run whose rates sum to 0. *)
Lemma iteration_zero_rates cfg b d bsd dsd i1 i2 l a ns r :
  b + d == 0 -> starts cfg ->
  iteration cfg b d bsd dsd i1 i2 (at_start b d l a ns r)
  = Raise ZeroDivisionError.
Proof.
  intros Hbd Hstart. unfold iteration. rewrite Hstart.
  cbn [mbind res_bind Py.bind at_start extant_tips store rng].
  rewrite elements_singleton.
  cbn -[Qplus Qmult Qminus Qdiv Qeq_bool].
  assert (E : Qeq_bool (0 + b + d) 0 = true) by (apply Qeq_bool_iff; lra).
  by rewrite E.
Qed.

Lemma iteration_pure_death n cfg b d bsd dsd l a ns r :
  b == 0 -> 0 < d ->
  extant_target_only n cfg -> (2 <= n)%nat ->
  repeat_until_success cfg = true ->
  0 <= Rng.u01 (Rng.draws r (S (Rng.pos r))) ->
  Rng.u01 (Rng.draws r (S (Rng.pos r))) < 1 ->
  exists l' a',
    iteration cfg b d bsd dsd {[0%nat]} ∅ (at_start b d l a ns r)
    = Ok (Continue,
          at_start b d l' a' ns
            {| Rng.draws := Rng.draws r; Rng.pos := S (S (Rng.pos r)) |}).
Proof.
  intros Hb Hd Hcfg Hn Hretry Hu0 Hu1. unfold iteration.
  rewrite (termination_check_extant n) by done.
  cbn [at_start extant_tips store rng extinct_tips total_time
       targetted_time_slices namespace_of].
  rewrite size_singleton.
  destruct (Nat.leb_spec n 1); [lia |].
  destruct Hcfg as [_ _ _ Hmax Hgsa]. rewrite Hmax, Hgsa.
  cbn [mbind res_bind Py.bind is_None negb andb].
  rewrite elements_singleton.
  cbn -[Qplus Qmult Qminus Qdiv Qeq_bool Fit.Qlt_bool difference size restart
       birth death].
  set (s := 0 + b + d).
  assert (Hs : s == d) by (unfold s; lra).
  assert (E : Qeq_bool s 0 = false).
  { destruct (Qeq_bool s 0) eqn:E; [| done]. apply Qeq_bool_iff in E. lra. }
  rewrite E. cbn [mbind res_bind Py.bind Rng.draws Rng.pos].
  set (u := Rng.u01 _) in *.
  assert (Hbs : b / s == 0) by (rewrite Hb; field; lra).
  assert (Hds : d / s == 1) by (rewrite Hs; field; lra).
  rewrite (Qlt_bool_false _ 0) by (rewrite Hbs, Hds; nra).
  rewrite (Qlt_bool_true _ 0) by (rewrite Hbs, Hds; nra).
  cbn [mbind res_bind Py.bind].
  unfold death. cbn [extant_tips targetted_time_slices].
  rewrite difference_diag_L, size_empty, Hgsa, Hretry.
  cbn [Nat.ltb Nat.leb is_None negb andb].
  unfold restart. rewrite elements_singleton.
  cbn [foldl store namespace_of targetted_time_slices rng].
  unfold restart_node, at_start.
  destruct (is_add_extinct_attr cfg); do 2 eexists; reflexivity.
Qed.

(** A run whose every event is the death of its only lineage starts
    over for ever. *)
Lemma loop_pure_death n cfg b d bsd dsd :
  b == 0 -> 0 < d ->
  extant_target_only n cfg -> (2 <= n)%nat ->
  repeat_until_success cfg = true ->
  forall fuel l a ns r,
    draws_in_range (Rng.draws r) ->
    loop fuel cfg b d bsd dsd {[0%nat]} ∅ (at_start b d l a ns r) = None.
Proof.
  intros Hb Hd Hcfg Hn Hretry.
  induction fuel as [| fuel IH]; intros l a ns r Hr; [done |].
  cbn [loop].
  destruct (iteration_pure_death n cfg b d bsd dsd l a ns r)
    as (l' & a' & ->); try done; try apply Hr.
  apply IH. exact Hr.
Qed.

Section Library.

Variable prune_subtree : tree -> nat -> bool -> tree.
Variable suppress_unifurcations : tree -> tree.

(** X12.  [birth_death_tree] on a fresh tree with a birth rate and a death
    rate that sum to 0 (both 0, for one) raises [ZeroDivisionError] at its
    first waiting time, unless the run is over before it starts (a target
    that one tip meets, or a [max_time] of 0 or less): the sum of the
    rates is the rate passed to [rng.expovariate]. *)
Theorem birth_death_tree_zero_rates (b d bsd dsd : Q)
    (kwargs : gmap string value) (cfg : config)
    (GLOBAL_RNG r0 : Rng.rng) (fuel : nat) :
  b + d == 0 ->
  parse_kwargs kwargs = Ok cfg ->
  tree_arg cfg = VNone ->
  taxon_namespace_arg cfg = VNone
  \/ (exists ns, taxon_namespace_arg cfg = VNamespace ns) ->
  bind_rng cfg GLOBAL_RNG = Ok r0 ->
  starts cfg ->
  (0 < fuel)%nat ->
  birth_death_tree prune_subtree suppress_unifurcations
    b d bsd dsd kwargs GLOBAL_RNG fuel
  = Some (Raise ZeroDivisionError).
Proof.
  intros Hbd Hparse Htree Hns Hrng Hstart Hfuel.
  unfold birth_death_tree, grow. rewrite Hparse.
  destruct (initialize_at_start cfg b d r0 Htree Hns) as (ns & t & -> & Hst).
  rewrite Hrng, Hst.
  destruct fuel as [| fuel]; [lia |]. cbn [loop].
  by rewrite iteration_zero_rates.
Qed.

(** X13.  [birth_death_tree] on a fresh tree with birth rate 0, a death
    rate above 0, a target of two or more extant tips as its only limit
    and retries on, as by default, never returns and never raises: every
    event is the death of the only lineage, and every total extinction
    starts the run over. *)
Theorem birth_death_tree_pure_death_never_returns (n : nat) (b d bsd dsd : Q)
    (kwargs : gmap string value) (cfg : config)
    (GLOBAL_RNG r0 : Rng.rng) :
  b == 0 -> 0 < d ->
  parse_kwargs kwargs = Ok cfg ->
  extant_target_only n cfg -> (2 <= n)%nat ->
  repeat_until_success cfg = true ->
  tree_arg cfg = VNone ->
  taxon_namespace_arg cfg = VNone
  \/ (exists ns, taxon_namespace_arg cfg = VNamespace ns) ->
  bind_rng cfg GLOBAL_RNG = Ok r0 ->
  Rng.well_formed r0 ->
  forall fuel,
    birth_death_tree prune_subtree suppress_unifurcations
      b d bsd dsd kwargs GLOBAL_RNG fuel = None.
Proof.
  intros Hb Hd Hparse Hcfg Hn Hretry Htree Hns Hrng Hwf fuel.
  unfold birth_death_tree, grow. rewrite Hparse.
  destruct (initialize_at_start cfg b d r0 Htree Hns) as (ns & t & -> & Hst).
  rewrite Hrng, Hst.
  by rewrite (loop_pure_death n cfg b d bsd dsd).
Qed.

End Library.

Lemma starts_two_tips : starts (config_of Examples.two_tips true).
Proof. intros b d l a ns r. reflexivity. Qed.

Lemma birth_death_tree_zero_rates_witness :
  birth_death_tree TreeLibrary.prune_subtree TreeLibrary.suppress_unifurcations
    0 0 0 0 Examples.two_tips (Examples.const_rng (1 # 4) 1 0) 1
  = Some (Raise ZeroDivisionError).
Proof.
  apply (birth_death_tree_zero_rates
           TreeLibrary.prune_subtree TreeLibrary.suppress_unifurcations
           0 0 0 0 Examples.two_tips (config_of Examples.two_tips true)
           (Examples.const_rng (1 # 4) 1 0) (Examples.const_rng (1 # 4) 1 0) 1).
  - reflexivity.
  - vm_compute. reflexivity.
  - reflexivity.
  - left. reflexivity.
  - reflexivity.
  - exact starts_two_tips.
  - lia.
Defined.

Lemma birth_death_tree_pure_death_never_returns_witness :
  birth_death_tree TreeLibrary.prune_subtree
    TreeLibrary.suppress_unifurcations
    0 1 0 0 Examples.two_tips (Examples.const_rng (1 # 4) 1 0) 1000
  = None.
Proof.
  apply (birth_death_tree_pure_death_never_returns
           TreeLibrary.prune_subtree TreeLibrary.suppress_unifurcations
           2 0 1 0 0 Examples.two_tips (config_of Examples.two_tips true)
           (Examples.const_rng (1 # 4) 1 0) (Examples.const_rng (1 # 4) 1 0)).
  - reflexivity.
  - reflexivity.
  - vm_compute. reflexivity.
  - constructor; reflexivity.
  - lia.
  - reflexivity.
  - reflexivity.
  - left. reflexivity.
  - reflexivity.
  - intros i. cbn. repeat split; discriminate.
Defined.

End SeedFacts.

(** ** The default of [repeat_until_success] in the two simulators *)

Module Retry.

Import Tree Kw Examples Runs BirthDeathFacts SeedRuns SeedFacts DiscreteRuns
  DiscreteFacts.
Open Scope Q_scope.

(** *** Where [TreeSimTotalExtinctionException] can come from *)














Section Library.

Variable prune_subtree : tree -> nat -> bool -> tree.
Variable suppress_unifurcations : tree -> tree.
Variable discrete_prune_subtree : tree -> nat -> tree.
Variable randomly_assign_taxa : tree -> Rng.rng -> tree * Rng.rng.





End Library.



End Retry.

(** ** Time censoring and taxon assignment in [birth_death_tree] *)

Module CensoringFacts.
Import Tree Kw BirthDeath Runs BirthDeathFacts PureBirth SeedRuns SeedFacts
  Censoring.
Open Scope Q_scope.

Lemma termination_check_max_time T cfg st :
  max_time_only T cfg ->
  termination_check cfg st = Ok (Qle_bool T (total_time st)).
Proof.
  intros [H1 H2 H3 H4 H5]. unfold termination_check, reached.
  rewrite H1, H2, H3, H5. cbn [is_None mbind res_bind Py.bind].
  unfold py_ge, py_le.
  destruct (max_time cfg); cbn [as_num is_None] in *; try discriminate;
    injection H4 as <-; reflexivity.
Qed.

(** The first event of a run that [max_time] alone limits, when its
    waiting time goes beyond [max_time]. *)
Lemma iteration_censored T cfg b d bsd dsd i1 i2 a ns r :
  max_time_only T cfg -> 0 < T ->
  T < Rng.exp1 (Rng.draws r (Rng.pos r)) / (b + d) ->
  exists l,
    l == Rng.exp1 (Rng.draws r (Rng.pos r)) / (b + d)
    /\ iteration cfg b d bsd dsd i1 i2 (at_start b d (Some 0) a ns r)
       = Ok (Continue,
             {| store := [lone_tip b d (Some l) a]; namespace_of := ns;
                extant_tips := {[0%nat]}; extinct_tips := ∅;
                total_time := l; targetted_time_slices := [];
                rng := {| Rng.draws := Rng.draws r;
                          Rng.pos := S (Rng.pos r) |} |}).
Proof.
  intros Hcfg HT Hw. unfold iteration.
  rewrite (termination_check_max_time T) by done.
  cbn [at_start extant_tips store rng extinct_tips total_time
       targetted_time_slices namespace_of].
  rewrite (proj2 (FitFacts.Qle_bool_false T 0)) by done.
  pose proof (mto_gsa _ _ Hcfg) as Hgsa.
  pose proof (mto_max_time _ _ Hcfg) as Hmax.
  rewrite Hgsa.
  cbn [mbind res_bind Py.bind is_None negb andb].
  rewrite elements_singleton.
  cbn -[Qplus Qmult Qminus Qdiv Qeq_bool Fit.Qlt_bool Qle_bool difference size
       restart birth death py_le].
  set (e := Rng.exp1 _) in *.
  set (s := 0 + b + d).
  assert (Hs : s == b + d) by (unfold s; lra).
  assert (Hns : ~ s == 0).
  { intros H0. rewrite <- Hs, H0 in Hw. unfold Qdiv in Hw.
    change (/ 0) with 0 in Hw. lra. }
  assert (E : Qeq_bool s 0 = false).
  { destruct (Qeq_bool s 0) eqn:E; [| done]. by apply Qeq_bool_iff in E. }
  rewrite E. cbn [mbind res_bind Py.bind].
  assert (Hwithin : (if is_None (max_time cfg) then Ok true
                     else py_le (VFloat (0 + e / s)) (max_time cfg)) = Ok false).
  { unfold py_le. destruct (max_time cfg); cbn [as_num is_None] in *;
      try discriminate; injection Hmax as <-; f_equal;
      apply FitFacts.Qle_bool_false; rewrite Hs; lra. }
  rewrite Hwithin. cbn [mbind res_bind Py.bind].
  exists (0 + e / s). split; [rewrite Hs; lra | reflexivity].
Qed.

Section Library.

Variable prune_subtree : tree -> nat -> bool -> tree.
Variable suppress_unifurcations : tree -> tree.

(** What is assumed of the tree library: collapsing the single-child
    nodes of a tree that has none leaves it as it is. *)
Hypothesis suppress_unifurcations_none :
  forall t,
    (forall id, length (child_nodes (node_at (nodes t) id)) <> 1%nat) ->
    suppress_unifurcations t = t.

(** X14.  In [birth_death_tree] an event that would fall after [max_time]
    is not realized, but its whole waiting time is still added to the
    extant edges and to the clock: on a fresh tree limited by a positive
    [max_time] alone, when the first waiting time goes beyond [max_time],
    the call returns after one draw a tree of one node, the seed node,
    whose edge has the length of that waiting time, beyond [max_time]. *)
Theorem first_event_beyond_max_time (b d bsd dsd T : Q)
    (kwargs : gmap string value) (cfg : config)
    (GLOBAL_RNG r0 : Rng.rng) (fuel : nat) :
  0 < T ->
  T < Rng.exp1 (Rng.draws r0 (Rng.pos r0)) / (b + d) ->
  parse_kwargs kwargs = Ok cfg ->
  max_time_only T cfg ->
  tree_arg cfg = VNone ->
  taxon_namespace_arg cfg = VNone
  \/ (exists ns, taxon_namespace_arg cfg = VNamespace ns) ->
  bind_rng cfg GLOBAL_RNG = Ok r0 ->
  (2 <= fuel)%nat ->
  exists out l,
    birth_death_tree prune_subtree suppress_unifurcations
      b d bsd dsd kwargs GLOBAL_RNG fuel = Some (Ok out)
    /\ length (nodes (returned out)) = 1%nat
    /\ leaf_nodes (nodes (returned out)) (seed_node (returned out))
       = [seed_node (returned out)]
    /\ edge_length (node_at (nodes (returned out)) (seed_node (returned out)))
       = Some l
    /\ T < l
    /\ l == Rng.exp1 (Rng.draws r0 (Rng.pos r0)) / (b + d)
    /\ rng_after out
       = {| Rng.draws := Rng.draws r0; Rng.pos := S (Rng.pos r0) |}.
Proof.
  intros HT Hw Hparse Hcfg Htree Hns Hrng Hfuel.
  destruct (initialize_at_start cfg b d r0 Htree Hns) as (ns & t & Hinit & Hst).
  set (a := if is_add_extinct_attr cfg then IsBool false else Unset) in *.
  destruct (iteration_censored T cfg b d bsd dsd {[0%nat]} ∅ a ns r0 Hcfg HT Hw)
    as (l & Hl & Hit).
  set (st := {| store := [lone_tip b d (Some l) a]; namespace_of := ns;
                extant_tips := {[0%nat]}; extinct_tips := ∅;
                total_time := l; targetted_time_slices := [];
                rng := {| Rng.draws := Rng.draws r0;
                          Rng.pos := S (Rng.pos r0) |} |}) in *.
  assert (Hgrow : grow b d bsd dsd kwargs GLOBAL_RNG fuel
                  = Some (Ok (cfg, t, BreakTermination, st))).
  { unfold grow. rewrite Hparse, Hinit, Hrng, Hst.
    destruct fuel as [| [| fuel]]; [lia | lia |]. cbn [loop].
    rewrite Hit.
    unfold iteration. rewrite (termination_check_max_time T) by done.
    cbn [total_time st].
    rewrite (proj2 (Qle_bool_iff T l)) by (rewrite Hl; lra).
    reflexivity. }
  assert (Ht : seed_node t = 0%nat /\ is_rooted t = true).
  { unfold initialize in Hinit. rewrite Htree in Hinit.
    destruct Hns as [Hn | [n Hn]]; rewrite Hn in Hinit;
      cbn [mbind res_bind Py.bind] in Hinit; injection Hinit as <-; done. }
  destruct Ht as [Hseed Hrooted].
  set (t1 := {| nodes := store st; seed_node := seed_node t;
                taxon_namespace := namespace_of st;
                is_rooted := is_rooted t |}).
  assert (Hfinish : finish prune_subtree suppress_unifurcations cfg t st
                    = Ok (assign_taxa cfg (extant_tips st) (extinct_tips st) t1,
                          rng st)).
  { unfold finish. rewrite (mto_gsa _ _ Hcfg).
    cbn [is_None negb mbind res_bind Py.bind].
    fold t1. cbn [extinct_tips st]. rewrite elements_empty. cbn [fold_res].
    assert (E : (if negb (is_retain_extinct_tips cfg) then Ok t1 else Ok t1)
                = Ok t1) by (by destruct (negb _)).
    rewrite E. cbn [mbind res_bind Py.bind].
    rewrite suppress_unifurcations_none; [reflexivity |].
    intros id. unfold t1, st. cbn [nodes store].
    destruct id as [| [| id]]; cbn; discriminate. }
  set (t' := assign_taxa cfg (extant_tips st) (extinct_tips st) t1) in *.
  exists {| returned := t'; rng_after := rng st;
            GLOBAL_RNG_after :=
              match rng_arg cfg with None => rng st | Some _ => GLOBAL_RNG end |}, l.
  split.
  { unfold birth_death_tree. rewrite Hgrow, Hfinish. reflexivity. }
  cbn [returned rng_after].
  assert (Hlen : length (nodes t') = 1%nat)
    by apply (assign_taxa_nodes child_nodes cfg _ _ t1 0%nat (fun _ _ => eq_refl)).
  assert (Hseed' : seed_node t' = 0%nat).
  { unfold t'.
    rewrite (proj2 (proj2 (assign_taxa_nodes child_nodes cfg _ _ t1 0%nat
                             (fun _ _ => eq_refl)))).
    exact Hseed. }
  assert (Hch : forall id, child_nodes (node_at (nodes t') id)
                           = child_nodes (node_at (store st) id)).
  { intros id.
    apply (assign_taxa_nodes child_nodes cfg _ _ t1 id (fun _ _ => eq_refl)). }
  assert (Hel : edge_length (node_at (nodes t') 0) = Some l)
    by apply (assign_taxa_nodes edge_length cfg _ _ t1 0%nat (fun _ _ => eq_refl)).
  rewrite Hseed'.
  split; [exact Hlen |]. split.
  { assert (Hc0 : child_nodes (node_at (nodes t') 0) = [])
      by (rewrite Hch; reflexivity).
    unfold leaf_nodes, preorder_iter. rewrite Hlen. cbn [preorder].
    rewrite Hc0. cbn [flat_map app List.filter]. by rewrite Hc0. }
  split; [exact Hel |]. split; [rewrite Hl; exact Hw |].
  split; [exact Hl | reflexivity].
Qed.

End Library.

Lemma first_event_beyond_max_time_witness :
  exists out l,
    birth_death_tree TreeLibrary.prune_subtree TreeLibrary.suppress_unifurcations
      1 1 0 0 quarter (Examples.const_rng (1 # 4) 1 0) 2 = Some (Ok out)
    /\ length (nodes (returned out)) = 1%nat
    /\ leaf_nodes (nodes (returned out)) (seed_node (returned out))
       = [seed_node (returned out)]
    /\ edge_length (node_at (nodes (returned out)) (seed_node (returned out)))
       = Some l
    /\ (1 # 4) < l
    /\ l == Rng.exp1 (Rng.draws (Examples.const_rng (1 # 4) 1 0)
                                (Rng.pos (Examples.const_rng (1 # 4) 1 0)))
            / (1 + 1)
    /\ rng_after out
       = {| Rng.draws := Rng.draws (Examples.const_rng (1 # 4) 1 0);
            Rng.pos := S (Rng.pos (Examples.const_rng (1 # 4) 1 0)) |}.
Proof.
  apply (first_event_beyond_max_time
           TreeLibrary.prune_subtree TreeLibrary.suppress_unifurcations
           suppress_unifurcations_none_impl
           1 1 0 0 (1 # 4) quarter (config_of quarter true)
           (Examples.const_rng (1 # 4) 1 0) (Examples.const_rng (1 # 4) 1 0) 2).
  - reflexivity.
  - reflexivity.
  - vm_compute. reflexivity.
  - constructor; reflexivity.
  - reflexivity.
  - left. reflexivity.
  - reflexivity.
  - lia.
Defined.

End CensoringFacts.

Module LabellingFacts.
Import Tree Kw BirthDeath BirthDeathFacts Labelling.

Lemma tagged_length f entries ns : length (tagged f ns entries) = length ns.
Proof.
  unfold tagged. revert ns.
  induction entries as [| e entries IH]; intros ns; cbn [foldl]; [done |].
  by rewrite IH, length_update.
Qed.

Lemma tagged_other f entries ns id :
  id ∉ entries.*2 -> node_at (tagged f ns entries) id = node_at ns id.
Proof.
  unfold tagged. revert ns.
  induction entries as [| e entries IH]; intros ns Hid; cbn [foldl]; [done |].
  cbn [fmap list_fmap] in Hid. apply not_elem_of_cons in Hid as [Hne Hid].
  rewrite IH by done. by apply update_other.
Qed.

Lemma tagged_taxa f l :
  NoDup l ->
  forall ns s,
    (forall id, id ∈ l -> (id < length ns)%nat) ->
    map (fun id => taxon (node_at (tagged f ns (zip (seq s (length l)) l)) id)) l
    = map f (seq s (length l)).
Proof.
  induction 1 as [| a l Ha Hl IH]; intros ns s Hb; [done |].
  cbn [length seq zip zip_with map].
  assert (E : tagged f ns ((s, a) :: zip_with pair (seq (S s) (length l)) l)
              = tagged f (update (set_taxon (f s)) a ns)
                       (zip (seq (S s) (length l)) l)) by reflexivity.
  rewrite E. f_equal.
  - rewrite tagged_other.
    + rewrite update_same by (apply Hb; by left). reflexivity.
    + rewrite snd_zip by (rewrite length_seq; lia). exact Ha.
  - apply IH. intros id Hid. rewrite length_update. apply Hb. by right.
Qed.

Lemma made_label_inj c i j : made_label c i = made_label c j -> i = j.
Proof.
  unfold made_label. intros H.
  apply (inj (String.append c)) in H. apply (inj pretty) in H. lia.
Qed.

(** Lines 373-378 on a pool of taxa that is used up. *)
Lemma assign_taxon_empty_pool c l :
  forall s ns labels0,
    (forall i, (s <= i < s + length l)%nat -> made_label c i ∉ labels0) ->
    foldl (assign_taxon c) (ns, labels0, []) (zip (seq s (length l)) l)
    = (tagged (fun i => Some (made_label c i)) ns (zip (seq s (length l)) l),
       labels0 ++ map (made_label c) (seq s (length l)), []).
Proof.
  induction l as [| a l IH]; intros s ns labels0 Hfresh.
  - cbn. by rewrite app_nil_r.
  - cbn [length seq zip zip_with foldl].
    assert (E : assign_taxon c (ns, labels0, []) (s, a)
                = (update (set_taxon (Some (made_label c s))) a ns,
                   labels0 ++ [made_label c s], [])).
    { unfold assign_taxon, require_taxon. cbn [reverse rev_append].
      fold (made_label c s).
      rewrite bool_decide_eq_false_2; [done |].
      apply Hfresh. cbn [length]. lia. }
    rewrite E.
    change (zip_with pair (seq (S s) (length l)) l)
      with (zip (seq (S s) (length l)) l).
    rewrite IH.
    + cbn [map]. by rewrite <- app_assoc.
    + intros i Hi Hin. apply elem_of_app in Hin as [Hin | Hin].
      * revert Hin. apply Hfresh. cbn [length]. lia.
      * apply list_elem_of_singleton in Hin. apply made_label_inj in Hin. lia.
Qed.

(** X15.  The taxon assignment that closes [birth_death_tree], on a
    namespace without taxa, whatever the order in which the two sets are
    iterated: the extant tips are given the new taxa "T1", "T2", ... and
    the extinct tips "X1", "X2", ..., each in the order in which its set
    is iterated; the namespace ends up with exactly these taxa, in that
    order; no other node is touched.  Both sets are labelled as soon as
    one of [is_assign_extant_taxa] and [is_assign_extinct_taxa] is
    true. *)
Theorem assign_taxa_makes_labels (order : gset nat -> list nat) (cfg : config)
    (extant_tips extinct_tips : gset nat) (t : tree) :
  SetOrder.valid order ->
  is_assign_extant_taxa cfg || is_assign_extinct_taxa cfg = true ->
  labels (taxon_namespace t) = [] ->
  extant_tips ## extinct_tips ->
  (forall id, id ∈ extant_tips ∪ extinct_tips -> (id < length (nodes t))%nat) ->
  let t' := SetOrder.assign_taxa order cfg extant_tips extinct_tips t in
  taxa_of t' (order extant_tips)
  = map Some (made_labels "T" (size extant_tips))
  /\ taxa_of t' (order extinct_tips)
     = map Some (made_labels "X" (size extinct_tips))
  /\ labels (taxon_namespace t')
     = made_labels "T" (size extant_tips) ++ made_labels "X" (size extinct_tips)
  /\ (forall id, id ∉ extant_tips ∪ extinct_tips ->
        node_at (nodes t') id = node_at (nodes t) id).
Proof.
  intros Hord Hflags Hlabels Hdis Hb t'. subst t'. unfold SetOrder.assign_taxa.
  rewrite Hflags, Hlabels. unfold Fit.enumerate.
  set (ex := order extant_tips). set (ei := order extinct_tips).
  assert (Hpx : ex ≡ₚ elements extant_tips) by apply Hord.
  assert (Hpi : ei ≡ₚ elements extinct_tips) by apply Hord.
  assert (Hnx : NoDup ex) by (rewrite Hpx; apply NoDup_elements).
  assert (Hni : NoDup ei) by (rewrite Hpi; apply NoDup_elements).
  assert (Hlx : length ex = size extant_tips)
    by (unfold size, set_size; cbn; by rewrite Hpx).
  assert (Hli : length ei = size extinct_tips)
    by (unfold size, set_size; cbn; by rewrite Hpi).
  rewrite (assign_taxon_empty_pool "T" ex 0 (nodes t) [])
    by (intros i _ Hi; by apply elem_of_nil in Hi).
  cbn [app].
  rewrite (assign_taxon_empty_pool "X" ei 0).
  2:{ intros i _ Hi. apply list_elem_of_fmap in Hi as (j & Hj & _).
      unfold made_label in Hj. cbn in Hj. discriminate. }
  cbn [nodes taxon_namespace labels]. unfold taxa_of, made_labels.
  cbn [nodes]. fold ex ei.
  set (fT := fun i => Some (made_label "T" i)).
  set (fX := fun i => Some (made_label "X" i)).
  set (nsT := tagged fT (nodes t) (zip (seq 0 (length ex)) ex)).
  assert (Hex : forall id, id ∈ ex -> id ∈ extant_tips)
    by (intros id Hid; rewrite Hpx in Hid; by apply elem_of_elements).
  assert (Hei : forall id, id ∈ ei -> id ∈ extinct_tips)
    by (intros id Hid; rewrite Hpi in Hid; by apply elem_of_elements).
  assert (Hex' : forall id, id ∈ extant_tips -> id ∈ ex)
    by (intros id Hid; rewrite Hpx; by apply elem_of_elements).
  assert (Hei' : forall id, id ∈ extinct_tips -> id ∈ ei)
    by (intros id Hid; rewrite Hpi; by apply elem_of_elements).
  assert (HsT : (zip (seq 0 (length ex)) ex).*2 = ex)
    by (apply snd_zip; rewrite length_seq; lia).
  assert (HsX : (zip (seq 0 (length ei)) ei).*2 = ei)
    by (apply snd_zip; rewrite length_seq; lia).
  assert (HfT : map fT (seq 0 (length ex))
                = map Some (map (made_label "T") (seq 0 (size extant_tips))))
    by (rewrite map_map, Hlx; reflexivity).
  assert (HfX : map fX (seq 0 (length ei))
                = map Some (map (made_label "X") (seq 0 (size extinct_tips))))
    by (rewrite map_map, Hli; reflexivity).
  split; [| split; [| split]].
  - rewrite <- HfT.
    rewrite <- (tagged_taxa fT ex Hnx (nodes t) 0).
    + apply map_ext_in. intros id Hid. apply list_elem_of_In in Hid.
      rewrite tagged_other; [done |]. rewrite HsX. intros Hid'.
      exact (Hdis id (Hex id Hid) (Hei id Hid')).
    + intros id Hid. apply Hb. apply elem_of_union_l. by apply Hex.
  - rewrite <- HfX.
    apply (tagged_taxa fX ei Hni nsT 0).
    intros id Hid. unfold nsT. rewrite tagged_length.
    apply Hb. apply elem_of_union_r. by apply Hei.
  - by rewrite Hlx, Hli.
  - intros id Hid. rewrite tagged_other.
    + unfold nsT. rewrite tagged_other; [done |]. rewrite HsT.
      intros H. apply Hid, elem_of_union_l. by apply Hex.
    + rewrite HsX. intros H. apply Hid, elem_of_union_r. by apply Hei.
Qed.

Lemma assign_taxa_makes_labels_witness :
  taxa_of (SetOrder.assign_taxa SetOrder.ascending
             (config_of extinct_taxa_only true) {[1; 2]}%nat {[3%nat]}
             three_children) [1; 2]%nat
  = [Some "T1"; Some "T2"]
  /\ taxa_of (SetOrder.assign_taxa SetOrder.ascending
                (config_of extinct_taxa_only true) {[1; 2]}%nat {[3%nat]}
                three_children) [3%nat]
     = [Some "X1"]
  /\ labels (taxon_namespace
               (SetOrder.assign_taxa SetOrder.ascending
                  (config_of extinct_taxa_only true) {[1; 2]}%nat {[3%nat]}
                  three_children))
     = ["T1"; "T2"; "X1"].
Proof.
  destruct (assign_taxa_makes_labels SetOrder.ascending
              (config_of extinct_taxa_only true) {[1; 2]}%nat {[3%nat]}
              three_children) as (H1 & H2 & H3 & _).
  - exact Reproducible.ascending_valid.
  - reflexivity.
  - reflexivity.
  - intros x Hx Hy. apply elem_of_singleton in Hy. subst x.
    apply elem_of_union in Hx as [Hx | Hx]; apply elem_of_singleton in Hx;
      discriminate.
  - intros id Hid.
    repeat (apply elem_of_union in Hid as [Hid | Hid]);
      apply elem_of_singleton in Hid; subst id; cbn; lia.
  - split; [exact H1 |]. split; [exact H2 | exact H3].
Defined.

End LabellingFacts.
